(** * go-argo-lite: a shallow embedding of the poll-and-apply agent

    The development follows the Go packages of the repository:
    [kubehandler] (the manifest applier), [gitpoller] (the work tree and the
    change detection), [storage] (the encrypted catalog), [worker] (the
    per-target loop and the registry) and [server] (the control plane),
    and then [synctarget] (the provider over the same file), [main],
    [config] and [app] (the agent of a single repository).

    Go strings are byte strings: they are modelled by [string], whose
    characters are the 256 bytes.  Calls into third-party libraries (YAML,
    the Kubernetes clients, go-git, the JSON codec, the cipher) are taken as
    operations of an interface, one type class per library. *)

From Stdlib Require Import Ascii String.
From stdpp Require Import base tactics option list strings pretty gmap.

(** ** Go's [error] values

    Three shapes of [error] occur in the program: the [*fs.PathError] that
    [os.ReadFile] and [os.Lstat] return for a missing path, an error made by a
    library or by [fmt.Errorf] without [%w], and [fmt.Errorf("...: %w", err)].
    [os.IsNotExist] looks through a [PathError] only; it does not unwrap
    what [fmt.Errorf] wrapped. *)
Inductive error : Type :=
  | PathNotExist (op path : string)
  | ErrorNew (msg : string)
  | Errorf (msg : string) (cause : error).

Fixpoint Error (e : error) : string :=
  match e with
  | PathNotExist op path => op +:+ " " +:+ path +:+ ": no such file or directory"
  | ErrorNew msg => msg
  | Errorf msg cause => msg +:+ ": " +:+ Error cause
  end.

Definition IsNotExist (e : error) : bool :=
  match e with
  | PathNotExist _ _ => true
  | _ => false
  end.

(** The innermost error of a chain of [%w] wrappings. *)
Fixpoint rootCause (e : error) : error :=
  match e with
  | Errorf _ cause => rootCause cause
  | _ => e
  end.

(** A Go result pair [(value, err)] with [err] either nil or not. *)
Inductive result (A : Type) : Type :=
  | Ok (a : A)
  | Fail (e : error).
Arguments Ok {A} a.
Arguments Fail {A} e.

(** Line feed. *)
Definition LF : string := String "010" "".

(** ** Package [strings] of the Go library *)
Module GoStrings.

Fixpoint HasPrefix (s p : string) : bool :=
  match p, s with
  | EmptyString, _ => true
  | String _ _, EmptyString => false
  | String a p', String b s' => if decide (a = b) then HasPrefix s' p' else false
  end.

(** [s[n:]] and [s[:n]]. *)
Fixpoint sdrop (n : nat) (s : string) : string :=
  match n, s with
  | S n', String _ s' => sdrop n' s'
  | _, _ => s
  end.

Fixpoint stake (n : nat) (s : string) : string :=
  match n, s with
  | S n', String a s' => String a (stake n' s')
  | _, _ => EmptyString
  end.

(** [strings.Index]: the byte offset of the first occurrence of [sep],
    [None] for Go's -1. *)
Fixpoint Index (s sep : string) : option nat :=
  if HasPrefix s sep then Some 0
  else match s with
       | EmptyString => None
       | String _ s' => S <$> Index s' sep
       end.

(** The loop of [strings.genSplit]: cut at the first occurrence, go on after
    the separator.  Go bounds the loop by [strings.Count]; here the bound is
    any number of cuts that cannot be exceeded. *)
Fixpoint genSplit (cuts : nat) (s sep : string) : list string :=
  match cuts with
  | 0 => [s]
  | S cuts' =>
      match Index s sep with
      | None => [s]
      | Some m => stake m s :: genSplit cuts' (sdrop (m + String.length sep) s) sep
      end
  end.

(** [strings.Split] for a separator that is not empty. *)
Definition Split (s sep : string) : list string :=
  genSplit (String.length s) s sep.

(** [strings.Join]. *)
Fixpoint Join (elems : list string) (sep : string) : string :=
  match elems with
  | [] => ""
  | [e] => e
  | e :: rest => e +:+ sep +:+ Join rest sep
  end.

(** The encodings of the runes for which [unicode.IsSpace] holds: the six of
    ASCII, U+0085, U+00A0, U+1680, U+2000 to U+200A, U+2028, U+2029, U+202F,
    U+205F and U+3000. *)
Definition utf8 (bs : list nat) : string :=
  fold_right (λ b s, String (ascii_of_nat b) s) "" bs.

Definition whiteSpace : list string :=
  [utf8 [9]; utf8 [10]; utf8 [11]; utf8 [12]; utf8 [13]; utf8 [32];
   utf8 [194; 133]; utf8 [194; 160]; utf8 [225; 154; 128]]
  ++ map (λ k, utf8 [226; 128; 128 + k]) (seq 0 11)
  ++ [utf8 [226; 128; 168]; utf8 [226; 128; 169]; utf8 [226; 128; 175];
      utf8 [226; 129; 159]; utf8 [227; 128; 128]].

Definition HasSuffix (s p : string) : bool :=
  HasPrefix (String.rev s) (String.rev p).

(** Width in bytes of the white-space rune [s] starts with, 0 when it starts
    with none; the same at the end of [s]. *)
Definition spaceWidth (s : string) : nat :=
  match List.find (HasPrefix s) whiteSpace with
  | Some q => String.length q
  | None => 0
  end.

Definition spaceWidthLast (s : string) : nat :=
  match List.find (HasSuffix s) whiteSpace with
  | Some q => String.length q
  | None => 0
  end.

Fixpoint trimLeft (n : nat) (s : string) : string :=
  match n with
  | 0 => s
  | S n' =>
      match spaceWidth s with
      | 0 => s
      | w => trimLeft n' (sdrop w s)
      end
  end.

Fixpoint trimRight (n : nat) (s : string) : string :=
  match n with
  | 0 => s
  | S n' =>
      match spaceWidthLast s with
      | 0 => s
      | w => trimRight n' (stake (String.length s - w) s)
      end
  end.

(** [strings.TrimSpace]. *)
Definition TrimSpace (s : string) : string :=
  let t := trimLeft (String.length s) s in
  trimRight (String.length t) t.

End GoStrings.

Global Instance error_eq_dec : EqDecision error.
Proof. solve_decision. Defined.

(** ** Package [path/filepath] and the part of the file system it walks *)
Module Filepath.

(** What [os.IsPathSeparator] accepts on the platforms the agent runs on. *)
Definition IsPathSeparator (c : ascii) : bool := bool_decide (c = "/"%char).

(** [filepath.Ext]: the loop runs [i] from [len(path) - 1] down to 0 and
    stops at a separator; [extLoop i] has still to look at the bytes below
    index [i]. *)
Fixpoint extLoop (i : nat) (path : string) : string :=
  match i with
  | 0 => ""
  | S j =>
      match String.get j path with
      | None => ""
      | Some c =>
          if IsPathSeparator c then ""
          else if decide (c = "."%char) then GoStrings.sdrop j path
          else extLoop j path
      end
  end.

Definition Ext (path : string) : string := extLoop (String.length path) path.

(** A node of the checked-out tree.  [File] is every entry that is not a
    directory (regular file, symbolic link, device); a directory carries what
    [os.ReadDir] returns for it, entries in the order it returns them, or the
    error it fails with. *)
Local Unset Elimination Schemes.
Inductive Node : Type :=
  | File
  | Dir (entries : list (string * Node))
  | DirUnreadable (e : error).
Local Set Elimination Schemes.

Definition isDirNode (n : Node) : bool :=
  match n with
  | File => false
  | _ => true
  end.

(** [fs.DirEntry], as far as the program looks at it. *)
Record DirEntry : Type := { Name : string; IsDir : bool }.

Global Instance DirEntry_eq_dec : EqDecision DirEntry.
Proof. solve_decision. Defined.

(** [os.Lstat] of a path: an error, or the base name and the node there. *)
Inductive LstatResult : Type :=
  | LstatErr (e : error)
  | LstatOk (name : string) (n : Node).

(** A snapshot of the file system, and [filepath.Join], which cleans the
    joined path. *)
Class FileSystem : Type := {
  Lstat : string → LstatResult;
  Join : string → string → string
}.

(** [os.Stat] on the same snapshot fails for a missing path exactly when
    [os.Lstat] does (the tree holds no dangling link at a walked root). *)
Definition statNotExist `{FileSystem} (path : string) : bool :=
  match Lstat path with
  | LstatErr e => IsNotExist e
  | LstatOk _ _ => false
  end.

Section walk.
Context `{FileSystem} {S : Type}.

(** [fs.WalkDirFunc] closes over the variables it updates: [S] is their
    type.  The arguments are [path], [d] (nil for [None]) and [err]. *)
Definition WalkDirFunc : Type :=
  string → option DirEntry → option error → S → S * option error.

(** [filepath.walkDir].  The callback of this program never returns
    [SkipDir] or [SkipAll], so those two branches are left out. *)
Fixpoint walkDir (fn : WalkDirFunc) (path name : string) (n : Node) (st : S)
  : S * option error :=
  let d := {| Name := name; IsDir := isDirNode n |} in
  match fn path (Some d) None st with
  | (st1, Some e) => (st1, Some e)
  | (st1, None) =>
      match n with
      | File => (st1, None)
      | DirUnreadable e =>
          (* second call, to report the ReadDir error; no entry was read *)
          fn path (Some d) (Some e) st1
      | Dir entries =>
          (fix walkEntries (es : list (string * Node)) (st : S) : S * option error :=
             match es with
             | [] => (st, None)
             | (name1, child) :: es' =>
                 match walkDir fn (Join path name1) name1 child st with
                 | (st', Some e) => (st', Some e)
                 | (st', None) => walkEntries es' st'
                 end
             end) entries st1
      end
  end.

(** [filepath.WalkDir]. *)
Definition WalkDir (root : string) (fn : WalkDirFunc) (st : S) : S * option error :=
  match Lstat root with
  | LstatErr e => fn root None (Some e) st
  | LstatOk name n => walkDir fn root name n st
  end.
End walk.

End Filepath.

(** ** Package [interfaces] *)
Module Interfaces.

Record SyncTarget : Type := {
  ID : string;
  RepoURL : string;
  RepoBranch : string;
  KubeConfigContent : string;
  PollIntervalSeconds : Z;
  GitCredentials : string;
  ManifestPath : string
}.

Global Instance SyncTarget_eq_dec : EqDecision SyncTarget.
Proof. solve_decision. Defined.

End Interfaces.

(** ** Package [gitpoller] *)
Module Gitpoller.
Import Filepath.

(** The handle go-git returns for a cloned or opened repository. *)
Inductive Repository : Type := OpenRepository.

Record GitPoller : Type := {
  repoURL : string;
  repoBranch : string;
  localPath : string;
  manifestPathInRepo : string;
  lastCommitHash : string;
  repository : option Repository
}.

Definition setLastCommitHash (gp : GitPoller) (h : string) : GitPoller :=
  {| repoURL := repoURL gp; repoBranch := repoBranch gp; localPath := localPath gp;
     manifestPathInRepo := manifestPathInRepo gp; lastCommitHash := h;
     repository := repository gp |}.

(** [NewGitPoller]. *)
Definition NewGitPoller (repoURL repoBranch localPath manifestPathInRepo : string)
  : result GitPoller :=
  if bool_decide (repoURL = "") || bool_decide (repoBranch = "") || bool_decide (localPath = "")
  then Fail (ErrorNew "repoURL, repoBranch, and localPath must be provided")
  else if bool_decide (manifestPathInRepo = "")
  then Fail (ErrorNew "manifestPathInRepo must be provided")
  else Ok {| repoURL := repoURL; repoBranch := repoBranch; localPath := localPath;
             manifestPathInRepo := manifestPathInRepo; lastCommitHash := "";
             repository := None |}.

(** go-git's sentinel [git.NoErrAlreadyUpToDate]. *)
Definition NoErrAlreadyUpToDate : error := ErrorNew "already up-to-date".

(** What the go-git calls of one poll return: the remote and the object
    store are outside the program.  [checkoutBranch] stands for the outcome
    of the method of that name, which only calls go-git. *)
Record GitCalls : Type := {
  Fetch : option error;
  Worktree : option error;
  RemoteReference : result string;
  Reset : option error;
  checkoutBranch : option error;
  Head : result string
}.

(** [FetchLatest]. *)
Definition FetchLatest (gp : GitPoller) (git : GitCalls) : option error :=
  match repository gp with
  | None => Some (ErrorNew "repository not initialized, call InitializeRepo first")
  | Some _ =>
      let afterFetch :=
        match Worktree git with
        | Some err => Some (Errorf "failed to get worktree" err)
        | None =>
            match RemoteReference git with
            | Fail err =>
                Some (Errorf ("failed to get reference for remote branch refs/remotes/origin/"
                              +:+ repoBranch gp) err)
            | Ok targetHash =>
                match Reset git with
                | Some err => Some (Errorf ("failed to reset worktree to " +:+ targetHash) err)
                | None => checkoutBranch git
                end
            end
        end in
      match Fetch git with
      | Some err =>
          if bool_decide (err ≠ NoErrAlreadyUpToDate)
          then Some (Errorf "failed to fetch from remote" err)
          else afterFetch
      | None => afterFetch
      end
  end.

(** [GetCurrentCommitHash]. *)
Definition GetCurrentCommitHash (gp : GitPoller) (git : GitCalls) : result string :=
  match repository gp with
  | None => Fail (ErrorNew "repository not initialized")
  | Some _ =>
      match Head git with
      | Fail err => Fail (Errorf "failed to get HEAD reference" err)
      | Ok hash => Ok hash
      end
  end.

Section files.
Context `{FileSystem}.

Definition notFound (gp : GitPoller) (manifestDir : string) : error :=
  ErrorNew ("manifest directory '" +:+ manifestPathInRepo gp
            +:+ "' not found in repository at path '" +:+ manifestDir +:+ "'").

(** The function literal that [GetManifestFiles] passes to
    [filepath.WalkDir]; it appends to the captured slice [files]. *)
Definition visit (gp : GitPoller) (manifestDir : string)
  : WalkDirFunc (S := list string) :=
  λ path d err files,
    match err with
    | Some err =>
        if IsNotExist err && bool_decide (path = manifestDir) && bool_decide (d = None)
        then (files, Some (notFound gp manifestDir))
        else (files, Some err)
    | None =>
        match d with
        | None => (files, None) (* WalkDir passes a nil entry only with an error *)
        | Some d =>
            if negb (IsDir d) then
              let ext := Ext (Name d) in
              if bool_decide (ext = ".yaml") || bool_decide (ext = ".yml")
              then (files ++ [path], None)
              else (files, None)
            else (files, None)
        end
    end.

(** [GetManifestFiles]. *)
Definition GetManifestFiles (gp : GitPoller) : result (list string) :=
  match repository gp with
  | None => Fail (ErrorNew "repository not initialized")
  | Some _ =>
      let manifestDir := Join (localPath gp) (manifestPathInRepo gp) in
      match WalkDir manifestDir (visit gp manifestDir) [] with
      | (_, Some err) =>
          if statNotExist manifestDir
          then Fail (notFound gp manifestDir)
          else Fail (Errorf ("error walking manifest directory " +:+ manifestDir) err)
      | (files, None) => Ok files
      end
  end.

(** What [Poll] returns: [changed], [commitHash], [manifestFiles], [err]. *)
Record PollResult : Type := {
  changed : bool;
  commitHash : string;
  manifestFiles : list string;
  err : option error
}.

(** [Poll]: the receiver after the call and the four results. *)
Definition Poll (gp : GitPoller) (git : GitCalls) : GitPoller * PollResult :=
  match repository gp with
  | None =>
      (gp, {| changed := false; commitHash := ""; manifestFiles := [];
              err := Some (ErrorNew "repository not initialized, call InitializeRepo first") |})
  | Some _ =>
      match FetchLatest gp git with
      | Some fetchErr =>
          (gp, {| changed := false; commitHash := ""; manifestFiles := [];
                  err := Some (Errorf "failed during fetch" fetchErr) |})
      | None =>
          match GetCurrentCommitHash gp git with
          | Fail hashErr =>
              (gp, {| changed := false; commitHash := ""; manifestFiles := [];
                      err := Some (Errorf "failed to get current commit hash" hashErr) |})
          | Ok newCommitHash =>
              if bool_decide (lastCommitHash gp = "") then
                (* first poll after initialization *)
                let gp := setLastCommitHash gp newCommitHash in
                match GetManifestFiles gp with
                | Fail listErr =>
                    (gp, {| changed := false; commitHash := newCommitHash; manifestFiles := [];
                            err := Some (Errorf "failed to list manifest files on initial poll" listErr) |})
                | Ok files =>
                    (gp, {| changed := true; commitHash := newCommitHash;
                            manifestFiles := files; err := None |})
                end
              else if bool_decide (newCommitHash ≠ lastCommitHash gp) then
                let gp := setLastCommitHash gp newCommitHash in
                match GetManifestFiles gp with
                | Fail listErr =>
                    (gp, {| changed := true; commitHash := newCommitHash; manifestFiles := [];
                            err := Some (Errorf "new commit detected, but failed to list manifest files" listErr) |})
                | Ok files =>
                    (gp, {| changed := true; commitHash := newCommitHash;
                            manifestFiles := files; err := None |})
                end
              else
                (gp, {| changed := false; commitHash := lastCommitHash gp;
                        manifestFiles := []; err := None |})
          end
      end
  end.
End files.

(** *** Opening the repository *)

Definition setRepository (gp : GitPoller) (r : Repository) : GitPoller :=
  {| repoURL := repoURL gp; repoBranch := repoBranch gp; localPath := localPath gp;
     manifestPathInRepo := manifestPathInRepo gp; lastCommitHash := lastCommitHash gp;
     repository := Some r |}.

(** go-git's sentinel [plumbing.ErrReferenceNotFound]. *)
Definition ErrReferenceNotFound : error := ErrorNew "reference not found".

(** What the go-git calls of one [checkoutBranch] return: the work tree,
    the lookup of the local branch, the lookup of [origin/<branch>], and the
    two checkouts (creating the branch, or forcing the existing one). *)
Record CheckoutCalls : Type := {
  CheckoutWorktree : option error;
  LocalReference : option error;
  RemoteBranchReference : result string;
  CheckoutCreate : option error;
  CheckoutForce : option error
}.

(** The method [checkoutBranch]. *)
Definition checkoutBranch' (gp : GitPoller) (git : CheckoutCalls) : option error :=
  match repository gp with
  | None => Some (ErrorNew "repository not initialized")
  | Some _ =>
      match CheckoutWorktree git with
      | Some err => Some (Errorf "failed to get worktree" err)
      | None =>
          match LocalReference git with
          | Some err =>
              if bool_decide (err = ErrReferenceNotFound) then
                match RemoteBranchReference git with
                | Fail err =>
                    Some (Errorf ("remote branch refs/remotes/origin/" +:+ repoBranch gp
                                  +:+ " not found") err)
                | Ok _ =>
                    match CheckoutCreate git with
                    | Some err =>
                        Some (Errorf ("failed to checkout new branch " +:+ repoBranch gp
                                      +:+ " from remote") err)
                    | None => None
                    end
                end
              else Some (Errorf ("failed to get reference for branch " +:+ repoBranch gp) err)
          | None =>
              match CheckoutForce git with
              | Some err => Some (Errorf ("failed to checkout branch " +:+ repoBranch gp) err)
              | None => None
              end
          end
      end
  end.

(** What [InitializeRepo] meets: the error of [os.Stat] on [localPath/.git]
    (nil for [None]), what cloning and opening return, and the calls of the
    checkout that follows. *)
Record InitCalls : Type := {
  StatGit : option error;
  PlainClone : result Repository;
  PlainOpen : result Repository;
  Checkout : CheckoutCalls
}.

(** [InitializeRepo]: the receiver after the call and the error. *)
Definition InitializeRepo (gp : GitPoller) (calls : InitCalls) : GitPoller * option error :=
  match StatGit calls with
  | Some err =>
      if IsNotExist err then
        match PlainClone calls with
        | Fail err => (gp, Some (Errorf "failed to clone repository" err))
        | Ok r =>
            let gp := setRepository gp r in
            (gp, checkoutBranch' gp (Checkout calls))
        end
      else (gp, Some (Errorf ("error checking repository path " +:+ localPath gp) err))
  | None =>
      match PlainOpen calls with
      | Fail err => (gp, Some (Errorf "failed to open existing repository" err))
      | Ok r =>
          let gp := setRepository gp r in
          (gp, checkoutBranch' gp (Checkout calls))
      end
  end.

End Gitpoller.

(** ** Package [kubehandler] *)
Module Kubehandler.

(** [schema.GroupVersionKind] and its two printers. *)
Record GroupVersionKind : Type := { Group : string; Version : string; Kind : string }.

Definition GroupVersionString (gvk : GroupVersionKind) : string :=
  if bool_decide (Group gvk = "") then Version gvk
  else Group gvk +:+ "/" +:+ Version gvk.

Definition GVKString (gvk : GroupVersionKind) : string :=
  Group gvk +:+ "/" +:+ Version gvk +:+ ", Kind=" +:+ Kind gvk.

(** [metav1.APIResource]: the plural name, the kind and the scope. *)
Record APIResource : Type := {
  ResourceName : string;
  ResourceKind : string;
  Namespaced : bool
}.

(** One server-side apply request: [dr.Patch(ctx, name, pt, data, opts)] on
    the resource interface [dr], which is namespaced or not. *)
Record PatchCall : Type := {
  Resource : string * string * string;
  Namespace : option string;
  PatchName : string;
  PatchType : string;
  Data : string;
  FieldManager : string;
  Force : bool
}.

Definition ApplyPatchType : string := "application/apply-patch+yaml".

(** [sigs.k8s.io/yaml] and [unstructured.Unstructured]. *)
Class Manifests : Type := {
  Unstructured : Type;
  YAMLToJSON : string → result string;
  UnmarshalJSON : string → result Unstructured;
  GetKind : Unstructured → string;
  GetAPIVersion : Unstructured → string;
  GetName : Unstructured → string;
  GetNamespace : Unstructured → string;
  ObjectGroupVersionKind : Unstructured → GroupVersionKind
}.

(** The API server behind the discovery and the dynamic client, and the
    file the manifests are read from. *)
Class ClusterAPI : Type := {
  Cluster : Type;
  ServerResourcesForGroupVersion : Cluster → string → result (list APIResource);
  Patch : Cluster → PatchCall → Cluster * option error;
  ReadFile : string → result string
}.

Section apply.
Context `{Manifests} `{ClusterAPI}.

(** [findAPIResource]. *)
Definition findAPIResource (c : Cluster) (gvk : GroupVersionKind) : result APIResource :=
  match ServerResourcesForGroupVersion c (GroupVersionString gvk) with
  | Fail err =>
      Fail (Errorf ("failed to discover server resources for GVG " +:+ GroupVersionString gvk) err)
  | Ok apiResources =>
      match List.find (λ resource, bool_decide (ResourceKind resource = Kind gvk)) apiResources with
      | Some resource => Ok resource
      | None =>
          Fail (ErrorNew ("resource kind '" +:+ Kind gvk +:+ "' not found in group version '"
                          +:+ GroupVersionString gvk +:+ "'"))
      end
  end.

(** The variables the loop of [ApplyManifestFile] updates: the cluster
    behind the clients, the slice [applyErrors], and the requests sent. *)
Record ApplyState : Type := {
  cluster : Cluster;
  applyErrors : list string;
  patches : list PatchCall
}.

Definition recordError (st : ApplyState) (msg : string) : ApplyState :=
  {| cluster := cluster st; applyErrors := applyErrors st ++ [msg]; patches := patches st |}.

Definition docNo (i : nat) : string := "doc #" +:+ pretty (i + 1).

(** Steps 4 and 5 of the loop body: the resource interface [dr] and the
    arguments of [dr.Patch]. *)
Definition patchRequest (obj : Unstructured) (jsonData : string) (apiResource : APIResource)
  : PatchCall :=
  let gvk := ObjectGroupVersionKind obj in
  let gvr := (Group gvk, Version gvk, ResourceName apiResource) in
  let dr :=
    if Namespaced apiResource then
      let namespace := GetNamespace obj in
      let namespace := if bool_decide (namespace = "") then "default" else namespace in
      Some namespace
    else None in
  {| Resource := gvr; Namespace := dr; PatchName := GetName obj;
     PatchType := ApplyPatchType; Data := jsonData;
     FieldManager := "go-argo-lite"; Force := true |}.

(** The loop body from the conversion on, for a trimmed document that is
    not empty; [i] is the index in [yamlDocs]. *)
Definition applyDocument (i : nat) (doc : string) (st : ApplyState) : ApplyState :=
  match YAMLToJSON doc with
  | Fail err =>
      recordError st (docNo i +:+ ": YAML to JSON conversion failed: " +:+ Error err)
  | Ok jsonData =>
      match UnmarshalJSON jsonData with
      | Fail err =>
          recordError st (docNo i +:+ ": JSON unmarshalling failed: " +:+ Error err)
      | Ok obj =>
          if bool_decide (GetKind obj = "") || bool_decide (GetAPIVersion obj = "") then
            recordError st (docNo i +:+ " (" +:+ GetName obj +:+ "): missing kind or apiVersion")
          else
            let gvk := ObjectGroupVersionKind obj in
            match findAPIResource (cluster st) gvk with
            | Fail err =>
                recordError st (docNo i +:+ " GVK " +:+ GVKString gvk
                                +:+ ": API discovery failed: " +:+ Error err)
            | Ok apiResource =>
                let call := patchRequest obj jsonData apiResource in
                let '(cluster', err) := Patch (cluster st) call in
                let st' := {| cluster := cluster'; applyErrors := applyErrors st;
                              patches := patches st ++ [call] |} in
                match err with
                | Some err =>
                    recordError st' (docNo i +:+ " (" +:+ GetKind obj +:+ " " +:+ GetName obj
                                     +:+ "): apply failed: " +:+ Error err)
                | None => st'
                end
            end
      end
  end.

(** One iteration of [for i, doc := range yamlDocs]. *)
Definition applyIteration (i : nat) (doc : string) (st : ApplyState) : ApplyState :=
  let doc := GoStrings.TrimSpace doc in
  if bool_decide (doc = "") then st (* continue *)
  else applyDocument i doc st.

Fixpoint applyLoop (i : nat) (yamlDocs : list string) (st : ApplyState) : ApplyState :=
  match yamlDocs with
  | [] => st
  | doc :: rest => applyLoop (S i) rest (applyIteration i doc st)
  end.

Definition aggregate (applyErrors : list string) : error :=
  ErrorNew ("encountered errors during manifest application:" +:+ LF +:+ " - "
            +:+ GoStrings.Join applyErrors (LF +:+ " - ")).

(** [ApplyManifestFile]: the state after the call (cluster and requests
    sent) and the returned error. *)
Definition ApplyManifestFile (filePath : string) (c : Cluster) : ApplyState * option error :=
  let st0 := {| cluster := c; applyErrors := []; patches := [] |} in
  match ReadFile filePath with
  | Fail err => (st0, Some (Errorf ("failed to read manifest file " +:+ filePath) err))
  | Ok content =>
      let yamlDocs := GoStrings.Split content "---" in
      let st := applyLoop 0 yamlDocs st0 in
      if bool_decide (0 < length (applyErrors st))
      then (st, Some (aggregate (applyErrors st)))
      else (st, None)
  end.
End apply.

End Kubehandler.

(** ** Package [storage] *)
Module Storage.
Import Interfaces.

(** The catalog file as [os.ReadFile] and [os.WriteFile] find it. *)
Inductive FileState : Type :=
  | NoFile
  | Unreadable (e : error)
  | Contents (data : string).

(** How a call of [os.WriteFile] fails.  It opens the file with [O_TRUNC],
    writes the data and closes the file: it fails at the open, with the file
    as it was, or after it, with the file cut and holding the first [n]
    bytes of the data (all of them when only the close fails). *)
Inductive WriteFailure : Type :=
  | OpenFails (e : error)
  | WriteFails (n : nat) (e : error).

Record Disk : Type := {
  file : FileState;
  writeErr : option WriteFailure (* how writing the file fails, if it does *)
}.

Definition osReadFile (path : string) (d : Disk) : result string :=
  match file d with
  | NoFile => Fail (PathNotExist "open" path)
  | Unreadable e => Fail e
  | Contents data => Ok data
  end.

Definition osWriteFile (path data : string) (perm : N) (d : Disk) : Disk * option error :=
  match writeErr d with
  | Some (OpenFails e) => (d, Some e)
  | Some (WriteFails n e) =>
      ({| file := Contents (GoStrings.stake n data); writeErr := writeErr d |}, Some e)
  | None => ({| file := Contents data; writeErr := None |}, None)
  end.

(** [synctarget.Encrypt] and [synctarget.Decrypt], taken by their
    signatures, and [encoding/json] at the type [[]SyncTarget]. *)
Class Codec : Type := {
  Encrypt : string → string → result string;
  Decrypt : string → string → result string;
  MarshalIndent : list SyncTarget → result string;
  Unmarshal : string → result (list SyncTarget)
}.

Record EncryptedFileStorage : Type := {
  FilePath : string;
  EncryptionKey : string
}.

Section storage.
Context `{Codec}.

(** [LoadSyncTargets]: both results, the slice being nil with an error. *)
Definition LoadSyncTargets (s : EncryptedFileStorage) (d : Disk)
  : list SyncTarget * option error :=
  match osReadFile (FilePath s) d with
  | Fail err =>
      if IsNotExist err then ([], None)
      else ([], Some (Errorf ("failed to read storage file '" +:+ FilePath s +:+ "'") err))
  | Ok encryptedData =>
      if bool_decide (String.length encryptedData = 0) then ([], None)
      else
        match Decrypt encryptedData (EncryptionKey s) with
        | Fail err =>
            ([], Some (Errorf ("failed to decrypt data from '" +:+ FilePath s +:+ "'") err))
        | Ok decryptedData =>
            match Unmarshal decryptedData with
            | Fail err =>
                ([], Some (Errorf ("failed to unmarshal sync targets from JSON in '"
                                   +:+ FilePath s +:+ "'") err))
            | Ok targets => (targets, None)
            end
        end
  end.

(** The search of the upsert loop: the index of the first entry with the
    identifier, counting from [i]. *)
Fixpoint indexOfID (id : string) (targets : list SyncTarget) (i : nat) : option nat :=
  match targets with
  | [] => None
  | t :: rest => if bool_decide (ID t = id) then Some i else indexOfID id rest (S i)
  end.

(** The loop [for i, t := range targets] with its [break], and the append
    that follows when nothing was found. *)
Definition upsert (targets : list SyncTarget) (target : SyncTarget) : list SyncTarget :=
  match indexOfID (ID target) targets 0 with
  | Some i => <[i := target]> targets
  | None => targets ++ [target]
  end.

(** [SaveSyncTarget]. *)
Definition SaveSyncTarget (s : EncryptedFileStorage) (target : SyncTarget) (d : Disk)
  : Disk * option error :=
  let '(targets, err) := LoadSyncTargets s d in
  let proceed :=
    let targets := upsert targets target in
    match MarshalIndent targets with
    | Fail err => (d, Some (Errorf "failed to marshal sync targets to JSON" err))
    | Ok jsonData =>
        match Encrypt jsonData (EncryptionKey s) with
        | Fail err => (d, Some (Errorf "failed to encrypt sync targets data" err))
        | Ok encryptedData =>
            match osWriteFile (FilePath s) encryptedData 384 d with
            | (d', Some err) =>
                (d', Some (Errorf ("failed to write sync targets to file '"
                                   +:+ FilePath s +:+ "'") err))
            | (d', None) => (d', None)
            end
        end
    end in
  match err with
  | Some err =>
      if negb (IsNotExist err) && bool_decide (length targets = 0)
      then proceed (* logged: attempting to overwrite with new target *)
      else (d, Some (Errorf "failed to load existing sync targets before saving" err))
  | None => proceed
  end.
End storage.

(** *** Construction *)

Definition DefaultStorageFile : string := "synctargets.json.enc".
Definition EnvEncryptionKey : string := "GO_ARGO_LITE_ENCRYPTION_KEY".

(** The key compiled into the program, 32 bytes. *)
Definition hardcodedKey : string := "0123456789abcdef0123456789abcdef".

(** [NewEncryptedFileStorage]; [Getenv] is [os.Getenv], which answers the
    empty string for a variable that is not set. *)
Definition NewEncryptedFileStorage (Getenv : string → string) (filePath encryptionKey : string)
  : result EncryptedFileStorage :=
  let filePath := if bool_decide (filePath = "") then DefaultStorageFile else filePath in
  let key :=
    if bool_decide (0 < String.length encryptionKey) then encryptionKey
    else
      let envKey := Getenv EnvEncryptionKey in
      if bool_decide (envKey ≠ "") then envKey else hardcodedKey in
  if bool_decide (String.length key ≠ 16) && bool_decide (String.length key ≠ 24)
     && bool_decide (String.length key ≠ 32)
  then Fail (ErrorNew ("encryption key must be 16, 24, or 32 bytes long, got "
                       +:+ pretty (String.length key) +:+ " bytes"))
  else Ok {| FilePath := filePath; EncryptionKey := key |}.

End Storage.

(** ** Package [synctarget]: the provider that reads the same file *)
Module Synctarget.
Import Interfaces Storage.

(** The unexported [encrypt] and [decrypt] of the package, taken by their
    signatures. *)
Class Cipher : Type := {
  encrypt : string → string → result string;
  decrypt : string → string → result string
}.

Record FileSyncTargetProvider : Type := {
  ProviderFilePath : string;
  ProviderEncryptionKey : string
}.

(** [NewFileSyncTargetProvider]. *)
Definition NewFileSyncTargetProvider (Getenv : string → string) (filePath encryptionKey : string)
  : result FileSyncTargetProvider :=
  let filePath := if bool_decide (filePath = "") then DefaultStorageFile else filePath in
  let key :=
    if bool_decide (0 < String.length encryptionKey) then encryptionKey
    else
      let envKey := Getenv EnvEncryptionKey in
      if bool_decide (envKey ≠ "") then envKey else hardcodedKey in
  if bool_decide (String.length key ≠ 16) && bool_decide (String.length key ≠ 24)
     && bool_decide (String.length key ≠ 32)
  then Fail (ErrorNew ("encryption key must be 16, 24, or 32 bytes long, got "
                       +:+ pretty (String.length key) +:+ " bytes"))
  else Ok {| ProviderFilePath := filePath; ProviderEncryptionKey := key |}.

Section provider.
Context `{Codec} `{Cipher}.

(** [FileSyncTargetProvider.LoadSyncTargets]. *)
Definition LoadSyncTargets (p : FileSyncTargetProvider) (d : Disk)
  : list SyncTarget * option error :=
  match osReadFile (ProviderFilePath p) d with
  | Fail err =>
      if IsNotExist err then ([], None)
      else ([], Some (Errorf ("failed to read sync targets file '"
                              +:+ ProviderFilePath p +:+ "'") err))
  | Ok encryptedData =>
      if bool_decide (String.length encryptedData = 0) then ([], None)
      else
        match decrypt encryptedData (ProviderEncryptionKey p) with
        | Fail err =>
            ([], Some (Errorf ("failed to decrypt sync targets data from '"
                               +:+ ProviderFilePath p +:+ "'") err))
        | Ok decryptedData =>
            match Unmarshal decryptedData with
            | Fail err =>
                ([], Some (Errorf ("failed to unmarshal sync targets from JSON in '"
                                   +:+ ProviderFilePath p +:+ "'") err))
            | Ok targets => (targets, None)
            end
        end
  end.

(** [FileSyncTargetProvider.SaveSyncTargets]. *)
Definition SaveSyncTargets (p : FileSyncTargetProvider) (targets : list SyncTarget) (d : Disk)
  : Disk * option error :=
  match MarshalIndent targets with
  | Fail err => (d, Some (Errorf "failed to marshal sync targets to JSON" err))
  | Ok jsonData =>
      match encrypt jsonData (ProviderEncryptionKey p) with
      | Fail err => (d, Some (Errorf "failed to encrypt sync targets data" err))
      | Ok encryptedData =>
          match osWriteFile (ProviderFilePath p) encryptedData 384 d with
          | (d', Some err) =>
              (d', Some (Errorf ("failed to write sync targets file '"
                                 +:+ ProviderFilePath p +:+ "'") err))
          | (d', None) => (d', None)
          end
      end
  end.
End provider.

End Synctarget.

(** ** Package [worker] *)
Module Worker.
Import Interfaces Filepath Gitpoller.

(** The interface [interfaces.KubeHandler]; [Kube] is the state behind it. *)
Class KubeHandler : Type := {
  Kube : Type;
  ApplyManifestFile : string → Kube → Kube * option error
}.

(** The registry: [managedTargets], and the goroutines [AddSyncTarget]
    started, by target identifier. *)
Record Worker : Type := {
  managedTargets : gmap string SyncTarget;
  started : list string
}.

(** [AddSyncTarget]. *)
Definition AddSyncTarget (w : Worker) (target : SyncTarget) : Worker * option error :=
  match managedTargets w !! ID target with
  | Some _ => (w, Some (ErrorNew ("target ID '" +:+ ID target +:+ "' already managed")))
  | None =>
      ({| managedTargets := <[ID target := target]> (managedTargets w);
          started := started w ++ [ID target] |}, None)
  end.

Section manage.
Context `{KubeHandler}.

(** What the goroutine of one target holds: its poller, its cluster
    client, and the manifests it handed to [ApplyManifestFile] so far. *)
Record Managed : Type := {
  poller : GitPoller;
  kubeClient : Kube;
  applied : list string
}.

(** [for _, mf := range manifestFiles]: every file is applied, whatever
    the earlier ones returned; [log] lists the files handed over. *)
Fixpoint applyAll (manifestFiles : list string) (k : Kube) (log : list string)
  : Kube * list string :=
  match manifestFiles with
  | [] => (k, log)
  | mf :: rest => applyAll rest (ApplyManifestFile mf k).1 (log ++ [mf])
  end.

(** What the loop meets: a tick, with what git and the work tree answer
    during it, or the stop signal. *)
Inductive Event : Type :=
  | Tick (git : GitCalls) (fs : FileSystem)
  | Stop.

(** The initial poll of [manageSyncTarget]: its error is logged, and
    [changed] is looked at all the same. *)
Definition initialPoll (m : Managed) (git : GitCalls) (fs : FileSystem) : Managed :=
  let '(gp, r) := Poll (H := fs) (poller m) git in
  if changed r then
    let '(k, log) := applyAll (manifestFiles r) (kubeClient m) (applied m) in
    {| poller := gp; kubeClient := k; applied := log |}
  else {| poller := gp; kubeClient := kubeClient m; applied := applied m |}.

(** The case [<-ticker.C] of the loop. *)
Definition tick (m : Managed) (git : GitCalls) (fs : FileSystem) : Managed :=
  let '(gp, r) := Poll (H := fs) (poller m) git in
  match err r with
  | Some _ => {| poller := gp; kubeClient := kubeClient m; applied := applied m |} (* continue *)
  | None =>
      if changed r then
        let '(k, log) := applyAll (manifestFiles r) (kubeClient m) (applied m) in
        {| poller := gp; kubeClient := k; applied := log |}
      else {| poller := gp; kubeClient := kubeClient m; applied := applied m |}
  end.

(** The [for { select { ... } }] loop: ticks until the stop signal, after
    which the goroutine returns. *)
Fixpoint loop (events : list Event) (m : Managed) : Managed :=
  match events with
  | [] => m
  | Stop :: _ => m
  | Tick git fs :: rest => loop rest (tick m git fs)
  end.
End manage.

(** [kubehandler.KubeHandler] implements the interface; the state behind it
    is the cluster. *)
Definition kubeHandler `{Kubehandler.Manifests} `{Kubehandler.ClusterAPI} : KubeHandler :=
  {| Kube := Kubehandler.Cluster;
     ApplyManifestFile := λ filePath c,
       let '(st, err) := Kubehandler.ApplyManifestFile filePath c in
       (Kubehandler.cluster st, err) |}.

(** The polls of a run, one result per tick up to the stop signal. *)
Fixpoint pollResults (events : list Event) (gp : GitPoller) : list PollResult :=
  match events with
  | [] => []
  | Stop :: _ => []
  | Tick git fs :: rest =>
      let '(gp', r) := Poll (H := fs) gp git in
      r :: pollResults rest gp'
  end.

(** [NewWorker]: the registry is empty.  The base directory it tries to
    make belongs to the file system of the goroutines. *)
Definition NewWorker : Worker := {| managedTargets := ∅; started := [] |}.

(** *** The life of one goroutine *)

Definition baseRepoPath : string := "/tmp/go-argo-lite-repos".

(** [time.Duration] counts nanoseconds in a signed 64-bit integer: a product
    that does not fit wraps around. *)
Definition wrap64 (z : Z) : Z := ((z + 2 ^ 63) `mod` 2 ^ 64 - 2 ^ 63)%Z.

Definition Second : Z := 1000000000.

(** The period given to [time.NewTicker], in nanoseconds. *)
Definition pollInterval (target : SyncTarget) : Z :=
  let pollInterval := wrap64 (PollIntervalSeconds target * Second) in
  if bool_decide (pollInterval ≤ 0)%Z then (60 * Second)%Z else pollInterval.

(** [delete(w.managedTargets, target.ID)] under the lock. *)
Definition deregister (w : Worker) (id : string) : Worker :=
  {| managedTargets := delete id (managedTargets w); started := started w |}.

Section lifecycle.
Context `{KubeHandler}.

(** What [manageSyncTarget] meets before its loop: the result of
    [kubehandler.NewKubeHandler], the calls of [InitializeRepo], and git and
    the work tree during the initial poll. *)
Record Setup : Type := {
  NewKubeHandler : result Kube;
  InitializeCalls : InitCalls;
  InitialGit : GitCalls;
  InitialTree : FileSystem
}.

(** How far the goroutine got: it returned before its loop, it returned on
    the stop signal, or the events at hand ran out with the loop waiting. *)
Inductive Exit : Type :=
  | NotStarted (err : error)
  | Stopped (m : Managed)
  | Waiting (m : Managed).

(** The loop again, telling a return on the stop signal from events that
    ran out. *)
Fixpoint serve (events : list Event) (m : Managed) : Exit :=
  match events with
  | [] => Waiting m
  | Stop :: _ => Stopped m
  | Tick git fs :: rest => serve rest (tick m git fs)
  end.

(** [manageSyncTarget], run against the registry [w]: the registry after it,
    how it ended, and the directories handed to [os.RemoveAll]. *)
Definition manageSyncTarget (w : Worker) (target : SyncTarget) (env : Setup)
    (events : list Event) : Worker * Exit * list string :=
  let repoPath := Join (FileSystem := InitialTree env) baseRepoPath (ID target) in
  match NewKubeHandler env with
  | Fail err => (deregister w (ID target), NotStarted err, [])
  | Ok kubeClient =>
      match NewGitPoller (RepoURL target) (RepoBranch target) repoPath (ManifestPath target) with
      | Fail err => (deregister w (ID target), NotStarted err, [])
      | Ok poller =>
          match InitializeRepo poller (InitializeCalls env) with
          | (_, Some err) => (deregister w (ID target), NotStarted err, [])
          | (poller, None) =>
              let m := initialPoll {| poller := poller; kubeClient := kubeClient; applied := [] |}
                         (InitialGit env) (InitialTree env) in
              match serve events m with
              | Stopped m => (w, Stopped m, [repoPath])
              | ended => (w, ended, [])
              end
          end
      end
  end.
End lifecycle.

End Worker.

(** ** Package [server] *)
Module Server.
Import Interfaces.

(** The interface [interfaces.DataStorage]; [Store] is the state behind it. *)
Class DataStorage : Type := {
  Store : Type;
  SaveSyncTarget : SyncTarget → Store → Store * option error;
  LoadSyncTargets : Store → list SyncTarget * option error
}.

Record Request : Type := { Method : string; RequestBody : string }.

(** A response body: the text [http.Error] prints, or the object the JSON
    encoder is given. *)
Inductive Body : Type :=
  | Text (s : string)
  | JSONObject (fields : list (string * string)).

Record Response : Type := {
  StatusCode : nat;
  ContentType : string;
  ResponseBody : Body
}.

Definition StatusCreated : nat := 201.
Definition StatusBadRequest : nat := 400.
Definition StatusMethodNotAllowed : nat := 405.
Definition StatusInternalServerError : nat := 500.

(** [http.Error]: a plain-text reply, the message followed by a line feed. *)
Definition httpError (msg : string) (code : nat) : Response :=
  {| StatusCode := code; ContentType := "text/plain; charset=utf-8";
     ResponseBody := Text (msg +:+ LF) |}.

Section handler.
Context `{DataStorage}.

(** [json.NewDecoder(r.Body).Decode(&target)]. *)
Variable Decode : string → result SyncTarget.

(** What the handler works on: the storage, the worker, and the targets
    it handed to [SaveSyncTarget] so far. *)
Record ServerState : Type := {
  dataStorage : Store;
  worker : Worker.Worker;
  saveCalls : list SyncTarget
}.

Definition withPollInterval (t : SyncTarget) (n : Z) : SyncTarget :=
  {| ID := ID t; RepoURL := RepoURL t; RepoBranch := RepoBranch t;
     KubeConfigContent := KubeConfigContent t; PollIntervalSeconds := n;
     GitCredentials := GitCredentials t; ManifestPath := ManifestPath t |}.

Definition withID (t : SyncTarget) (id : string) : SyncTarget :=
  {| ID := id; RepoURL := RepoURL t; RepoBranch := RepoBranch t;
     KubeConfigContent := KubeConfigContent t; PollIntervalSeconds := PollIntervalSeconds t;
     GitCredentials := GitCredentials t; ManifestPath := ManifestPath t |}.

(** [handleCreateSyncTarget]; [newID] is what [uuid.NewString] returns. *)
Definition handleCreateSyncTarget (newID : string) (r : Request) (s : ServerState)
  : ServerState * Response :=
  if bool_decide (Method r ≠ "POST") then
    (s, httpError "Method not allowed" StatusMethodNotAllowed)
  else
    match Decode (RequestBody r) with
    | Fail err => (s, httpError ("Invalid request body: " +:+ Error err) StatusBadRequest)
    | Ok target =>
        if bool_decide (RepoURL target = "") then
          (s, httpError "RepoURL is required" StatusBadRequest)
        else if bool_decide (RepoBranch target = "") then
          (s, httpError "RepoBranch is required" StatusBadRequest)
        else if bool_decide (KubeConfigContent target = "") then
          (s, httpError "KubeConfigContent is required" StatusBadRequest)
        else if bool_decide (ManifestPath target = "") then
          (s, httpError "ManifestPath is required" StatusBadRequest)
        else
          let target :=
            if bool_decide (PollIntervalSeconds target ≤ 0)%Z
            then withPollInterval target 60 else target in
          let target := withID target newID in
          let '(store, err) := SaveSyncTarget target (dataStorage s) in
          let s := {| dataStorage := store; worker := worker s;
                      saveCalls := saveCalls s ++ [target] |} in
          match err with
          | Some err =>
              (s, httpError ("Failed to save sync target: " +:+ Error err)
                    StatusInternalServerError)
          | None =>
              let '(w, err) := Worker.AddSyncTarget (worker s) target in
              let s := {| dataStorage := dataStorage s; worker := w;
                          saveCalls := saveCalls s |} in
              match err with
              | Some err =>
                  (s, httpError ("Sync target saved, but failed to start processing: "
                                 +:+ Error err) StatusInternalServerError)
              | None =>
                  (s, {| StatusCode := StatusCreated; ContentType := "application/json";
                         ResponseBody :=
                           JSONObject [("id", ID target);
                                       ("message", "SyncTarget created successfully")] |})
              end
          end
    end.
End handler.

(** [storage.EncryptedFileStorage] implements [DataStorage]. *)
Definition encryptedFileStorage `{Storage.Codec} (s : Storage.EncryptedFileStorage)
  : DataStorage :=
  {| Store := Storage.Disk;
     SaveSyncTarget := Storage.SaveSyncTarget s;
     LoadSyncTargets := Storage.LoadSyncTargets s |}.

End Server.

(** ** Package [main], and the worker's [Start], which needs the storage *)
Module Main.
Import Interfaces Storage Server.

(** The goroutines whose setup fails delete their identifier from the
    registry, each under the lock. *)
Definition deregisterAll (w : Worker.Worker) (ids : list string) : Worker.Worker :=
  foldl Worker.deregister w ids.

(** The loop of [Worker.Start] over the loaded targets: an error of
    [AddSyncTarget] is logged and the loop goes on.  The loop holds the lock
    during a call of [AddSyncTarget] only, and the goroutines started so far
    run beside it: [failed] gives, for each target of the list, the
    identifiers that goroutines delete after the call for that target and
    before the next.  [main] starts the server when [Start] has returned, so
    no other call of [AddSyncTarget] runs beside the loop. *)
Fixpoint addAll (targets : list SyncTarget) (failed : list (list string))
    (w : Worker.Worker) : Worker.Worker :=
  match targets with
  | [] => w
  | target :: rest =>
      let w := (Worker.AddSyncTarget w target).1 in
      let w := deregisterAll w (default [] (head failed)) in
      addAll rest (tail failed) w
  end.

(** [Worker.Start], beside the goroutines it starts. *)
Definition Start `{DataStorage} (store : Store) (failed : list (list string))
    (w : Worker.Worker) : Worker.Worker :=
  match LoadSyncTargets store with
  | (_, Some _) => w
  | (targets, None) => addAll targets failed w
  end.

(** The key [main] resolves before it builds the storage; [log.Fatalf] ends
    the process, which the error stands for. *)
Definition encryptionKeyBytes (Getenv : string → string) : result string :=
  let envKey := Getenv EnvEncryptionKey in
  let key := if bool_decide (envKey ≠ "") then envKey else hardcodedKey in
  if bool_decide (String.length key ≠ 16) && bool_decide (String.length key ≠ 24)
     && bool_decide (String.length key ≠ 32)
  then Fail (ErrorNew ("Encryption key must be 16, 24, or 32 bytes long, got "
                       +:+ pretty (String.length key) +:+ " bytes from "
                       +:+ EnvEncryptionKey +:+ " or hardcoded default."))
  else Ok key.

(** The storage [main] ends up with. *)
Definition dataStorageOf (Getenv : string → string) : result EncryptedFileStorage :=
  match encryptionKeyBytes Getenv with
  | Fail err => Fail err
  | Ok key =>
      match NewEncryptedFileStorage Getenv DefaultStorageFile key with
      | Fail err => Fail (ErrorNew ("Error initializing data storage: " +:+ Error err))
      | Ok dataStorage => Ok dataStorage
      end
  end.

End Main.

(** ** Package [config] *)
Module Config.

Record Config : Type := {
  RepoURL : string;
  RepoBranch : string;
  KubeconfigPath : string;
  PollIntervalSeconds : Z;
  ManifestPath : string
}.

Definition isDigit (c : ascii) : bool :=
  (48 <=? nat_of_ascii c) && (nat_of_ascii c <=? 57).

(** The value of a string of decimal digits, [None] when a byte is no digit. *)
Fixpoint digitsValue (acc : Z) (s : string) : option Z :=
  match s with
  | EmptyString => Some acc
  | String c rest =>
      if isDigit c then digitsValue (acc * 10 + (Z.of_nat (nat_of_ascii c) - 48)) rest
      else None
  end.

(** [strconv.Atoi] on a 64-bit platform: an optional sign, then digits and
    nothing else, and a value that fits [int]. *)
Definition Atoi (s : string) : result Z :=
  let '(neg, digits) :=
    match s with
    | String "-" rest => (true, rest)
    | String "+" rest => (false, rest)
    | _ => (false, s)
    end in
  match digits with
  | EmptyString => Fail (ErrorNew "invalid syntax")
  | _ =>
      match digitsValue 0 digits with
      | None => Fail (ErrorNew "invalid syntax")
      | Some n =>
          let v := if neg : bool then (- n)%Z else n in
          if bool_decide (- 2 ^ 63 ≤ v)%Z && bool_decide (v ≤ 2 ^ 63 - 1)%Z then Ok v
          else Fail (ErrorNew "value out of range")
      end
  end.

(** [LoadConfig]. *)
Definition LoadConfig (Getenv : string → string) : result Config :=
  let repoURL := Getenv "REPO_URL" in
  if bool_decide (repoURL = "") then
    Fail (ErrorNew "REPO_URL environment variable is required")
  else
    let repoBranch := Getenv "REPO_BRANCH" in
    if bool_decide (repoBranch = "") then
      Fail (ErrorNew "REPO_BRANCH environment variable is required")
    else
      let kubeconfigPath := Getenv "KUBECONFIG_PATH" in
      let pollIntervalStr := Getenv "POLL_INTERVAL_SECONDS" in
      let pollIntervalSeconds :=
        if bool_decide (pollIntervalStr ≠ "") then Atoi pollIntervalStr else Ok 60%Z in
      match pollIntervalSeconds with
      | Fail _ => Fail (ErrorNew "POLL_INTERVAL_SECONDS must be a valid integer")
      | Ok pollIntervalSeconds =>
          let manifestPath := Getenv "MANIFEST_PATH" in
          let manifestPath := if bool_decide (manifestPath = "") then "manifests" else manifestPath in
          Ok {| RepoURL := repoURL; RepoBranch := repoBranch; KubeconfigPath := kubeconfigPath;
                PollIntervalSeconds := pollIntervalSeconds; ManifestPath := manifestPath |}
      end.

End Config.

(** ** Package [app]: the agent of a single repository, configured from
    the environment *)
Module App.
Import Filepath Gitpoller.

Section app.
Context `{Worker.KubeHandler}.

Record App : Type := {
  cfg : Config.Config;
  poller : GitPoller;
  kubeHandler : Worker.Kube
}.

(** [NewApp]; the configuration is a pointer, nil for [None], and
    [NewKubeHandler] is the constructor of the cluster client at the path of
    the configuration. *)
Definition NewApp (cfg : option Config.Config)
    (NewKubeHandler : string → result Worker.Kube) : result App :=
  match cfg with
  | None => Fail (ErrorNew "config cannot be nil")
  | Some cfg =>
      let localRepoPath := "./.gitrepo" in
      match NewGitPoller (Config.RepoURL cfg) (Config.RepoBranch cfg) localRepoPath
              (Config.ManifestPath cfg) with
      | Fail err => Fail (Errorf "failed to create GitPoller" err)
      | Ok poller =>
          match NewKubeHandler (Config.KubeconfigPath cfg) with
          | Fail err => Fail (Errorf "failed to create KubeHandler" err)
          | Ok kubeHandler => Ok {| cfg := cfg; poller := poller; kubeHandler := kubeHandler |}
          end
      end
  end.

(** What the loop of [Run] meets: a tick, with what git and the work tree
    answer during it, or a signal of the operating system. *)
Inductive Event : Type :=
  | Tick (git : GitCalls) (fs : FileSystem)
  | Signal.

(** The second [for _, filePath := range manifestFiles] of [Run]: every file
    is applied, and the failures are collected in [applyErrors]; [log] lists
    the files handed over. *)
Fixpoint applyFiles (manifestFiles : list string) (k : Worker.Kube)
    (log applyErrors : list string) : Worker.Kube * list string * list string :=
  match manifestFiles with
  | [] => (k, log, applyErrors)
  | filePath :: rest =>
      match Worker.ApplyManifestFile filePath k with
      | (k', Some applyErr) =>
          applyFiles rest k' (log ++ [filePath])
            (applyErrors ++ [filePath +:+ ": " +:+ Error applyErr])
      | (k', None) => applyFiles rest k' (log ++ [filePath]) applyErrors
      end
  end.

(** The case [<-ticker.C]; [applied] lists the files handed to the applier
    so far. *)
Definition tick (a : App) (applied : list string) (git : GitCalls) (fs : FileSystem)
  : App * list string :=
  let '(gp, r) := Poll (H := fs) (poller a) git in
  let a := {| cfg := cfg a; poller := gp; kubeHandler := kubeHandler a |} in
  match err r with
  | Some _ => (a, applied) (* continue *)
  | None =>
      if changed r then
        if bool_decide (length (manifestFiles r) = 0) then (a, applied)
        else
          let '(k, log, _) := applyFiles (manifestFiles r) (kubeHandler a) applied [] in
          ({| cfg := cfg a; poller := gp; kubeHandler := k |}, log)
      else (a, applied)
  end.

(** How a call of [Run] stands: it returned an error, [time.NewTicker]
    panicked, it returned nil on a signal, or the events at hand ran out
    with the loop waiting. *)
Inductive Ended : Type :=
  | Failed (err : error)
  | Panicked (reason : string)
  | Returned (a : App) (applied : list string)
  | Polling (a : App) (applied : list string).

Fixpoint loop (events : list Event) (a : App) (applied : list string) : Ended :=
  match events with
  | [] => Polling a applied
  | Signal :: _ => Returned a applied
  | Tick git fs :: rest =>
      let '(a', applied') := tick a applied git fs in
      loop rest a' applied'
  end.

(** [Run].  [time.NewTicker] panics on a duration that is not positive. *)
Definition Run (a : App) (calls : InitCalls) (events : list Event) : Ended :=
  match InitializeRepo (poller a) calls with
  | (_, Some err) => Failed (Errorf "failed to initialize repository" err)
  | (gp, None) =>
      let a := {| cfg := cfg a; poller := gp; kubeHandler := kubeHandler a |} in
      let d := Worker.wrap64 (Config.PollIntervalSeconds (cfg a) * Worker.Second) in
      if bool_decide (d ≤ 0)%Z then Panicked "non-positive interval for NewTicker"
      else loop events a []
  end.
End app.

End App.

(** * Notions used in the statements *)

(** ** The documents of a manifest file *)
Module Documents.
Import GoStrings.

(** The trimmed partitions that are not empty, each with its index in
    [yamlDocs], counted from [i]. *)
Fixpoint candidateDocs (i : nat) (yamlDocs : list string) : list (nat * string) :=
  match yamlDocs with
  | [] => []
  | doc :: rest =>
      let doc := TrimSpace doc in
      if bool_decide (doc = "") then candidateDocs (S i) rest
      else (i, doc) :: candidateDocs (S i) rest
  end.

(** The partition the specification words: the lines of the content, cut
    at the lines equal to [---]. *)
Fixpoint partitionLines (cur : list string) (lines : list string) : list (list string) :=
  match lines with
  | [] => [rev cur]
  | line :: rest =>
      if bool_decide (line = "---") then rev cur :: partitionLines [] rest
      else partitionLines (line :: cur) rest
  end.

Definition lineDocuments (content : string) : list string :=
  (λ lines, Join lines LF) <$> partitionLines [] (Split content LF).

Definition lineCandidates (content : string) : list string :=
  filter (λ doc, doc ≠ "") (TrimSpace <$> lineDocuments content).

(** A document of comments, as the YAML scanner reads one.  A line is
    indented by spaces, the byte 32 and no other: a tab there is an error of
    the scanner, and any other white space starts a scalar.  After the
    indentation the line ends, or holds [#] and then bytes that neither end
    the line for the scanner nor are refused by its reader: printable ASCII
    and tabs. *)
Fixpoint dropSpaces (line : string) : string :=
  match line with
  | String " " rest => dropSpaces rest
  | _ => line
  end.

Definition commentByte (c : ascii) : bool :=
  bool_decide (nat_of_ascii c = 9)
  || ((32 <=? nat_of_ascii c) && (nat_of_ascii c <=? 126)).

Fixpoint commentText (s : string) : bool :=
  match s with
  | EmptyString => true
  | String c rest => commentByte c && commentText rest
  end.

Definition commentLine (line : string) : bool :=
  match dropSpaces line with
  | EmptyString => true
  | String c rest => bool_decide (c = "#"%char) && commentText rest
  end.

Definition commentOnly (doc : string) : bool :=
  forallb commentLine (Split doc LF).

(** What [UnmarshalJSON] answers to [null], as the tests of the package
    record it. *)
Definition missingKind : error := ErrorNew "Object 'Kind' is missing in 'null'".


End Documents.

(** ** The manifests of a work tree *)
Module Tree.
Import Filepath.

(** No directory of the tree fails to be read. *)
Fixpoint readable (n : Node) : bool :=
  match n with
  | File => true
  | Dir entries => forallb (λ entry, readable entry.2) entries
  | DirUnreadable _ => false
  end.

Definition isManifestName (name : string) : bool :=
  bool_decide (Ext name = ".yaml") || bool_decide (Ext name = ".yml").

Section tree.
Context `{FileSystem}.

(** [contains path name n p nm]: in the tree [n] found at [path] under the
    name [name], the entry at path [p] is not a directory and has the base
    name [nm]. *)
Inductive contains : string → string → Node → string → string → Prop :=
  | contains_here path name : contains path name File path name
  | contains_child path name entries name1 child p nm :
      (name1, child) ∈ entries →
      contains (Join path name1) name1 child p nm →
      contains path name (Dir entries) p nm.

(** The manifests of a tree in the order of the walk. *)
Fixpoint manifestsIn (path name : string) (n : Node) : list string :=
  match n with
  | File => if isManifestName name then [path] else []
  | Dir entries =>
      flat_map (λ entry, manifestsIn (Join path entry.1) entry.1 entry.2) entries
  | DirUnreadable _ => []
  end.

(** The loop over the entries of a directory, on its own. *)
Fixpoint walkEntries {S : Type} (fn : WalkDirFunc (S := S)) (path : string)
    (entries : list (string * Node)) (st : S) : S * option error :=
  match entries with
  | [] => (st, None)
  | (name1, child) :: rest =>
      match walkDir fn (Join path name1) name1 child st with
      | (st', Some e) => (st', Some e)
      | (st', None) => walkEntries fn path rest st'
      end
  end.
End tree.

End Tree.

Section applier_notions.
Import GoStrings Kubehandler Documents.
Context `{Manifests} `{ClusterAPI}.

Definition initialState (c : Cluster) : ApplyState :=
  {| cluster := c; applyErrors := []; patches := [] |}.

(** The loop body, on candidate documents. *)
Definition step (st : ApplyState) (p : nat * string) : ApplyState :=
  applyDocument p.1 p.2 st.


End applier_notions.

Section comment_notions.
Import Kubehandler Documents.

End comment_notions.

Section poll_notions.
Import Gitpoller Worker.

(** The hash a poll gets to see: that of HEAD after a fetch that went well. *)
Definition observed (gp : GitPoller) (git : GitCalls) : option string :=
  match FetchLatest gp git, Head git with
  | None, Ok h => Some h
  | _, _ => None
  end.

(** The remote stays at [h] during an event: whenever HEAD can be read, it
    is [h]. *)
Definition unchangedAt (h : string) (ev : Event) : Prop :=
  match ev with
  | Tick git _ => ∀ h', Head git = Ok h' → h' = h
  | Stop => True
  end.
End poll_notions.

Section catalog_notions.
Import Interfaces Storage.
Context `{Codec}.

Definition decryptError (s : EncryptedFileStorage) (cause : error) : error :=
  Errorf ("failed to decrypt data from '" +:+ FilePath s +:+ "'") cause.

Definition formatError (s : EncryptedFileStorage) (cause : error) : error :=
  Errorf ("failed to unmarshal sync targets from JSON in '" +:+ FilePath s +:+ "'") cause.

(** What [SaveSyncTarget] does once it goes on with a list [targets]. *)
Definition written (s : EncryptedFileStorage) (targets : list SyncTarget) (d : Disk)
  : Disk * option error :=
  match MarshalIndent targets with
  | Fail err => (d, Some (Errorf "failed to marshal sync targets to JSON" err))
  | Ok jsonData =>
      match Encrypt jsonData (EncryptionKey s) with
      | Fail err => (d, Some (Errorf "failed to encrypt sync targets data" err))
      | Ok encryptedData =>
          match writeErr d with
          | Some (OpenFails err) =>
              (d, Some (Errorf ("failed to write sync targets to file '"
                                +:+ FilePath s +:+ "'") err))
          | Some (WriteFails n err) =>
              ({| file := Contents (GoStrings.stake n encryptedData); writeErr := writeErr d |},
               Some (Errorf ("failed to write sync targets to file '"
                             +:+ FilePath s +:+ "'") err))
          | None => ({| file := Contents encryptedData; writeErr := None |}, None)
          end
      end
  end.
End catalog_notions.

Section create_notions.
Import Interfaces Server.

(** The four fields the handler requires. *)
Definition complete (target : SyncTarget) : Prop :=
  RepoURL target ≠ "" ∧ RepoBranch target ≠ "" ∧ KubeConfigContent target ≠ ""
  ∧ ManifestPath target ≠ "".

Definition normalized (target : SyncTarget) (newID : string) : SyncTarget :=
  withID (if bool_decide (PollIntervalSeconds target ≤ 0)%Z
          then withPollInterval target 60 else target) newID.

(** The reason the handler gives for the first required field that is
    empty, in the order it checks them. *)
Definition missingField (target : SyncTarget) : option string :=
  if bool_decide (RepoURL target = "") then Some "RepoURL is required"
  else if bool_decide (RepoBranch target = "") then Some "RepoBranch is required"
  else if bool_decide (KubeConfigContent target = "") then Some "KubeConfigContent is required"
  else if bool_decide (ManifestPath target = "") then Some "ManifestPath is required"
  else None.
End create_notions.

Section request_notions.
Import Kubehandler.
Context `{Manifests} `{ClusterAPI}.


(** The cluster after the requests [calls], sent in order. *)
Definition send (c : Cluster) (calls : list PatchCall) : Cluster :=
  foldl (λ c call, (Patch c call).1) c calls.

End request_notions.

Section fetch_notions.
Import Gitpoller.

(** The calls [git] with another outcome of the fetch. *)
Definition withFetch (git : GitCalls) (fetched : option error) : GitCalls :=
  {| Fetch := fetched; Worktree := Worktree git; RemoteReference := RemoteReference git;
     Reset := Reset git; checkoutBranch := checkoutBranch git; Head := Head git |}.

(** The fields of a poller that are set once and for all. *)
Definition sameConfig (gp gp' : GitPoller) : Prop :=
  repoURL gp' = repoURL gp ∧ repoBranch gp' = repoBranch gp ∧ localPath gp' = localPath gp
  ∧ manifestPathInRepo gp' = manifestPathInRepo gp.
End fetch_notions.

Section registry_notions.
Import Interfaces Worker.

(** Every registered target is filed under its own identifier and has one
    goroutine, and no goroutine was started for anything else. *)
Definition oneGoroutineEach (w : Worker) : Prop :=
  NoDup (started w)
  ∧ (∀ id, id ∈ started w ↔ is_Some (managedTargets w !! id))
  ∧ ∀ id t, managedTargets w !! id = Some t → ID t = id.

(** The first target of a list that carries the identifier. *)
Definition firstWithID (id : string) (targets : list SyncTarget) : option SyncTarget :=
  List.find (λ t, bool_decide (ID t = id)) targets.

(** No goroutine fails while the loop of [Start] runs. *)
Definition noFailure (failed : list (list string)) : Prop :=
  Forall (λ ids, ids = []) failed.

(** Every registered target is filed under its own identifier and had a
    goroutine started for it; the goroutine of an identifier that is no
    longer registered may have been started too. *)
Definition registeredWereStarted (w : Worker) : Prop :=
  (∀ id, is_Some (managedTargets w !! id) → id ∈ started w)
  ∧ ∀ id t, managedTargets w !! id = Some t → ID t = id.
End registry_notions.

Section provider_notions.
Import Interfaces Storage Synctarget.
Context `{Codec} `{Cipher}.

(** The codec and the cipher give back the list [targets] under [key]: what
    encoding and encrypting it produce has bytes, decrypts to the encoding,
    and decodes to the list. *)
Definition readsBack (key : string) (targets : list SyncTarget) : Prop :=
  ∀ jsonData encryptedData,
    MarshalIndent targets = Ok jsonData → encrypt jsonData key = Ok encryptedData →
    encryptedData ≠ "" ∧ decrypt encryptedData key = Ok jsonData
    ∧ Unmarshal jsonData = Ok targets.
End provider_notions.

Section agent_notions.
Import Gitpoller.
Context `{Worker.KubeHandler}.

(** The agent seen as the goroutine of the worker sees its target, and the
    events of the agent as events of the goroutine. *)
Definition managed (a : App.App) (applied : list string) : Worker.Managed :=
  {| Worker.poller := App.poller a; Worker.kubeClient := App.kubeHandler a;
     Worker.applied := applied |}.

Definition workerEvent (ev : App.Event) : Worker.Event :=
  match ev with
  | App.Tick git fs => Worker.Tick git fs
  | App.Signal => Worker.Stop
  end.
End agent_notions.

Section interval_notions.

(** The bounds of a signed 64-bit integer. *)
Definition minInt64 : Z := (- 2 ^ 63)%Z.
Definition maxInt64 : Z := (2 ^ 63 - 1)%Z.
End interval_notions.

(** * Test doubles and fixtures *)

(** ** Test doubles: a YAML library, a cluster and a file system small
    enough to run the applier on *)
Module Double.
Import Kubehandler.

Record Object : Type := {
  kind : string; apiVersion : string; name : string; namespace : string
}.

(** A document is a line of words, [kind apiVersion name]; a document of
    comments converts to [null], one starting with [!] does not parse, and
    the JSON form of any other document is the document itself. *)
Definition toJSON (doc : string) : result string :=
  if Documents.commentOnly doc then Ok "null"
  else if GoStrings.HasPrefix doc "!" then Fail (ErrorNew "yaml: did not find expected key")
  else Ok doc.

Definition fromJSON (jsonData : string) : result Object :=
  if bool_decide (jsonData = "null") then Fail Documents.missingKind
  else
    match String.words jsonData with
    | [k; v; n] => Ok {| kind := k; apiVersion := v; name := n; namespace := "" |}
    | [k; n] => Ok {| kind := k; apiVersion := ""; name := n; namespace := "" |}
    | _ => Fail (ErrorNew "json: cannot unmarshal")
    end.

Definition manifests : Manifests :=
  {| Unstructured := Object;
     YAMLToJSON := toJSON;
     UnmarshalJSON := fromJSON;
     GetKind := kind;
     GetAPIVersion := apiVersion;
     GetName := name;
     GetNamespace := namespace;
     ObjectGroupVersionKind :=
       λ o, {| Group := ""; Version := apiVersion o; Kind := kind o |} |}.

(** The cluster is the list of objects applied to it; it serves [v1] with
    config maps and namespaces, and refuses objects named [denied]. *)
Definition discover (gv : string) : result (list APIResource) :=
  if bool_decide (gv = "v1") then
    Ok [ {| ResourceName := "configmaps"; ResourceKind := "ConfigMap"; Namespaced := true |};
         {| ResourceName := "namespaces"; ResourceKind := "Namespace"; Namespaced := false |} ]
  else Fail (ErrorNew "the server could not find the requested resource").

Definition patch (c : list PatchCall) (call : PatchCall) : list PatchCall * option error :=
  if bool_decide (PatchName call = "denied") then (c, Some (ErrorNew "forbidden"))
  else (c ++ [call], None).

Definition clusterWith (files : list (string * string)) : ClusterAPI :=
  {| Cluster := list PatchCall;
     ServerResourcesForGroupVersion := λ _, discover;
     Patch := patch;
     ReadFile := λ path,
       match list_find (λ f, f.1 = path) files with
       | Some (_, f) => Ok f.2
       | None => Fail (PathNotExist "open" path)
       end |}.

End Double.

(** A codec small enough to run the catalog on: a record is written as
    [id=url], records are joined by commas, and encryption puts [enc:] in
    front; what does not start with [enc:] does not decrypt. *)
Module DoubleCodec.
Import Interfaces Storage.

Definition target (id url : string) : SyncTarget :=
  {| ID := id; RepoURL := url; RepoBranch := "main"; KubeConfigContent := "kubeconfig";
     PollIntervalSeconds := 60; GitCredentials := ""; ManifestPath := "k8s" |}.

Definition encode (t : SyncTarget) : string := ID t +:+ "=" +:+ RepoURL t.

Definition decode (record : string) : result SyncTarget :=
  match GoStrings.Split record "=" with
  | [id; url] => Ok (target id url)
  | _ => Fail (ErrorNew "json: cannot unmarshal")
  end.

Fixpoint decodeAll (records : list string) : result (list SyncTarget) :=
  match records with
  | [] => Ok []
  | record :: rest =>
      match decode record, decodeAll rest with
      | Ok t, Ok ts => Ok (t :: ts)
      | Fail e, _ => Fail e
      | _, Fail e => Fail e
      end
  end.

Definition codec : Codec :=
  {| Encrypt := λ data _, Ok ("enc:" +:+ data);
     Decrypt := λ data _,
       if GoStrings.HasPrefix data "enc:" then Ok (GoStrings.sdrop 4 data)
       else Fail (ErrorNew "cipher: message authentication failed");
     MarshalIndent := λ targets, Ok (GoStrings.Join (encode <$> targets) ",");
     Unmarshal := λ plain,
       if bool_decide (plain = "") then Ok [] else decodeAll (GoStrings.Split plain ",") |}.

Definition catalog : EncryptedFileStorage :=
  {| FilePath := "synctargets.json.enc"; EncryptionKey := "0123456789abcdef" |}.

Definition holding (data : string) : Disk :=
  {| file := Contents data; writeErr := None |}.

End DoubleCodec.

Section applier_fixtures.

(** A file of three partitions: an object, a comment, the empty rest. *)
Definition threeParts : string :=
  "ConfigMap v1 a" +:+ LF +:+ "---" +:+ LF +:+ "# note" +:+ LF +:+ "---" +:+ LF.

(** A file of four documents: an object, a comment, and two objects on one
    line, the second of which the cluster refuses. *)
Definition mixed : string :=
  "ConfigMap v1 a" +:+ LF +:+ "---" +:+ LF +:+ "# c" +:+ LF +:+ "---" +:+ LF
  +:+ "Namespace v1 b---ConfigMap v1 denied" +:+ LF +:+ "---" +:+ LF.
End applier_fixtures.

Section tree_fixtures.
Import Filepath Gitpoller.

(** A file system with one tree, found at [root] under the name [name]. *)
Definition treeAt (root name : string) (n : Node) : FileSystem :=
  {| Lstat := λ path,
       if bool_decide (path = root) then LstatOk name n
       else LstatErr (PathNotExist "lstat" path);
     Join := λ dir name, dir +:+ "/" +:+ name |}.

Definition pollerAt (localPath manifestPathInRepo : string) : GitPoller :=
  {| repoURL := "https://git.example/x.git"; repoBranch := "main";
     localPath := localPath; manifestPathInRepo := manifestPathInRepo;
     lastCommitHash := ""; repository := Some OpenRepository |}.

(** The tree of the package's test, with a file whose extension is in
    capitals added. *)
Definition appManifests : Node :=
  Dir [("README.md", File); ("UPPER.YAML", File); ("deployment.yaml", File);
       ("nested", Dir [("configmap.yaml", File)]); ("service.yml", File)].
End tree_fixtures.

Section poll_fixtures.
Import Filepath Gitpoller Worker.

(** The git calls of a poll that finds the remote at [h], and of one whose
    fetch fails. *)
Definition remoteAt (h : string) : GitCalls :=
  {| Fetch := None; Worktree := None; RemoteReference := Ok h; Reset := None;
     checkoutBranch := None; Head := Ok h |}.

Definition remoteDown : GitCalls :=
  {| Fetch := Some (ErrorNew "dial tcp: connection refused"); Worktree := None;
     RemoteReference := Fail (ErrorNew "reference not found"); Reset := None;
     checkoutBranch := None; Head := Fail (ErrorNew "reference not found") |}.

(** A work tree with one manifest under [k8s], and one without [k8s]. *)
Definition withManifest : FileSystem :=
  treeAt "/repo/k8s" "k8s" (Dir [("a.yaml", File)]).

Definition withoutDir : FileSystem :=
  treeAt "/repo/other" "other" (Dir []).

(** The same work tree while its directory cannot be read. *)
Definition permissionDenied : error := ErrorNew "open /repo/k8s: permission denied".

Definition unreadableDir : FileSystem :=
  treeAt "/repo/k8s" "k8s" (DirUnreadable permissionDenied).

Definition recorder : KubeHandler :=
  kubeHandler (H := Double.manifests)
    (H0 := Double.clusterWith [("/repo/k8s/a.yaml", "ConfigMap v1 a")]).

Definition fresh : Managed (H := recorder) :=
  @Build_Managed recorder (pollerAt "/repo" "k8s") (@nil Kubehandler.PatchCall) [].
End poll_fixtures.

Section create_fixtures.
Import Interfaces Server DoubleCodec.

(** A request body is read as [url|branch|credentials|path]. *)
Definition decodeBody (body : string) : result SyncTarget :=
  match GoStrings.Split body "|" with
  | [url; branch; credentials; path] =>
      Ok {| ID := ""; RepoURL := url; RepoBranch := branch; KubeConfigContent := credentials;
            PollIntervalSeconds := 30; GitCredentials := ""; ManifestPath := path |}
  | _ => Fail (ErrorNew "invalid character")
  end.

Definition fileStorage : DataStorage := encryptedFileStorage (H := codec) catalog.

Definition serving : ServerState (H := fileStorage) :=
  @Build_ServerState fileStorage (holding "enc:a=u1")
    {| Worker.managedTargets := ∅; Worker.started := [] |} [].

Definition withoutPath : Request :=
  {| Method := "POST"; RequestBody := "https://git.example/x.git|main|kubeconfig|" |}.
End create_fixtures.

Section lifecycle_fixtures.
Import Interfaces Filepath Gitpoller Worker.

(** A checkout that finds the branch and switches to it. *)
Definition branchCheckedOut : CheckoutCalls :=
  {| CheckoutWorktree := None; LocalReference := None; RemoteBranchReference := Ok "c0ffee";
     CheckoutCreate := None; CheckoutForce := None |}.

(** A first start: there is no clone yet and cloning succeeds; and one that
    cannot reach the remote. *)
Definition cloning : InitCalls :=
  {| StatGit := Some (PathNotExist "stat" "/tmp/go-argo-lite-repos/t1/.git");
     PlainClone := Ok OpenRepository;
     PlainOpen := Fail (ErrorNew "repository does not exist");
     Checkout := branchCheckedOut |}.

Definition unreachable : InitCalls :=
  {| StatGit := Some (PathNotExist "stat" "/tmp/go-argo-lite-repos/t1/.git");
     PlainClone := Fail (ErrorNew "authentication required");
     PlainOpen := Fail (ErrorNew "repository does not exist");
     Checkout := branchCheckedOut |}.

(** The clone of the target [t1], with one manifest under [k8s]. *)
Definition cloneTree : FileSystem :=
  treeAt "/tmp/go-argo-lite-repos/t1/k8s" "k8s" (Dir [("a.yaml", File)]).

Definition firstStart : Setup (H := recorder) :=
  @Build_Setup recorder (Ok (@nil Kubehandler.PatchCall)) cloning (remoteAt "c0ffee") cloneTree.

Definition failedStart : Setup (H := recorder) :=
  @Build_Setup recorder (Ok (@nil Kubehandler.PatchCall)) unreachable (remoteAt "c0ffee")
    cloneTree.
End lifecycle_fixtures.

Section provider_fixtures.
Import Interfaces Storage Synctarget.

(** The cipher of the provider, as small as the one of the codec. *)
Definition prefixCipher : Cipher :=
  {| encrypt := λ data _, Ok ("enc:" +:+ data);
     decrypt := λ data _,
       if GoStrings.HasPrefix data "enc:" then Ok (GoStrings.sdrop 4 data)
       else Fail (ErrorNew "cipher: message authentication failed") |}.

Definition provider : FileSyncTargetProvider :=
  {| ProviderFilePath := "synctargets.json.enc"; ProviderEncryptionKey := "0123456789abcdef" |}.

(** An environment with no variable set, and one that sets the key. *)
Definition noEnvironment : string → string := λ _, "".

Definition keyInEnvironment (key : string) : string → string :=
  λ name, if bool_decide (name = EnvEncryptionKey) then key else "".
End provider_fixtures.

Section agent_fixtures.
Import Filepath Gitpoller.

(** The environment of the tests of [config], with the interval given. *)
Definition testEnvironment (interval : string) : string → string :=
  λ name,
    if bool_decide (name = "REPO_URL") then "https://git.example.com/repo.git"
    else if bool_decide (name = "REPO_BRANCH") then "main"
    else if bool_decide (name = "POLL_INTERVAL_SECONDS") then interval
    else "".

(** The configuration that environment loads, with an interval of zero. *)
Definition zeroInterval : Config.Config :=
  {| Config.RepoURL := "https://git.example.com/repo.git"; Config.RepoBranch := "main";
     Config.KubeconfigPath := ""; Config.PollIntervalSeconds := 0;
     Config.ManifestPath := "manifests" |}.

(** The agent made from it, with a cluster client that records. *)
Definition agent : App.App (H := recorder) :=
  @App.Build_App recorder zeroInterval
    {| repoURL := "https://git.example.com/repo.git"; repoBranch := "main";
       localPath := "./.gitrepo"; manifestPathInRepo := "manifests";
       lastCommitHash := ""; repository := None |}
    (@nil Kubehandler.PatchCall).

(** The poller of the goroutine of [t1] as [NewGitPoller] makes it. *)
Definition clonePoller : GitPoller :=
  {| repoURL := "https://git.example/x.git"; repoBranch := "main";
     localPath := "/tmp/go-argo-lite-repos/t1"; manifestPathInRepo := "k8s";
     lastCommitHash := ""; repository := None |}.
End agent_fixtures.

(** * Properties *)

(** ** Byte strings *)
Section string_facts.
Import GoStrings.

Lemma append_nil_l (t : string) : "" +:+ t = t.
Proof. reflexivity. Qed.

Lemma append_cons (a : ascii) (s t : string) : String a s +:+ t = String a (s +:+ t).
Proof. reflexivity. Qed.

Lemma append_nil_r (s : string) : s +:+ "" = s.
Proof. induction s as [|a s IH]; [done|]. by rewrite append_cons, IH. Qed.

Lemma append_assoc (s t u : string) : (s +:+ t) +:+ u = s +:+ t +:+ u.
Proof. induction s as [|a s IH]; [done|]. by rewrite !append_cons, IH. Qed.

Lemma length_append (s t : string) :
  String.length (s +:+ t) = String.length s + String.length t.
Proof. induction s as [|a s IH]; [done|]. rewrite append_cons. simpl. by rewrite IH. Qed.

Lemma HasPrefix_spec (s p : string) : HasPrefix s p = true ↔ ∃ r, s = p +:+ r.
Proof.
  revert s. induction p as [|a p IH]; intros s.
  - split; [intros _; by exists s | intros _; by destruct s].
  - destruct s as [|b s]; simpl.
    + split; [done | intros [r Hr]; discriminate].
    + case_decide as Hab; [subst b|].
      * rewrite IH. split; intros [r Hr]; exists r.
        -- by rewrite append_cons, Hr.
        -- rewrite append_cons in Hr. by injection Hr.
      * split; [done | intros [r Hr]; rewrite append_cons in Hr; injection Hr; congruence].
Qed.

Lemma sdrop_append (p r : string) : sdrop (String.length p) (p +:+ r) = r.
Proof.
  induction p as [|a p IH]; [by destruct r|]. rewrite append_cons. simpl. done.
Qed.

Lemma stake_sdrop (n : nat) (s : string) : stake n s +:+ sdrop n s = s.
Proof.
  revert s. induction n as [|n IH]; intros [|a s]; simpl; try done.
  by rewrite append_cons, IH.
Qed.

Lemma length_sdrop (n : nat) (s : string) :
  String.length (sdrop n s) = String.length s - n.
Proof. revert s. induction n as [|n IH]; intros [|a s]; simpl; auto. Qed.

Lemma HasPrefix_stake (n : nat) (s p : string) :
  HasPrefix (stake n s) p = true → HasPrefix s p = true.
Proof.
  rewrite !HasPrefix_spec. intros [r Hr]. exists (r +:+ sdrop n s).
  by rewrite <- append_assoc, <- Hr, stake_sdrop.
Qed.

Lemma Index_unfold (s sep : string) :
  Index s sep =
    if HasPrefix s sep then Some 0
    else match s with
         | EmptyString => None
         | String _ s' => S <$> Index s' sep
         end.
Proof. by destruct s. Qed.

Lemma HasPrefix_nil (sep : string) : sep ≠ "" → HasPrefix "" sep = false.
Proof. by destruct sep. Qed.

(** [Index] returns the offset of an occurrence, and the first one: the
    bytes before it hold no occurrence. *)
Lemma Index_Some (s sep : string) (m : nat) :
  Index s sep = Some m →
  s = stake m s +:+ sep +:+ sdrop (m + String.length sep) s.
Proof.
  revert m. induction s as [|a s IH]; intros m; rewrite Index_unfold.
  - destruct (HasPrefix "" sep) eqn:Hp; [|done].
    intros [= <-]. apply HasPrefix_spec in Hp as [r Hr].
    change (stake 0 "") with "". rewrite append_nil_l. change (0 + ?n) with n.
    rewrite Hr at 2. by rewrite sdrop_append.
  - destruct (HasPrefix (String a s) sep) eqn:Hp.
    + intros [= <-]. apply HasPrefix_spec in Hp as [r Hr].
      change (stake 0 (String a s)) with "". rewrite append_nil_l.
      change (0 + ?n) with n. rewrite Hr at 2. by rewrite sdrop_append.
    + destruct (Index s sep) as [m'|] eqn:Hi; [|done].
      intros [= <-]. change (stake (S m') (String a s)) with (String a (stake m' s)).
      change (sdrop (S m' + String.length sep) (String a s))
        with (sdrop (m' + String.length sep) s).
      rewrite append_cons. f_equal. by apply IH.
Qed.

Lemma Index_first (s sep : string) (m : nat) :
  sep ≠ "" → Index s sep = Some m → Index (stake m s) sep = None.
Proof.
  intros Hsep. revert m. induction s as [|a s IH]; intros m; rewrite Index_unfold.
  - rewrite HasPrefix_nil by done. done.
  - destruct (HasPrefix (String a s) sep) eqn:Hp.
    + intros [= <-]. change (stake 0 (String a s)) with "".
      rewrite Index_unfold, HasPrefix_nil by done. done.
    + destruct (Index s sep) as [m'|] eqn:Hi; [|done].
      intros [= <-]. change (stake (S m') (String a s)) with (String a (stake m' s)).
      rewrite Index_unfold.
      destruct (HasPrefix (String a (stake m' s)) sep) eqn:Hp'.
      * apply (HasPrefix_stake (S m') (String a s)) in Hp'. congruence.
      * by rewrite (IH m').
Qed.

Lemma Join_cons (e : string) (rest : list string) (sep : string) :
  rest ≠ [] → Join (e :: rest) sep = e +:+ sep +:+ Join rest sep.
Proof. by destruct rest. Qed.

Lemma genSplit_not_nil (cuts : nat) (s sep : string) : genSplit cuts s sep ≠ [].
Proof. destruct cuts; simpl; [done|]. by destruct (Index s sep). Qed.

(** Joining the pieces with the separator gives the string back. *)
Lemma Join_genSplit (cuts : nat) (s sep : string) :
  Join (genSplit cuts s sep) sep = s.
Proof.
  revert s. induction cuts as [|cuts IH]; intros s; simpl; [done|].
  destruct (Index s sep) as [m|] eqn:Hi; [|done].
  rewrite Join_cons by apply genSplit_not_nil.
  rewrite IH. symmetry. by apply Index_Some.
Qed.

(** With as many cuts allowed as the string has bytes, no piece holds the
    separator: the loop did not stop short. *)
Lemma genSplit_pieces (cuts : nat) (s sep : string) :
  sep ≠ "" → String.length s ≤ cuts →
  Forall (λ piece, Index piece sep = None) (genSplit cuts s sep).
Proof.
  intros Hsep. revert s. induction cuts as [|cuts IH]; intros s Hlen; simpl.
  - destruct s; [|simpl in Hlen; lia]. constructor; [|done].
    rewrite Index_unfold, HasPrefix_nil by done. done.
  - destruct (Index s sep) as [m|] eqn:Hi.
    + constructor; [by apply Index_first|]. apply IH.
      rewrite length_sdrop. destruct sep; [done|]. simpl. lia.
    + by constructor.
Qed.

(** Allowing more cuts than the string has bytes changes nothing. *)
Lemma genSplit_enough (n m : nat) (s sep : string) :
  sep ≠ "" → String.length s ≤ n → String.length s ≤ m →
  genSplit n s sep = genSplit m s sep.
Proof.
  intros Hsep. revert m s. induction n as [|n IH]; intros [|m] s Hn Hm; simpl; try done.
  - destruct s; [|simpl in Hn; lia]. by rewrite Index_unfold, HasPrefix_nil.
  - destruct s; [|simpl in Hm; lia]. by rewrite Index_unfold, HasPrefix_nil.
  - destruct (Index s sep) as [k|]; [|done]. f_equal.
    apply IH; rewrite length_sdrop; destruct sep; simpl; try done; lia.
Qed.

Lemma whiteSpace_not_empty : Forall (λ q, 1 ≤ String.length q) whiteSpace.
Proof. unfold whiteSpace. simpl. repeat constructor. Qed.

Lemma spaceWidth_zero (s : string) :
  spaceWidth s = 0 ↔ ∀ q, In q whiteSpace → HasPrefix s q = false.
Proof.
  unfold spaceWidth. destruct (List.find (HasPrefix s) whiteSpace) as [q|] eqn:Hfind.
  - apply List.find_some in Hfind as [Hin Hq]. split.
    + intros Hlen. pose proof whiteSpace_not_empty as Hall.
      rewrite List.Forall_forall in Hall. specialize (Hall q Hin). lia.
    + intros Hnone. rewrite (Hnone q Hin) in Hq. done.
  - split; [|done]. intros _ q Hin. by apply (List.find_none _ _ Hfind).
Qed.

Lemma spaceWidthLast_zero (s : string) :
  spaceWidthLast s = 0 ↔ ∀ q, In q whiteSpace → HasSuffix s q = false.
Proof.
  unfold spaceWidthLast. destruct (List.find (HasSuffix s) whiteSpace) as [q|] eqn:Hfind.
  - apply List.find_some in Hfind as [Hin Hq]. split.
    + intros Hlen. pose proof whiteSpace_not_empty as Hall.
      rewrite List.Forall_forall in Hall. specialize (Hall q Hin). lia.
    + intros Hnone. rewrite (Hnone q Hin) in Hq. done.
  - split; [|done]. intros _ q Hin. by apply (List.find_none _ _ Hfind).
Qed.

Lemma length_stake (n : nat) (s : string) : String.length (stake n s) ≤ n.
Proof. revert s. induction n as [|n IH]; intros [|a s]; simpl; try lia. specialize (IH s). lia. Qed.

(** The bound on the trimming loops is enough: what comes out starts and
    ends with no white space. *)
Lemma trimLeft_done (n : nat) (s : string) :
  String.length s ≤ n → spaceWidth (trimLeft n s) = 0.
Proof.
  revert s. induction n as [|n IH]; intros s Hlen; cbn [trimLeft].
  - destruct s; [vm_compute; reflexivity | simpl in Hlen; lia].
  - destruct (spaceWidth s) as [|w] eqn:Hw; [done|]. apply IH.
    rewrite length_sdrop. lia.
Qed.

Lemma trimRight_done (n : nat) (s : string) :
  String.length s ≤ n → spaceWidthLast (trimRight n s) = 0.
Proof.
  revert s. induction n as [|n IH]; intros s Hlen; cbn [trimRight].
  - destruct s; [vm_compute; reflexivity | simpl in Hlen; lia].
  - destruct (spaceWidthLast s) as [|w] eqn:Hw; [done|]. apply IH.
    pose proof (length_stake (String.length s - S w) s). lia.
Qed.

Lemma trimRight_keeps_left (n : nat) (s : string) :
  spaceWidth s = 0 → spaceWidth (trimRight n s) = 0.
Proof.
  revert s. induction n as [|n IH]; intros s Hs; cbn [trimRight]; [done|].
  destruct (spaceWidthLast s) as [|w]; [done|]. apply IH.
  apply spaceWidth_zero. intros q Hin.
  destruct (HasPrefix (stake (String.length s - S w) s) q) eqn:Hq; [|done].
  apply HasPrefix_stake in Hq. rewrite spaceWidth_zero in Hs. by rewrite (Hs q Hin) in Hq.
Qed.

Lemma TrimSpace_trimmed (s : string) :
  spaceWidth (TrimSpace s) = 0 ∧ spaceWidthLast (TrimSpace s) = 0.
Proof.
  unfold TrimSpace. split.
  - apply trimRight_keeps_left. by apply trimLeft_done.
  - by apply trimRight_done.
Qed.

(** The models of the library functions on inputs of the kind they meet. *)
Example Split_dashes :
  Split ("a" +:+ LF +:+ "---" +:+ LF +:+ "b----c") "---" = ["a" +:+ LF; LF +:+ "b"; "-c"].
Proof. reflexivity. Qed.

Example Split_only_separator : Split "---" "---" = [""; ""].
Proof. reflexivity. Qed.

Example TrimSpace_unicode :
  TrimSpace (" " +:+ LF +:+ utf8 [194; 160] +:+ "x y" +:+ utf8 [226; 128; 131] +:+ LF) = "x y".
Proof. vm_compute. reflexivity. Qed.

Example TrimSpace_blank : TrimSpace ("  " +:+ LF +:+ " ") = "".
Proof. vm_compute. reflexivity. Qed.

Example Ext_names :
  Filepath.Ext "deployment.yaml" = ".yaml" ∧ Filepath.Ext "service.yml" = ".yml"
  ∧ Filepath.Ext "UPPER.YAML" = ".YAML" ∧ Filepath.Ext "README" = ""
  ∧ Filepath.Ext "a.tar.yml" = ".yml" ∧ Filepath.Ext ".yaml" = ".yaml"
  ∧ Filepath.Ext "chart.yaml/values" = "".
Proof. repeat split; reflexivity. Qed.
End string_facts.

(** ** The manifest applier *)
Section applier.
Import GoStrings Kubehandler Documents.
Context `{Manifests} `{ClusterAPI}.

(** The loop handles the candidate documents, in order, and nothing else. *)
Lemma applyLoop_candidates (i : nat) (yamlDocs : list string) (st : ApplyState) :
  applyLoop i yamlDocs st
  = foldl step st (candidateDocs i yamlDocs).
Proof.
  revert i st. induction yamlDocs as [|doc rest IH]; intros i st; simpl; [done|].
  unfold applyIteration. case_bool_decide; simpl; by rewrite IH.
Qed.

Lemma candidateDocs_elem (i0 : nat) (yamlDocs : list string) (i : nat) (doc : string) :
  (i, doc) ∈ candidateDocs i0 yamlDocs ↔
  ∃ piece, i0 ≤ i ∧ yamlDocs !! (i - i0) = Some piece ∧ doc = TrimSpace piece ∧ doc ≠ "".
Proof.
  revert i0. induction yamlDocs as [|d rest IH]; intros i0; simpl.
  - split; [by intros ?%elem_of_nil | intros (? & ? & ? & _); done].
  - assert (Hrest : (i, doc) ∈ candidateDocs (S i0) rest ↔
                    ∃ piece, i0 < i ∧ (d :: rest) !! (i - i0) = Some piece
                             ∧ doc = TrimSpace piece ∧ doc ≠ "").
    { rewrite IH. split.
      - intros (piece & Hle & Hl & Hd). exists piece. split; [lia|].
        replace (i - i0) with (S (i - S i0)) by lia. done.
      - intros (piece & Hlt & Hl & Hd). exists piece. split; [lia|].
        replace (i - i0) with (S (i - S i0)) in Hl by lia. done. }
    case_bool_decide as Hempty.
    + rewrite Hrest. split.
      * intros (piece & ? & ?). exists piece. split; [lia | done].
      * intros (piece & Hle & Hl & -> & Hne).
        destruct (decide (i = i0)) as [->|].
        -- rewrite Nat.sub_diag in Hl. simpl in Hl. congruence.
        -- exists piece. split; [lia | done].
    + rewrite elem_of_cons, Hrest. split.
      * intros [[= -> ->] | (piece & ? & ?)].
        -- exists d. rewrite Nat.sub_diag. done.
        -- exists piece. split; [lia | done].
      * intros (piece & Hle & Hl & Hd & Hne).
        destruct (decide (i = i0)) as [->|].
        -- left. rewrite Nat.sub_diag in Hl. simpl in Hl. congruence.
        -- right. exists piece. split; [lia | done].
Qed.

(** C1, as the code has it: the content is cut at every occurrence of the
    three bytes [---], leftmost first and wherever in a line they stand
    (the pieces joined by [---] are the content, and no piece holds
    [---]); the pieces that are not empty once trimmed are the
    candidate documents, each under its position among the pieces, and
    the applier handles exactly those, in order. *)
Theorem apply_file_documents (filePath content : string) (c : Cluster) :
  ReadFile filePath = Ok content →
  let yamlDocs := Split content "---" in
  Join yamlDocs "---" = content
  ∧ Forall (λ piece, Index piece "---" = None) yamlDocs
  ∧ (∀ i doc, (i, doc) ∈ candidateDocs 0 yamlDocs ↔
       ∃ piece, yamlDocs !! i = Some piece ∧ doc = TrimSpace piece ∧ doc ≠ "")
  ∧ (ApplyManifestFile filePath c).1
    = foldl step (initialState c) (candidateDocs 0 yamlDocs).
Proof.
  intros Hread yamlDocs. split; [apply Join_genSplit|].
  split; [by apply genSplit_pieces|].
  split.
  - intros i doc. rewrite candidateDocs_elem, Nat.sub_0_r. split.
    + intros (piece & _ & ?). by exists piece.
    + intros (piece & ?). exists piece. split; [lia | done].
  - unfold ApplyManifestFile. rewrite Hread.
    fold yamlDocs. rewrite <- applyLoop_candidates.
    by case_bool_decide.
Qed.
End applier.

Section applier_examples.
Import GoStrings Kubehandler Documents.

Lemma apply_file_documents_witness :
  ReadFile (ClusterAPI := Double.clusterWith [("m.yaml", threeParts)]) "m.yaml" = Ok threeParts
  ∧ candidateDocs 0 (Split threeParts "---") = [(0, "ConfigMap v1 a"); (1, "# note")]
  ∧ (ApplyManifestFile (H := Double.manifests)
       (H0 := Double.clusterWith [("m.yaml", threeParts)]) "m.yaml" []).1
    = foldl (step (H := Double.manifests)
               (H0 := Double.clusterWith [("m.yaml", threeParts)]))
        (initialState (H0 := Double.clusterWith [("m.yaml", threeParts)]) [])
        (candidateDocs 0 (Split threeParts "---")).
Proof.
  split; [reflexivity|]. split; [reflexivity|].
  exact (proj2 (proj2 (proj2
    (apply_file_documents (H := Double.manifests)
       (H0 := Double.clusterWith [("m.yaml", threeParts)])
       "m.yaml" threeParts [] eq_refl)))).
Defined.

(** The claim of C1 fails on a file of one line that holds [---] between
    two objects: no line equals [---], so the partition on such lines is
    the whole content, and yet two documents are applied. *)
Lemma dashes_inside_a_line_split :
  lineCandidates "ConfigMap v1 a---ConfigMap v1 b" = ["ConfigMap v1 a---ConfigMap v1 b"]
  ∧ candidateDocs 0 (Split "ConfigMap v1 a---ConfigMap v1 b" "---")
    = [(0, "ConfigMap v1 a"); (1, "ConfigMap v1 b")]
  ∧ PatchName <$> patches
      (ApplyManifestFile (H := Double.manifests)
         (H0 := Double.clusterWith [("inline.yaml", "ConfigMap v1 a---ConfigMap v1 b")])
         "inline.yaml" []).1
    = ["a"; "b"].
Proof. split; [|split]; vm_compute; reflexivity. Qed.
End applier_examples.

(** ** Partial failure of the applier *)
Section applier_errors.
Import GoStrings Kubehandler Documents.
Context `{Manifests} `{ClusterAPI}.

Lemma app_singleton_ne {A : Type} (l : list A) (x : A) : l ++ [x] ≠ l.
Proof. intros Heq%(f_equal length). rewrite length_app in Heq. simpl in Heq. lia. Qed.






(** A file that cannot be read gives the read error alone: no document is
    handled and nothing is sent. *)
Lemma apply_file_unreadable (filePath : string) (c : Cluster) (e : error) :
  ReadFile filePath = Fail e →
  ApplyManifestFile filePath c
  = (initialState c, Some (Errorf ("failed to read manifest file " +:+ filePath) e)).
Proof. intros Hread. unfold ApplyManifestFile. by rewrite Hread. Qed.


(** ** Files of comments *)
Section comments.
(** The behaviour of the two libraries that the package's tests rely on:
    a document of comments converts to [null], and [null] does not decode. *)
Hypothesis comments_are_null : ∀ doc, commentOnly doc = true → YAMLToJSON doc = Ok "null".
Hypothesis null_has_no_kind : UnmarshalJSON "null" = Fail missingKind.


End comments.
End applier_errors.

Section applier_error_examples.
Import GoStrings Kubehandler Documents.



(** Indentation by spaces keeps a line a comment; a tab, a vertical tab or
    a no-break space before the [#] does not, nor does a carriage return
    after the text. *)
Example comment_lines :
  commentOnly ("# a" +:+ LF +:+ "  # b" +:+ LF +:+ "" +:+ LF +:+ "#") = true
  ∧ commentOnly ("# a" +:+ LF +:+ String (ascii_of_nat 9) "# b") = false
  ∧ commentOnly ("# a" +:+ LF +:+ String (ascii_of_nat 11) "# b") = false
  ∧ commentOnly ("# a" +:+ LF
                 +:+ String (ascii_of_nat 194) (String (ascii_of_nat 160) "# b")) = false
  ∧ commentOnly ("# a" +:+ String (ascii_of_nat 13) LF +:+ "# b") = false
  ∧ commentOnly "a: 1 # b" = false.
Proof. vm_compute. done. Qed.


End applier_error_examples.

Section manifests.
Import Filepath Gitpoller Tree.
Context `{FileSystem}.

Lemma Node_ind (P : Node → Prop) :
  P File →
  (∀ entries, Forall (λ entry, P entry.2) entries → P (Dir entries)) →
  (∀ e, P (DirUnreadable e)) →
  ∀ n, P n.
Proof.
  intros HF HD HU. fix IH 1. intros [|entries|e]; [done | | done].
  apply HD. induction entries as [|[name child] entries IHe]; constructor; [apply IH | done].
Qed.

Lemma walkDir_Dir {S : Type} (fn : WalkDirFunc (S := S)) (path name : string)
    (entries : list (string * Node)) (st : S) :
  walkDir fn path name (Dir entries) st
  = match fn path (Some {| Name := name; IsDir := true |}) None st with
    | (st1, Some e) => (st1, Some e)
    | (st1, None) => walkEntries fn path entries st1
    end.
Proof.
  simpl. destruct (fn path _ None st) as [st1 [e|]]; [done|].
  revert st1. induction entries as [|[name1 child] rest IH]; intros st1; simpl; [done|].
  destruct (walkDir fn (Join path name1) name1 child st1) as [st' [e|]]; [done|].
  apply IH.
Qed.

(** On a tree that can be read, the walk with the callback of
    [GetManifestFiles] appends the manifests of the tree and meets no error. *)
Lemma walkDir_visit (gp : GitPoller) (manifestDir : string) (n : Node) :
  readable n = true →
  ∀ path name files,
    walkDir (visit gp manifestDir) path name n files
    = (files ++ manifestsIn path name n, None).
Proof.
  induction n as [|entries IH|e] using Node_ind; intros Hread path name files.
  - simpl. unfold isManifestName. destruct (_ || _); [done | by rewrite app_nil_r].
  - rewrite walkDir_Dir. simpl. simpl in Hread. revert files.
    induction IH as [|[name1 child] rest Hchild _ IHrest]; intros files; simpl.
    + by rewrite app_nil_r.
    + simpl in Hread. apply andb_prop in Hread as [Hc Hr].
      rewrite (Hchild Hc), (IHrest Hr). by rewrite <- app_assoc.
  - done.
Qed.

Lemma manifestsIn_contains (path name : string) (n : Node) (p : string) :
  p ∈ manifestsIn path name n ↔
  ∃ nm, contains path name n p nm ∧ isManifestName nm = true.
Proof.
  revert path name. induction n as [|entries IH|e] using Node_ind; intros path name; simpl.
  - destruct (isManifestName name) eqn:Hname.
    + rewrite list_elem_of_singleton. split.
      * intros ->. exists name. split; [constructor | done].
      * intros (nm & Hc & _). by inversion Hc.
    + split; [by intros ?%elem_of_nil|]. intros (nm & Hc & Hnm). inversion Hc; congruence.
  - rewrite list_elem_of_In, in_flat_map. split.
    + intros ([name1 child] & Hin & Hp). apply list_elem_of_In in Hin, Hp.
      rewrite Forall_forall in IH. apply (IH _ Hin) in Hp as (nm & Hc & Hnm).
      exists nm. split; [by econstructor | done].
    + intros (nm & Hc & Hnm). inversion Hc as [|? ? ? name1 child ? ? Hin Hc']; subst.
      exists (name1, child). split; [by apply list_elem_of_In|].
      apply list_elem_of_In. rewrite Forall_forall in IH. apply (IH _ Hin). eauto.
  - split; [by intros ?%elem_of_nil|]. intros (nm & Hc & _). inversion Hc.
Qed.

(** A directory that cannot be read stops the walk with an error. *)
Lemma walkDir_unreadable (gp : GitPoller) (manifestDir : string) (n : Node) :
  readable n = false →
  ∀ path name files,
    ∃ files' e, walkDir (visit gp manifestDir) path name n files = (files', Some e).
Proof.
  induction n as [|entries IH|e] using Node_ind; intros Hread path name files.
  - done.
  - rewrite walkDir_Dir. simpl. simpl in Hread. revert files.
    induction IH as [|[name1 child] rest Hchild _ IHrest]; intros files; simpl; [done|].
    simpl in Hread. destruct (readable child) eqn:Hc.
    + rewrite (walkDir_visit _ _ _ Hc). apply IHrest. done.
    + simpl in Hchild.
      destruct (Hchild Hc (Join path name1) name1 files) as (files' & e & ->). eauto.
  - simpl. rewrite andb_false_r. eauto.
Qed.

(** C5, as the code has it.  With the repository opened and [manifestDir]
    the joined path: when the path cannot be looked up, the call fails (with
    the not-found error when the path is missing); when the tree there can be
    read, the call returns, in walk order, exactly the paths of the entries
    beneath it that are not directories and whose extension is [.yaml] or
    [.yml], byte for byte; a directory that cannot be read makes it fail;
    and an empty directory gives the empty list and no error.  The root is
    walked whether it is a directory or not. *)
Theorem get_manifest_files (gp : GitPoller) (r : Repository) :
  repository gp = Some r →
  let manifestDir := Join (localPath gp) (manifestPathInRepo gp) in
  (∀ e, Lstat manifestDir = LstatErr e →
     ∃ e', GetManifestFiles gp = Fail e'
           ∧ (IsNotExist e = true → e' = notFound gp manifestDir))
  ∧ (∀ name n, Lstat manifestDir = LstatOk name n → readable n = true →
       GetManifestFiles gp = Ok (manifestsIn manifestDir name n)
       ∧ ∀ p, p ∈ manifestsIn manifestDir name n ↔
              ∃ nm, contains manifestDir name n p nm
                    ∧ (Ext nm = ".yaml" ∨ Ext nm = ".yml"))
  ∧ (∀ name n, Lstat manifestDir = LstatOk name n → readable n = false →
       ∃ e, GetManifestFiles gp = Fail e)
  ∧ (∀ name, Lstat manifestDir = LstatOk name (Dir []) → GetManifestFiles gp = Ok []).
Proof.
  intros Hrepo manifestDir. unfold GetManifestFiles. rewrite Hrepo. fold manifestDir.
  unfold WalkDir, statNotExist. split; [|split; [|split]].
  - intros e ->. simpl. rewrite bool_decide_eq_true_2 by done. rewrite andb_true_r.
    destruct (IsNotExist e); simpl; eexists; (split; [done|]); done.
  - intros name n Hl Hr. rewrite Hl. rewrite walkDir_visit by done. split; [done|].
    intros p. rewrite manifestsIn_contains. unfold isManifestName.
    split; intros (nm & Hc & Hnm); exists nm; (split; [done|]).
    + apply orb_prop in Hnm as [?%bool_decide_eq_true|?%bool_decide_eq_true]; auto.
    + destruct Hnm as [-> | ->]; [done|]. apply orb_true_intro. right. done.
  - intros name n Hl Hr. rewrite Hl.
    destruct (walkDir_unreadable gp manifestDir n Hr manifestDir name []) as (files' & e & ->).
    destruct (match Lstat manifestDir with LstatErr e0 => IsNotExist e0 | _ => false end); eauto.
  - intros name ->. done.
Qed.
End manifests.

Section manifests_examples.
Import Filepath Gitpoller Tree.

Lemma get_manifest_files_witness :
  repository (pollerAt "/repo" "app-manifests") = Some OpenRepository
  ∧ GetManifestFiles (H := treeAt "/repo/app-manifests" "app-manifests" appManifests)
      (pollerAt "/repo" "app-manifests")
    = Ok ["/repo/app-manifests/deployment.yaml";
          "/repo/app-manifests/nested/configmap.yaml";
          "/repo/app-manifests/service.yml"].
Proof.
  split; [reflexivity|].
  destruct (get_manifest_files
              (H := treeAt "/repo/app-manifests" "app-manifests" appManifests)
              (pollerAt "/repo" "app-manifests") OpenRepository eq_refl)
    as (_ & Htree & _).
  destruct (Htree "app-manifests" appManifests eq_refl eq_refl) as [-> _].
  reflexivity.
Defined.

(** The claim of C5 fails when the manifest path names a file: nothing is a
    directory there, and the call returns that file without an error. *)
Lemma manifest_path_is_a_file :
  Lstat (FileSystem := treeAt "/repo/deploy.yaml" "deploy.yaml" File) "/repo/deploy.yaml"
  = LstatOk "deploy.yaml" File
  ∧ isDirNode File = false
  ∧ GetManifestFiles (H := treeAt "/repo/deploy.yaml" "deploy.yaml" File)
      (pollerAt "/repo" "deploy.yaml")
    = Ok ["/repo/deploy.yaml"].
Proof. split; [|split]; reflexivity. Qed.
End manifests_examples.

(** ** Change detection *)
Section polls.
Import Filepath Gitpoller Worker.
Context `{KubeHandler}.

Lemma GetManifestFiles_setLastCommitHash (fs : FileSystem) (gp : GitPoller) (h : string) :
  GetManifestFiles (H := fs) (setLastCommitHash gp h) = GetManifestFiles (H := fs) gp.
Proof. done. Qed.

Lemma FetchLatest_setLastCommitHash (gp : GitPoller) (h : string) (git : GitCalls) :
  FetchLatest (setLastCommitHash gp h) git = FetchLatest gp git.
Proof. done. Qed.

(** What one poll does, by cases on what it observes. *)
Lemma Poll_cases (fs : FileSystem) (gp : GitPoller) (git : GitCalls) (r0 : Repository) :
  repository gp = Some r0 →
  match observed gp git with
  | None => (Poll (H := fs) gp git).1 = gp ∧ is_Some (err (Poll (H := fs) gp git).2)
            ∧ changed (Poll (H := fs) gp git).2 = false
  | Some h =>
      (Poll (H := fs) gp git).1 = setLastCommitHash gp h
      ∨ ((Poll (H := fs) gp git).1 = gp ∧ lastCommitHash gp = h)
  end.
Proof.
  intros Hrepo. unfold observed, Poll, GetCurrentCommitHash. rewrite Hrepo.
  destruct (FetchLatest gp git) as [e|]; [simpl; eauto|].
  destruct (Head git) as [h|e]; [|simpl; eauto].
  case_bool_decide as Hfirst.
  - rewrite GetManifestFiles_setLastCommitHash.
    destruct (GetManifestFiles gp); simpl; auto.
  - case_bool_decide as Hnew.
    + rewrite GetManifestFiles_setLastCommitHash.
      destruct (GetManifestFiles gp); simpl; auto.
    + simpl. right. split; [done|]. by destruct (decide (h = lastCommitHash gp)).
Qed.

(** After a poll the stored hash is the one the poll observed, whether the
    manifests could be listed or not; a poll that observed none leaves the
    stored hash alone. *)
Lemma Poll_records (fs : FileSystem) (gp : GitPoller) (git : GitCalls) (r0 : Repository) :
  repository gp = Some r0 →
  lastCommitHash (Poll (H := fs) gp git).1 = default (lastCommitHash gp) (observed gp git)
  ∧ repository (Poll (H := fs) gp git).1 = Some r0.
Proof.
  intros Hrepo. pose proof (Poll_cases fs gp git r0 Hrepo) as Hcases.
  destruct (observed gp git) as [h|]; simpl.
  - destruct Hcases as [-> | [-> ?]]; done.
  - destruct Hcases as [-> _]. done.
Qed.

(** The apply pass hands over every file once, in the order listed. *)
Lemma applyAll_log (manifestFiles : list string) (k : Kube) (log : list string) :
  (applyAll manifestFiles k log).2 = log ++ manifestFiles.
Proof.
  revert k log. induction manifestFiles as [|mf rest IH]; intros k log; simpl.
  - by rewrite app_nil_r.
  - by rewrite IH, <- app_assoc.
Qed.

(** C2, as the code has it.  A poll that returns no error has observed a
    hash, returns it and leaves it stored.  Made while no hash is stored, it
    reports a change whatever the tree holds; made while one is stored, it
    reports a change exactly when the observed hash is another string.
    Without a change the tick applies nothing; with one, the files listed are
    handed to the applier once each, in order. *)
Theorem poll_change_detection (m : Managed) (git : GitCalls) (fs : FileSystem)
    (r0 : Repository) :
  repository (poller m) = Some r0 →
  let gp := poller m in
  let r := (Poll (H := fs) gp git).2 in
  err r = None →
  ∃ h, observed gp git = Some h ∧ commitHash r = h
       ∧ lastCommitHash (Poll (H := fs) gp git).1 = h
       ∧ (lastCommitHash gp = "" → changed r = true)
       ∧ (lastCommitHash gp ≠ "" → (changed r = true ↔ h ≠ lastCommitHash gp))
       ∧ (changed r = false →
            applied (tick m git fs) = applied m ∧ kubeClient (tick m git fs) = kubeClient m)
       ∧ (changed r = true →
            GetManifestFiles (H := fs) gp = Ok (manifestFiles r)
            ∧ applied (tick m git fs) = applied m ++ manifestFiles r
            ∧ kubeClient (tick m git fs)
              = (applyAll (manifestFiles r) (kubeClient m) (applied m)).1).
Proof.
  intros Hrepo gp r Herr. subst r gp. unfold tick. revert Herr.
  generalize (poller m) Hrepo. clear Hrepo. intros gp Hrepo.
  unfold observed, Poll, GetCurrentCommitHash. rewrite Hrepo.
  destruct (FetchLatest gp git) as [e|]; [done|].
  destruct (Head git) as [h|e]; [|done].
  case_bool_decide as Hfirst.
  - rewrite GetManifestFiles_setLastCommitHash.
    destruct (GetManifestFiles gp) as [files|e]; [|done]. simpl. intros _.
    exists h. pose proof (applyAll_log files (kubeClient m) (applied m)) as Hlog.
    destruct (applyAll files (kubeClient m) (applied m)) as [k log]. simpl in *.
    repeat split; try done; congruence.
  - case_bool_decide as Hnew.
    + rewrite GetManifestFiles_setLastCommitHash.
      destruct (GetManifestFiles gp) as [files|e]; [|done]. simpl. intros _.
      exists h. pose proof (applyAll_log files (kubeClient m) (applied m)) as Hlog.
      destruct (applyAll files (kubeClient m) (applied m)) as [k log]. simpl in *.
      repeat split; try done; congruence.
    + simpl. intros _.
      assert (h = lastCommitHash gp) as -> by (by destruct (decide (h = lastCommitHash gp))).
      exists (lastCommitHash gp). repeat split; try done; congruence.
Qed.

(** The poll made before the loop starts applies what a first successful
    poll lists. *)
Lemma initialPoll_applies (m : Managed) (git : GitCalls) (fs : FileSystem) (r0 : Repository) :
  repository (poller m) = Some r0 → lastCommitHash (poller m) = "" →
  err (Poll (H := fs) (poller m) git).2 = None →
  applied (initialPoll m git fs)
  = applied m ++ manifestFiles (Poll (H := fs) (poller m) git).2.
Proof.
  intros Hrepo Hlast. unfold initialPoll, Poll, GetCurrentCommitHash. rewrite Hrepo.
  destruct (FetchLatest (poller m) git) as [e|]; [done|].
  destruct (Head git) as [h|e]; [|done].
  rewrite bool_decide_eq_true_2 by done. rewrite GetManifestFiles_setLastCommitHash.
  destruct (GetManifestFiles (poller m)) as [files|e]; [|done]. simpl. intros _.
  pose proof (applyAll_log files (kubeClient m) (applied m)) as Hlog.
  by destruct (applyAll files (kubeClient m) (applied m)).
Qed.

(** A tick that finds the remote at the hash already stored changes
    nothing and reports no change. *)
Lemma tick_unchanged (m : Managed) (git : GitCalls) (fs : FileSystem) (r0 : Repository)
    (h : string) :
  repository (poller m) = Some r0 → lastCommitHash (poller m) = h → h ≠ "" →
  unchangedAt h (Tick git fs) →
  tick m git fs = m ∧ (Poll (H := fs) (poller m) git).1 = poller m
  ∧ changed (Poll (H := fs) (poller m) git).2 = false.
Proof.
  intros Hrepo Hlast Hh Hsame. unfold tick. destruct m as [gp k log]. simpl in *.
  unfold Poll, GetCurrentCommitHash. rewrite Hrepo.
  destruct (FetchLatest gp git) as [e|]; [done|].
  destruct (Head git) as [h'|e] eqn:Hhead; [|done].
  rewrite (Hsame h' eq_refl), Hlast.
  rewrite bool_decide_eq_false_2 by done.
  rewrite bool_decide_eq_false_2 by (intros Hne; by apply Hne).
  done.
Qed.

Lemma loop_unchanged (later : list Event) (m : Managed) (r0 : Repository) (h : string) :
  repository (poller m) = Some r0 → lastCommitHash (poller m) = h → h ≠ "" →
  Forall (unchangedAt h) later →
  loop later m = m ∧ Forall (λ r, changed r = false) (pollResults later (poller m)).
Proof.
  intros Hrepo Hlast Hh Hlater. induction Hlater as [|[git fs|] later Hev _ IH]; simpl.
  - done.
  - destruct (tick_unchanged m git fs r0 h Hrepo Hlast Hh Hev) as (-> & Hgp & Hc).
    destruct (Poll (H := fs) (poller m) git) as [gp' r]. simpl in *. subst gp'.
    split; [apply IH|]. constructor; [done | apply IH].
  - done.
Qed.

(** C10: [Poll] stores the observed hash before it lists the manifests.  When
    it observes a hash other than the stored one (a commit hash is forty hex
    digits, so it is not the empty string) and the listing fails, it returns
    an error and no file, with the hash stored; the tick applies nothing; and
    as long as the remote stays at that hash, every later poll reports no
    change, nothing is applied and the stored hash stays. *)
Theorem hash_recorded_before_listing (m : Managed) (git : GitCalls) (fs : FileSystem)
    (r0 : Repository) (h : string) (e : error) (later : list Event) :
  repository (poller m) = Some r0 →
  observed (poller m) git = Some h → h ≠ "" → h ≠ lastCommitHash (poller m) →
  GetManifestFiles (H := fs) (poller m) = Fail e →
  Forall (unchangedAt h) later →
  let r := (Poll (H := fs) (poller m) git).2 in
  is_Some (err r) ∧ manifestFiles r = []
  ∧ lastCommitHash (Poll (H := fs) (poller m) git).1 = h
  ∧ applied (tick m git fs) = applied m
  ∧ Forall (λ r', changed r' = false) (pollResults later (poller (tick m git fs)))
  ∧ applied (loop later (tick m git fs)) = applied m
  ∧ kubeClient (loop later (tick m git fs)) = kubeClient m
  ∧ lastCommitHash (poller (loop later (tick m git fs))) = h.
Proof.
  intros Hrepo Hobs Hh Hnew Hlist Hlater r.
  assert (Hpoll : ∃ c, Poll (H := fs) (poller m) git
            = (setLastCommitHash (poller m) h,
               {| changed := c; commitHash := h; manifestFiles := [];
                  err := Some (Errorf (if c then "new commit detected, but failed to list manifest files"
                                       else "failed to list manifest files on initial poll") e) |})).
  { revert Hobs. unfold observed, Poll, GetCurrentCommitHash. rewrite Hrepo.
    destruct (FetchLatest (poller m) git) as [?|]; [done|].
    destruct (Head git) as [h'|?]; [|done]. intros [= ->].
    rewrite !GetManifestFiles_setLastCommitHash, Hlist.
    case_bool_decide; [by exists false|].
    rewrite bool_decide_eq_true_2 by done. by exists true. }
  destruct Hpoll as [c Hpoll].
  assert (Htick : tick m git fs
            = {| poller := setLastCommitHash (poller m) h; kubeClient := kubeClient m;
                 applied := applied m |}).
  { unfold tick. by rewrite Hpoll. }
  subst r. rewrite Hpoll, Htick. simpl.
  destruct (loop_unchanged later
              {| poller := setLastCommitHash (poller m) h; kubeClient := kubeClient m;
                 applied := applied m |} r0 h) as [-> Hres]; [done..|].
  simpl. repeat split; done.
Qed.
End polls.

Section polls_examples.
Import Filepath Gitpoller Worker.

Lemma poll_change_detection_witness :
  err (Poll (H := withManifest) (pollerAt "/repo" "k8s") (remoteAt "c0ffee")).2 = None
  ∧ changed (Poll (H := withManifest) (pollerAt "/repo" "k8s") (remoteAt "c0ffee")).2 = true
  ∧ applied (tick fresh (remoteAt "c0ffee") withManifest) = ["/repo/k8s/a.yaml"].
Proof.
  split; [reflexivity|].
  destruct (poll_change_detection (H := recorder) fresh (remoteAt "c0ffee") withManifest
              OpenRepository eq_refl eq_refl)
    as (h & _ & _ & _ & Hfirst & _ & _ & Hchanged).
  split; [exact (Hfirst eq_refl)|].
  destruct (Hchanged (Hfirst eq_refl)) as (_ & -> & _). reflexivity.
Defined.

(** The claim of C2 fails on a run of two polls at one commit, the first of
    which cannot read the manifest directory: the first poll to return no
    error is the second, it reports no change, and the manifest is never
    applied. *)
Lemma first_successful_poll_without_change :
  pollResults [Tick (remoteAt "c0ffee") unreadableDir; Tick (remoteAt "c0ffee") withManifest]
    (pollerAt "/repo" "k8s")
  = [ {| changed := false; commitHash := "c0ffee"; manifestFiles := [];
         err := Some (Errorf "failed to list manifest files on initial poll"
                        (Errorf "error walking manifest directory /repo/k8s"
                           permissionDenied)) |};
      {| changed := false; commitHash := "c0ffee"; manifestFiles := []; err := None |} ]
  ∧ GetManifestFiles (H := withManifest) (pollerAt "/repo" "k8s") = Ok ["/repo/k8s/a.yaml"]
  ∧ applied (loop [Tick (remoteAt "c0ffee") unreadableDir; Tick (remoteAt "c0ffee") withManifest]
               fresh) = [].
Proof. split; [|split]; vm_compute; reflexivity. Qed.

Lemma hash_recorded_before_listing_witness :
  GetManifestFiles (H := unreadableDir) (pollerAt "/repo" "k8s")
  = Fail (Errorf "error walking manifest directory /repo/k8s" permissionDenied)
  ∧ applied (loop [Tick (remoteAt "c0ffee") withManifest; Tick remoteDown withManifest]
               (tick fresh (remoteAt "c0ffee") unreadableDir)) = []
  ∧ lastCommitHash
      (poller (loop [Tick (remoteAt "c0ffee") withManifest; Tick remoteDown withManifest]
                 (tick fresh (remoteAt "c0ffee") unreadableDir))) = "c0ffee".
Proof.
  split; [reflexivity|].
  assert (Hlater : Forall (unchangedAt "c0ffee")
                     [Tick (remoteAt "c0ffee") withManifest; Tick remoteDown withManifest]).
  { repeat constructor; intros h' Hh; simpl in Hh; congruence. }
  destruct (hash_recorded_before_listing (H := recorder) fresh (remoteAt "c0ffee") unreadableDir
              OpenRepository "c0ffee"
              (Errorf "error walking manifest directory /repo/k8s" permissionDenied)
              [Tick (remoteAt "c0ffee") withManifest; Tick remoteDown withManifest]
              eq_refl eq_refl ltac:(discriminate) ltac:(discriminate) eq_refl Hlater)
    as (_ & _ & _ & _ & _ & Happlied & _ & Hhash).
  split; [exact Happlied | exact Hhash].
Defined.

(** A manifest directory that is missing gives the not-found error. *)
Example missing_manifest_directory :
  GetManifestFiles (H := withoutDir) (pollerAt "/repo" "k8s")
  = Fail (notFound (pollerAt "/repo" "k8s") "/repo/k8s").
Proof. reflexivity. Qed.
End polls_examples.

(** ** The encrypted catalog *)
Section catalog.
Import Interfaces Storage.
Context `{Codec}.

Lemma length_zero_iff (data : string) : String.length data = 0 ↔ data = "".
Proof. by destruct data. Qed.

Lemma load_sync_targets_decrypt (s : EncryptedFileStorage) (d : Disk) (data : string)
    (cause : error) :
  file d = Contents data → data ≠ "" → Decrypt data (EncryptionKey s) = Fail cause →
  LoadSyncTargets s d = ([], Some (decryptError s cause)).
Proof.
  unfold LoadSyncTargets, osReadFile. intros -> Hdata Hdec.
  rewrite bool_decide_eq_false_2 by by rewrite length_zero_iff.
  by rewrite Hdec.
Qed.

Lemma load_sync_targets_ok (s : EncryptedFileStorage) (d : Disk) (data plain : string)
    (targets : list SyncTarget) :
  file d = Contents data → data ≠ "" → Decrypt data (EncryptionKey s) = Ok plain →
  Unmarshal plain = Ok targets → LoadSyncTargets s d = (targets, None).
Proof.
  unfold LoadSyncTargets, osReadFile. intros -> Hdata Hdec Hjson.
  rewrite bool_decide_eq_false_2 by by rewrite length_zero_iff.
  by rewrite Hdec, Hjson.
Qed.

(** C8: [LoadSyncTargets] returns the empty list and no error for a missing
    file and for a file of zero length; for a file with bytes it returns the
    decryption error when decryption fails, the format error when the plain
    text does not decode into a list of targets, and the decoded list
    otherwise. *)
Theorem load_sync_targets (s : EncryptedFileStorage) (d : Disk) :
  (file d = NoFile → LoadSyncTargets s d = ([], None))
  ∧ (file d = Contents "" → LoadSyncTargets s d = ([], None))
  ∧ (∀ data cause, file d = Contents data → data ≠ "" →
       Decrypt data (EncryptionKey s) = Fail cause →
       LoadSyncTargets s d = ([], Some (decryptError s cause)))
  ∧ (∀ data plain cause, file d = Contents data → data ≠ "" →
       Decrypt data (EncryptionKey s) = Ok plain → Unmarshal plain = Fail cause →
       LoadSyncTargets s d = ([], Some (formatError s cause)))
  ∧ (∀ data plain targets, file d = Contents data → data ≠ "" →
       Decrypt data (EncryptionKey s) = Ok plain → Unmarshal plain = Ok targets →
       LoadSyncTargets s d = (targets, None)).
Proof.
  unfold LoadSyncTargets, osReadFile. repeat split.
  - by intros ->.
  - by intros ->.
  - intros data cause. apply load_sync_targets_decrypt.
  - intros data plain cause -> Hdata Hdec Hjson.
    rewrite bool_decide_eq_false_2 by by rewrite length_zero_iff.
    by rewrite Hdec, Hjson.
  - intros data plain targets. apply load_sync_targets_ok.
Qed.

(** The search returns the first entry that carries the identifier. *)
Lemma indexOfID_Some (id : string) (targets : list SyncTarget) (k i : nat) :
  indexOfID id targets k = Some i →
  k ≤ i ∧ (∃ t, targets !! (i - k) = Some t ∧ ID t = id)
  ∧ ∀ j t, j < i - k → targets !! j = Some t → ID t ≠ id.
Proof.
  revert k. induction targets as [|t rest IH]; intros k; simpl; [done|].
  case_bool_decide as Hid.
  - intros [= <-]. rewrite Nat.sub_diag. split; [done|]. split; [by exists t | lia].
  - intros (Hle & (t' & Hl & Ht') & Hbefore)%IH.
    split; [lia|]. replace (i - k) with (S (i - S k)) by lia. split; [by exists t'|].
    intros [|j] t'' Hj Hl''; simpl in Hl''; [congruence|]. apply (Hbefore j); [lia | done].
Qed.

Lemma indexOfID_None (id : string) (targets : list SyncTarget) (k : nat) :
  indexOfID id targets k = None → ∀ t, t ∈ targets → ID t ≠ id.
Proof.
  revert k. induction targets as [|t rest IH]; intros k; simpl.
  - by intros _ t ?%elem_of_nil.
  - case_bool_decide as Hid; [done|]. intros Hrest t' [->|Hin]%elem_of_cons; [done|].
    by apply (IH (S k)).
Qed.

Lemma SaveSyncTarget_loaded (s : EncryptedFileStorage) (target : SyncTarget) (d : Disk)
    (targets : list SyncTarget) :
  LoadSyncTargets s d = (targets, None) →
  SaveSyncTarget s target d = written s (upsert targets target) d.
Proof.
  intros Hload. unfold SaveSyncTarget, written, osWriteFile. rewrite Hload.
  destruct (MarshalIndent _); [|done]. destruct (Encrypt _ _); [|done].
  by destruct (writeErr d) as [[?|? ?]|].
Qed.

Lemma upsert_others (targets : list SyncTarget) (target : SyncTarget) :
  filter (λ t, ID t ≠ ID target) (upsert targets target)
  = filter (λ t, ID t ≠ ID target) targets.
Proof.
  unfold upsert. destruct (indexOfID (ID target) targets 0) as [i|] eqn:Hi.
  - apply indexOfID_Some in Hi as (_ & (t & Hl & Ht) & _). rewrite Nat.sub_0_r in Hl.
    revert i Hl. induction targets as [|t0 rest IH]; intros [|i] Hl; simpl in *; try done.
    + injection Hl as ->. rewrite !filter_cons. by rewrite !decide_False by (intros ?; done).
    + rewrite !filter_cons. by rewrite (IH i).
  - rewrite filter_app, filter_cons, decide_False by (intros ?; done).
    by rewrite filter_nil, app_nil_r.
Qed.

(** C9: on a list that loaded, [SaveSyncTarget] goes on with the upsert of
    the list, and that is what it encodes, encrypts and writes.  When an
    entry has the identifier of the argument, the first such entry, and only
    it, is replaced, at its place: the list keeps its length and every other
    position.  When none has, the argument is added at the end.  Either way
    the entries with other identifiers are kept as they were, in order. *)
Theorem save_is_upsert (s : EncryptedFileStorage) (target : SyncTarget) (d : Disk)
    (targets : list SyncTarget) :
  LoadSyncTargets s d = (targets, None) →
  SaveSyncTarget s target d = written s (upsert targets target) d
  ∧ ((∃ t, t ∈ targets ∧ ID t = ID target) →
       ∃ i t, targets !! i = Some t ∧ ID t = ID target
              ∧ (∀ j t', j < i → targets !! j = Some t' → ID t' ≠ ID target)
              ∧ upsert targets target = <[i := target]> targets
              ∧ upsert targets target !! i = Some target
              ∧ length (upsert targets target) = length targets
              ∧ ∀ j, j ≠ i → upsert targets target !! j = targets !! j)
  ∧ ((∀ t, t ∈ targets → ID t ≠ ID target) →
       upsert targets target = targets ++ [target])
  ∧ filter (λ t, ID t ≠ ID target) (upsert targets target)
    = filter (λ t, ID t ≠ ID target) targets
  ∧ (∀ jsonData encryptedData,
       MarshalIndent (upsert targets target) = Ok jsonData →
       Encrypt jsonData (EncryptionKey s) = Ok encryptedData → writeErr d = None →
       encryptedData ≠ "" →
       Decrypt encryptedData (EncryptionKey s) = Ok jsonData →
       Unmarshal jsonData = Ok (upsert targets target) →
       LoadSyncTargets s (SaveSyncTarget s target d).1 = (upsert targets target, None)).
Proof.
  intros Hload. split; [by apply SaveSyncTarget_loaded|].
  split; [|split; [|split; [apply upsert_others|]]]; cycle 2.
  { intros jsonData encryptedData Hj He Hw Hne Hd Hu.
    rewrite (SaveSyncTarget_loaded _ _ _ _ Hload). unfold written. rewrite Hj, He, Hw.
    simpl. by apply (load_sync_targets_ok s _ encryptedData jsonData). }
  - intros (t0 & Hin & Hid). unfold upsert.
    destruct (indexOfID (ID target) targets 0) as [i|] eqn:Hi.
    + apply indexOfID_Some in Hi as (_ & (t & Hl & Ht) & Hbefore).
      rewrite Nat.sub_0_r in Hl, Hbefore. exists i, t.
      split; [done|]. split; [done|]. split; [done|]. split; [done|].
      split; [apply list_lookup_insert_eq; by eapply lookup_lt_Some|].
      split; [apply length_insert|]. intros j Hj. by apply list_lookup_insert_ne.
    + by destruct (indexOfID_None _ _ _ Hi t0 Hin).
  - intros Hnone. unfold upsert.
    destruct (indexOfID (ID target) targets 0) as [i|] eqn:Hi; [|done].
    apply indexOfID_Some in Hi as (_ & (t & Hl & Ht) & _).
    destruct (Hnone t); [|done]. by eapply list_elem_of_lookup_2.
Qed.

(** C4, as the code has it: when the file has bytes that do not decrypt,
    the load fails with the decryption error, and [SaveSyncTarget] goes on
    all the same, with the list that holds the argument alone: it returns an
    error only if encoding, encrypting or writing that list fails, and
    otherwise replaces the contents of the file. *)
Theorem save_over_undecryptable (s : EncryptedFileStorage) (target : SyncTarget) (d : Disk)
    (data : string) (cause : error) :
  file d = Contents data → data ≠ "" →
  Decrypt data (EncryptionKey s) = Fail cause →
  LoadSyncTargets s d = ([], Some (decryptError s cause))
  ∧ SaveSyncTarget s target d = written s [target] d
  ∧ (∀ jsonData encryptedData,
       MarshalIndent [target] = Ok jsonData →
       Encrypt jsonData (EncryptionKey s) = Ok encryptedData → writeErr d = None →
       SaveSyncTarget s target d = ({| file := Contents encryptedData; writeErr := None |}, None)).
Proof.
  intros Hfile Hdata Hdec.
  assert (Hload : LoadSyncTargets s d = ([], Some (decryptError s cause))).
  { by apply (load_sync_targets_decrypt s d data cause). }
  assert (Hsave : SaveSyncTarget s target d = written s [target] d).
  { unfold SaveSyncTarget, written, osWriteFile. rewrite Hload. simpl.
    destruct (MarshalIndent _); [|done]. destruct (Encrypt _ _); [|done].
    by destruct (writeErr d) as [[?|? ?]|]. }
  split; [done|]. split; [done|].
  intros jsonData encryptedData Hj He Hw. rewrite Hsave. unfold written.
  by rewrite Hj, He, Hw.
Qed.
End catalog.

Section catalog_examples.
Import Interfaces Storage DoubleCodec.

Example load_cases :
  LoadSyncTargets (H := codec) catalog {| file := NoFile; writeErr := None |} = ([], None)
  ∧ LoadSyncTargets (H := codec) catalog (holding "") = ([], None)
  ∧ LoadSyncTargets (H := codec) catalog (holding "garbage")
    = ([], Some (decryptError catalog (ErrorNew "cipher: message authentication failed")))
  ∧ LoadSyncTargets (H := codec) catalog (holding "enc:not a record")
    = ([], Some (formatError catalog (ErrorNew "json: cannot unmarshal")))
  ∧ LoadSyncTargets (H := codec) catalog (holding "enc:a=u1")
    = ([target "a" "u1"], None).
Proof. repeat split; reflexivity. Qed.

Lemma save_is_upsert_witness :
  LoadSyncTargets (H := codec) catalog (holding "enc:a=u1,b=u2,c=u3")
  = ([target "a" "u1"; target "b" "u2"; target "c" "u3"], None)
  ∧ SaveSyncTarget (H := codec) catalog (target "b" "moved") (holding "enc:a=u1,b=u2,c=u3")
    = (holding "enc:a=u1,b=moved,c=u3", None)
  ∧ SaveSyncTarget (H := codec) catalog (target "d" "u4") (holding "enc:a=u1,b=u2,c=u3")
    = (holding "enc:a=u1,b=u2,c=u3,d=u4", None).
Proof.
  split; [reflexivity|]. split.
  - rewrite (proj1 (save_is_upsert (H := codec) catalog (target "b" "moved")
                      (holding "enc:a=u1,b=u2,c=u3") _ eq_refl)).
    reflexivity.
  - rewrite (proj1 (save_is_upsert (H := codec) catalog (target "d" "u4")
                      (holding "enc:a=u1,b=u2,c=u3") _ eq_refl)).
    reflexivity.
Defined.

Lemma save_over_undecryptable_witness :
  Decrypt (Codec := codec) "garbage" (EncryptionKey catalog)
  = Fail (ErrorNew "cipher: message authentication failed")
  ∧ SaveSyncTarget (H := codec) catalog (target "t1" "u1") (holding "garbage")
    = written (H := codec) catalog [target "t1" "u1"] (holding "garbage").
Proof.
  split; [reflexivity|].
  exact (proj1 (proj2 (save_over_undecryptable (H := codec) catalog (target "t1" "u1")
                         (holding "garbage") "garbage" _ eq_refl ltac:(discriminate) eq_refl))).
Defined.

(** The claim of C4 fails on a catalog file holding bytes that do not
    decrypt: the load fails with the decryption error, and the save returns
    no error and replaces the bytes by a catalog of the new target alone. *)
Lemma undecryptable_catalog_overwritten :
  LoadSyncTargets (H := codec) catalog (holding "garbage")
  = ([], Some (decryptError catalog (ErrorNew "cipher: message authentication failed")))
  ∧ SaveSyncTarget (H := codec) catalog (target "t1" "u1") (holding "garbage")
    = (holding "enc:t1=u1", None).
Proof. split; reflexivity. Qed.
End catalog_examples.

(** ** The control plane *)
Section create.
Import Interfaces Server.
Context `{DataStorage} (Decode : string → result SyncTarget).

(** [SaveSyncTarget] is called, and the state behind the storage and the
    worker can change, only for a POST whose body decodes to a target with
    the four fields set. *)
Lemma handleCreateSyncTarget_saves (newID : string) (r : Request) (s : ServerState) :
  (handleCreateSyncTarget Decode newID r s).1 = s
  ∨ ∃ target, Method r = "POST" ∧ Decode (RequestBody r) = Ok target ∧ complete target
              ∧ saveCalls (handleCreateSyncTarget Decode newID r s).1
                = saveCalls s ++ [normalized target newID].
Proof.
  unfold handleCreateSyncTarget. case_bool_decide as Hm; [by left|].
  destruct (Decode (RequestBody r)) as [target|e] eqn:Hdec; [|by left].
  repeat (case_bool_decide; [by left|]).
  right. exists target. split; [by destruct (decide (Method r = "POST"))|].
  split; [done|]. split; [done|]. fold (normalized target newID).
  destruct (SaveSyncTarget (normalized target newID) (dataStorage s)) as [store [e|]];
    [done|]. simpl.
  by destruct (Worker.AddSyncTarget (worker s) (normalized target newID)) as [w [e|]].
Qed.

Lemma handleCreateSyncTarget_rejects (newID : string) (r : Request) (s : ServerState)
    (target : SyncTarget) (reason : string) :
  Method r = "POST" → Decode (RequestBody r) = Ok target →
  missingField target = Some reason →
  handleCreateSyncTarget Decode newID r s = (s, httpError reason StatusBadRequest).
Proof.
  intros Hm Hdec. unfold handleCreateSyncTarget, missingField.
  rewrite (bool_decide_eq_false_2 (Method r ≠ "POST")) by (intros Hne; by apply Hne).
  rewrite Hdec.
  repeat (case_bool_decide; [by intros [= <-]|]). done.
Qed.

Lemma missingField_reasons (target : SyncTarget) :
  RepoURL target = "" ∨ RepoBranch target = "" ∨ ManifestPath target = ""
  ∨ KubeConfigContent target = "" →
  ∃ reason, missingField target = Some reason
            ∧ reason ∈ ["RepoURL is required"; "RepoBranch is required";
                        "KubeConfigContent is required"; "ManifestPath is required"]
            ∧ (RepoURL target ≠ "" → RepoBranch target ≠ "" → KubeConfigContent target ≠ "" →
               reason = "ManifestPath is required").
Proof.
  intros Hempty. unfold missingField.
  repeat (case_bool_decide;
          [eexists; split; [done|]; split; [repeat constructor | by intros]|]).
  exfalso. destruct Hempty as [?|[?|[?|?]]]; done.
Qed.

(** A body that does not decode is answered 400 as well, with the state
    untouched. *)
Lemma handleCreateSyncTarget_undecodable (newID : string) (r : Request) (s : ServerState)
    (e : error) :
  Method r = "POST" → Decode (RequestBody r) = Fail e →
  handleCreateSyncTarget Decode newID r s
  = (s, httpError ("Invalid request body: " +:+ Error e) StatusBadRequest).
Proof.
  intros Hm Hdec. unfold handleCreateSyncTarget.
  rewrite (bool_decide_eq_false_2 (Method r ≠ "POST")) by (intros Hne; by apply Hne).
  by rewrite Hdec.
Qed.

(** C7: a POST whose decoded target lacks one of the four fields is
    answered 400 with a plain-text body naming the first missing field, in
    the order URL, branch, cluster credentials, manifest path (so
    [ManifestPath is required] when only the manifest path is missing), and
    nothing is saved or registered: the state is the one before.  In every
    case, a call of [SaveSyncTarget] happens only for a target with the four
    fields set. *)
Theorem create_rejects_incomplete (newID : string) (r : Request) (s : ServerState)
    (target : SyncTarget) :
  Method r = "POST" → Decode (RequestBody r) = Ok target →
  RepoURL target = "" ∨ RepoBranch target = "" ∨ ManifestPath target = ""
  ∨ KubeConfigContent target = "" →
  let s' := (handleCreateSyncTarget Decode newID r s).1 in
  let resp := (handleCreateSyncTarget Decode newID r s).2 in
  s' = s
  ∧ StatusCode resp = 400 ∧ ContentType resp = "text/plain; charset=utf-8"
  ∧ (∃ reason, reason ∈ ["RepoURL is required"; "RepoBranch is required";
                         "KubeConfigContent is required"; "ManifestPath is required"]
               ∧ ResponseBody resp = Text (reason +:+ LF))
  ∧ (RepoURL target ≠ "" → RepoBranch target ≠ "" → KubeConfigContent target ≠ "" →
     ResponseBody resp = Text ("ManifestPath is required" +:+ LF))
  ∧ (∀ newID' r' s0,
       saveCalls (handleCreateSyncTarget Decode newID' r' s0).1 ≠ saveCalls s0 →
       ∃ target', Method r' = "POST" ∧ Decode (RequestBody r') = Ok target'
                  ∧ complete target').
Proof.
  intros Hm Hdec Hempty s' resp. subst s' resp.
  destruct (missingField_reasons target Hempty) as (reason & Hreason & Hin & Honly).
  rewrite (handleCreateSyncTarget_rejects newID r s target reason Hm Hdec Hreason). simpl.
  split; [done|]. split; [done|]. split; [done|]. split; [by exists reason|].
  split; [intros; by rewrite Honly|].
  intros newID' r' s0 Hsaved.
  destruct (handleCreateSyncTarget_saves newID' r' s0) as [Hsame | (t & ? & ? & ? & _)].
  - by rewrite Hsame in Hsaved.
  - eauto.
Qed.
End create.

Section create_examples.
Import Interfaces Server DoubleCodec.

Lemma create_rejects_incomplete_witness :
  (handleCreateSyncTarget (H := fileStorage) decodeBody "id-1" withoutPath serving).1 = serving
  ∧ ResponseBody (handleCreateSyncTarget (H := fileStorage) decodeBody "id-1" withoutPath serving).2
    = Text ("ManifestPath is required" +:+ LF).
Proof.
  destruct (create_rejects_incomplete (H := fileStorage) decodeBody "id-1" withoutPath serving
              _ eq_refl eq_refl (or_intror (or_intror (or_introl eq_refl))))
    as (Hstate & _ & _ & _ & Honly & _).
  split; [exact Hstate|]. apply Honly; discriminate.
Defined.

(** A complete request is saved and registered. *)
Example create_accepts_complete :
  let '(s, resp) :=
    handleCreateSyncTarget (H := fileStorage) decodeBody "id-1"
      {| Method := "POST"; RequestBody := "https://git.example/x.git|main|kubeconfig|k8s" |}
      serving in
  StatusCode resp = 201
  ∧ dataStorage s = holding "enc:a=u1,id-1=https://git.example/x.git"
  ∧ Worker.started (worker s) = ["id-1"].
Proof. vm_compute. done. Qed.
End create_examples.

(** ** Opening the repository *)
Section repository_setup.
Import Filepath Gitpoller.

(** X1: [NewGitPoller] returns a poller exactly when the four strings are
    not empty; the poller it returns has no hash stored and no repository,
    and until [InitializeRepo] has run every operation on it is refused with
    the error of a repository that is not initialized, [Poll] leaving the
    poller as it was. *)
Theorem new_poller_refuses_until_initialized (fs : FileSystem)
    (url branch path manifests : string) (git : GitCalls) (co : CheckoutCalls) :
  ((∃ gp, NewGitPoller url branch path manifests = Ok gp)
   ↔ url ≠ "" ∧ branch ≠ "" ∧ path ≠ "" ∧ manifests ≠ "")
  ∧ ∀ gp, NewGitPoller url branch path manifests = Ok gp →
      lastCommitHash gp = "" ∧ repository gp = None
      ∧ Poll (H := fs) gp git
        = (gp, {| changed := false; commitHash := ""; manifestFiles := [];
                  err := Some (ErrorNew "repository not initialized, call InitializeRepo first") |})
      ∧ FetchLatest gp git
        = Some (ErrorNew "repository not initialized, call InitializeRepo first")
      ∧ GetCurrentCommitHash gp git = Fail (ErrorNew "repository not initialized")
      ∧ GetManifestFiles (H := fs) gp = Fail (ErrorNew "repository not initialized")
      ∧ checkoutBranch' gp co = Some (ErrorNew "repository not initialized").
Proof.
  unfold NewGitPoller. split.
  - split.
    + intros [gp Hgp]. revert Hgp. repeat case_bool_decide; simpl; done.
    + intros (? & ? & ? & ?). rewrite !bool_decide_eq_false_2 by done. simpl. by eauto.
  - intros gp. repeat case_bool_decide; simpl; try done. by intros [= <-].
Qed.

(** [InitializeRepo] leaves the poller alone or sets its handle, and sets
    it whenever it returns no error. *)
Lemma InitializeRepo_cases (gp : GitPoller) (calls : InitCalls) :
  ((InitializeRepo gp calls).1 = gp ∧ is_Some (InitializeRepo gp calls).2)
  ∨ ∃ r, (InitializeRepo gp calls).1 = setRepository gp r
         ∧ (PlainOpen calls = Ok r ∨ PlainClone calls = Ok r).
Proof.
  unfold InitializeRepo.
  destruct (StatGit calls) as [e|].
  - destruct (IsNotExist e); [|left; by eauto].
    destruct (PlainClone calls) as [r|e']; [right; by eauto | left; by eauto].
  - destruct (PlainOpen calls) as [r|e']; [right; by eauto | left; by eauto].
Qed.

Lemma NewGitPoller_fresh (url branch path manifests : string) (gp : GitPoller) :
  NewGitPoller url branch path manifests = Ok gp →
  lastCommitHash gp = "" ∧ repository gp = None.
Proof.
  unfold NewGitPoller. repeat case_bool_decide; simpl; try done. by intros [= <-].
Qed.

(** X2: [InitializeRepo] touches nothing of the poller but its repository
    handle.  It returns no error exactly when the stat of [.git] either
    finds nothing and the clone succeeds, or succeeds and the repository
    opens, and the checkout that follows succeeds; the handle is then set to
    the repository cloned or opened.  When the stat fails for another reason,
    or the clone or the opening fails, the poller is as before and the error
    names the step that failed.  When the clone or the opening succeeds the
    handle is set before the checkout, and stays set when the checkout
    fails: the error is then the error of the checkout. *)
Theorem initialize_repo_effect (gp : GitPoller) (calls : InitCalls) :
  let gp' := (InitializeRepo gp calls).1 in
  let err := (InitializeRepo gp calls).2 in
  sameConfig gp gp' ∧ lastCommitHash gp' = lastCommitHash gp
  ∧ (err = None ↔
       ((StatGit calls = None ∧ ∃ r, PlainOpen calls = Ok r)
        ∨ (∃ e r, StatGit calls = Some e ∧ IsNotExist e = true ∧ PlainClone calls = Ok r))
       ∧ checkoutBranch' gp' (Checkout calls) = None)
  ∧ (err = None → ∃ r, repository gp' = Some r
                       ∧ (PlainOpen calls = Ok r ∨ PlainClone calls = Ok r))
  ∧ (gp' = gp ∨ ∃ r, gp' = setRepository gp r)
  ∧ (∀ e, StatGit calls = Some e → IsNotExist e = false →
       gp' = gp
       ∧ err = Some (Errorf ("error checking repository path " +:+ localPath gp) e))
  ∧ (∀ e e', StatGit calls = Some e → IsNotExist e = true → PlainClone calls = Fail e' →
       gp' = gp ∧ err = Some (Errorf "failed to clone repository" e'))
  ∧ (∀ e', StatGit calls = None → PlainOpen calls = Fail e' →
       gp' = gp ∧ err = Some (Errorf "failed to open existing repository" e'))
  ∧ (∀ r, (StatGit calls = None ∧ PlainOpen calls = Ok r)
          ∨ (∃ e, StatGit calls = Some e ∧ IsNotExist e = true ∧ PlainClone calls = Ok r) →
       gp' = setRepository gp r
       ∧ err = checkoutBranch' (setRepository gp r) (Checkout calls))
  ∧ (repository gp' ≠ repository gp →
     ∃ r, gp' = setRepository gp r
          ∧ ((StatGit calls = None ∧ PlainOpen calls = Ok r)
             ∨ (∃ e, StatGit calls = Some e ∧ IsNotExist e = true
                     ∧ PlainClone calls = Ok r))).
Proof.
  intros gp' err. subst gp' err.
  assert (Hconfig :
    sameConfig gp (InitializeRepo gp calls).1
    ∧ lastCommitHash (InitializeRepo gp calls).1 = lastCommitHash gp
    ∧ ((InitializeRepo gp calls).2 = None ↔
         ((StatGit calls = None ∧ ∃ r, PlainOpen calls = Ok r)
          ∨ (∃ e r, StatGit calls = Some e ∧ IsNotExist e = true
                    ∧ PlainClone calls = Ok r))
         ∧ checkoutBranch' (InitializeRepo gp calls).1 (Checkout calls) = None)
    ∧ ((InitializeRepo gp calls).2 = None →
       ∃ r, repository (InitializeRepo gp calls).1 = Some r
            ∧ (PlainOpen calls = Ok r ∨ PlainClone calls = Ok r))
    ∧ ((InitializeRepo gp calls).1 = gp
       ∨ ∃ r, (InitializeRepo gp calls).1 = setRepository gp r)).
  { unfold InitializeRepo, sameConfig.
    destruct (StatGit calls) as [e|] eqn:Hstat.
    - destruct (IsNotExist e) eqn:Hne.
      + destruct (PlainClone calls) as [r|e'] eqn:Hclone; simpl.
        * split; [done|]. split; [done|]. split; [|split].
          -- split; [|by intros [_ ?]].
             intros Hco. split; [right; by exists e, r | done].
          -- intros _. exists r. auto.
          -- right. by exists r.
        * split; [done|]. split; [done|]. split; [|split; [done | by left]].
          split; [done|]. intros [[[? _] | (? & ? & _ & _ & ?)] _]; done.
      + simpl. split; [done|]. split; [done|]. split; [|split; [done | by left]].
        split; [done|]. intros [[[? _] | (e0 & ? & [= <-] & ? & _)] _]; [done | congruence].
    - destruct (PlainOpen calls) as [r|e'] eqn:Hopen; simpl.
      + split; [done|]. split; [done|]. split; [|split].
        * split; [|by intros [_ ?]].
          intros Hco. split; [left; split; [done | by exists r] | done].
        * intros _. exists r. auto.
        * right. by exists r.
      + split; [done|]. split; [done|]. split; [|split; [done | by left]].
        split; [done|]. intros [[[_ [? ?]] | (? & ? & ? & _)] _]; done. }
  destruct Hconfig as (Hsame & Hhash & Hnone & Hrepo & Hhandle).
  split; [done|]. split; [done|]. split; [done|]. split; [done|]. split; [done|].
  unfold InitializeRepo. split; [|split; [|split; [|split]]].
  - intros e -> ->. done.
  - intros e e' -> -> ->. done.
  - intros e' -> ->. done.
  - intros r [[-> ->] | (e & -> & -> & ->)]; done.
  - destruct (StatGit calls) as [e|].
    + destruct (IsNotExist e) eqn:Hne; [|done].
      destruct (PlainClone calls) as [r|e']; [|done]. simpl.
      intros _. exists r. split; [done|]. right. by exists e.
    + destruct (PlainOpen calls) as [r|e']; [|done]. simpl.
      intros _. exists r. split; [done|]. by left.
Qed.

(** X3: the checkout succeeds in two ways only.  When the local branch is
    found it is checked out with force; when the lookup answers that the
    reference is not found, the branch is created from [origin/<branch>],
    which must exist.  Any other failure of the lookup, of the work tree or
    of the checkout itself is an error, and so is a poller without a
    repository. *)
Theorem checkout_branch_outcome (gp : GitPoller) (git : CheckoutCalls) :
  checkoutBranch' gp git = None ↔
    is_Some (repository gp) ∧ CheckoutWorktree git = None
    ∧ ((LocalReference git = None ∧ CheckoutForce git = None)
       ∨ (LocalReference git = Some ErrReferenceNotFound
          ∧ (∃ h, RemoteBranchReference git = Ok h) ∧ CheckoutCreate git = None)).
Proof.
  unfold checkoutBranch'.
  destruct (repository gp) as [r|]; [|split; [done | by intros [[? ?] _]]].
  destruct (CheckoutWorktree git) as [e|]; [split; [done | by intros (_ & ? & _)]|].
  destruct (LocalReference git) as [e|].
  - case_bool_decide as Hnf.
    + subst e. destruct (RemoteBranchReference git) as [h|e].
      * destruct (CheckoutCreate git) as [e|].
        -- split; [done|]. intros (_ & _ & [[? _] | (_ & _ & ?)]); done.
        -- split; [|done]. intros _. split; [by eexists|]. split; [done|].
           right. split; [done|]. split; [by exists h | done].
      * split; [done|]. intros (_ & _ & [[? _] | (_ & [? ?] & _)]); done.
    + split; [done|]. intros (_ & _ & [[? _] | ([= ?] & _)]); done.
  - destruct (CheckoutForce git) as [e|].
    + split; [done|]. intros (_ & _ & [[_ ?] | (? & _)]); done.
    + split; [|done]. intros _. split; [by eexists|]. split; [done|]. by left.
Qed.

(** X4: from construction to the first poll.  A poller made by
    [NewGitPoller] and opened by [InitializeRepo] without error has its
    first poll report a change as soon as the fetch goes well, HEAD is read
    and the manifests are listed, whatever the hash is: the poll stores the
    hash and returns it with the files listed.  Polled again at the same
    hash, which as a commit hash is not the empty string, it reports no
    change and no file. *)
Theorem first_poll_after_initialize (fs : FileSystem) (url branch path manifests : string)
    (gp0 gp : GitPoller) (calls : InitCalls) (git : GitCalls) (h : string)
    (files : list string) :
  NewGitPoller url branch path manifests = Ok gp0 →
  InitializeRepo gp0 calls = (gp, None) →
  observed gp git = Some h →
  GetManifestFiles (H := fs) gp = Ok files →
  Poll (H := fs) gp git
  = (setLastCommitHash gp h,
     {| changed := true; commitHash := h; manifestFiles := files; err := None |})
  ∧ (h ≠ "" →
     Poll (H := fs) (setLastCommitHash gp h) git
     = (setLastCommitHash gp h,
        {| changed := false; commitHash := h; manifestFiles := []; err := None |})).
Proof.
  intros Hnew Hinit Hobs Hfiles.
  destruct (NewGitPoller_fresh _ _ _ _ _ Hnew) as [Hlast0 _].
  assert (Hgp : ∃ r, gp = setRepository gp0 r).
  { destruct (InitializeRepo_cases gp0 calls) as [[_ Herr] | (r & Hr & _)];
      rewrite Hinit in *; simpl in *; [by destruct Herr | by exists r]. }
  destruct Hgp as [r ->].
  assert (Hlast : lastCommitHash (setRepository gp0 r) = "") by done.
  assert (Hrepo : repository (setRepository gp0 r) = Some r) by done.
  revert Hobs Hfiles Hlast Hrepo. generalize (setRepository gp0 r). clear Hinit.
  intros gp Hobs Hfiles Hlast Hrepo.
  revert Hobs. unfold observed, Poll, GetCurrentCommitHash. simpl. rewrite Hrepo.
  destruct (FetchLatest gp git) as [e|] eqn:Hfetch; [done|].
  destruct (Head git) as [h'|e]; [|done]. intros [= ->].
  rewrite FetchLatest_setLastCommitHash, Hfetch.
  rewrite (bool_decide_eq_true_2 (lastCommitHash gp = "")) by done.
  rewrite GetManifestFiles_setLastCommitHash, Hfiles. split; [done|].
  intros Hh. simpl.
  rewrite (bool_decide_eq_false_2 (h = "")) by done.
  rewrite (bool_decide_eq_false_2 (h ≠ h)) by (intros Hne; by apply Hne).
  done.
Qed.
End repository_setup.

Section repository_examples.
Import Filepath Gitpoller.

Lemma first_poll_after_initialize_witness :
  NewGitPoller "https://git.example/x.git" "main" "/tmp/go-argo-lite-repos/t1" "k8s"
  = Ok clonePoller
  ∧ InitializeRepo clonePoller cloning = (setRepository clonePoller OpenRepository, None)
  ∧ Poll (H := cloneTree) (setRepository clonePoller OpenRepository) (remoteAt "c0ffee")
    = (setLastCommitHash (setRepository clonePoller OpenRepository) "c0ffee",
       {| changed := true; commitHash := "c0ffee";
          manifestFiles := ["/tmp/go-argo-lite-repos/t1/k8s/a.yaml"]; err := None |}).
Proof.
  assert (Hnew : NewGitPoller "https://git.example/x.git" "main"
                   "/tmp/go-argo-lite-repos/t1" "k8s" = Ok clonePoller)
    by (vm_compute; reflexivity).
  assert (Hinit : InitializeRepo clonePoller cloning
                  = (setRepository clonePoller OpenRepository, None))
    by (vm_compute; reflexivity).
  split; [exact Hnew|]. split; [exact Hinit|].
  assert (Hobs : observed (setRepository clonePoller OpenRepository) (remoteAt "c0ffee")
                 = Some "c0ffee") by (vm_compute; reflexivity).
  assert (Hfiles : GetManifestFiles (H := cloneTree) (setRepository clonePoller OpenRepository)
                   = Ok ["/tmp/go-argo-lite-repos/t1/k8s/a.yaml"])
    by (vm_compute; reflexivity).
  exact (proj1 (first_poll_after_initialize cloneTree _ _ _ _ clonePoller
                  (setRepository clonePoller OpenRepository) cloning (remoteAt "c0ffee")
                  "c0ffee" ["/tmp/go-argo-lite-repos/t1/k8s/a.yaml"]
                  Hnew Hinit Hobs Hfiles)).
Defined.
End repository_examples.

(** ** What a poll changes *)
Section poll_effects.
Import Filepath Gitpoller.

(** X5: a poll changes nothing of the poller but the stored hash; the
    repository handle and the four configured strings are as before.  The
    stored hash changes only to the hash the poll returns, and a hash the
    poll returns is always the one left stored.  Files are returned only with
    a change and without an error. *)
Theorem poll_effect (fs : FileSystem) (gp : GitPoller) (git : GitCalls) :
  let gp' := (Poll (H := fs) gp git).1 in
  let r := (Poll (H := fs) gp git).2 in
  sameConfig gp gp' ∧ repository gp' = repository gp
  ∧ (lastCommitHash gp' = lastCommitHash gp ∨ lastCommitHash gp' = commitHash r)
  ∧ (commitHash r = "" ∨ commitHash r = lastCommitHash gp')
  ∧ (err r = None → commitHash r = lastCommitHash gp')
  ∧ (is_Some (err r) → manifestFiles r = [])
  ∧ (changed r = false → manifestFiles r = []).
Proof.
  intros gp' r. subst gp' r. unfold Poll, sameConfig.
  destruct (repository gp) as [r0|] eqn:Hrepo;
    [|simpl; repeat split; auto; by rewrite ?Hrepo].
  destruct (FetchLatest gp git) as [e|]; [by simpl; repeat split; auto|].
  destruct (GetCurrentCommitHash gp git) as [h|e]; [|by simpl; repeat split; auto].
  case_bool_decide as Hfirst.
  - destruct (GetManifestFiles _) as [files|e]; simpl; repeat split; auto;
      try done; by intros [? ?].
  - case_bool_decide as Hnew.
    + destruct (GetManifestFiles _) as [files|e]; simpl; repeat split; auto;
        try done; by intros [? ?].
    + by simpl; repeat split; auto.
Qed.

(** X6: a fetch that answers that the branch is already up to date is no
    failure: [FetchLatest] goes on as after a fetch without error.  Any other
    error of the fetch ends it at once, wrapped, before the work tree is
    touched. *)
Theorem fetch_already_up_to_date (gp : GitPoller) (git : GitCalls) :
  FetchLatest gp (withFetch git (Some NoErrAlreadyUpToDate))
  = FetchLatest gp (withFetch git None)
  ∧ ∀ e, e ≠ NoErrAlreadyUpToDate → is_Some (repository gp) →
      FetchLatest gp (withFetch git (Some e)) = Some (Errorf "failed to fetch from remote" e).
Proof.
  unfold FetchLatest. split.
  - destruct (repository gp); [|done]. simpl.
    by repeat case_bool_decide.
  - intros e He [r ->]. simpl. by rewrite bool_decide_eq_true_2.
Qed.
End poll_effects.

(** ** The extension of a manifest *)
Section extensions.
Import GoStrings Filepath Gitpoller Tree.

Lemma get_lt (s : string) (k : nat) : k < String.length s → ∃ c, String.get k s = Some c.
Proof.
  revert k. induction s as [|a s IH]; intros k; simpl; [lia|].
  destruct k; [by eauto|]. intros ?. apply IH. lia.
Qed.

Lemma get_append_r (p r : string) (k : nat) :
  String.get (String.length p + k) (p +:+ r) = String.get k r.
Proof. induction p as [|a p IH]; [done|]. by rewrite append_cons. Qed.

(** The extension is a suffix of the path. *)
Lemma extLoop_suffix (i : nat) (path : string) : ∃ stem, path = stem +:+ extLoop i path.
Proof.
  induction i as [|j IH]; simpl.
  - exists path. by rewrite append_nil_r.
  - destruct (String.get j path) as [c|]; [|exists path; by rewrite append_nil_r].
    destruct (IsPathSeparator c); [exists path; by rewrite append_nil_r|].
    destruct (decide (c = "."%char)); [|done].
    exists (stake j path). by rewrite stake_sdrop.
Qed.

(** A dot followed by bytes that are neither dots nor separators is the
    extension. *)
Lemma extLoop_dot (stem suffix : string) (k : nat) :
  (∀ j c, String.get j suffix = Some c → c ≠ "."%char ∧ c ≠ "/"%char) →
  k ≤ String.length suffix →
  extLoop (String.length stem + 1 + k) (stem +:+ String "." suffix) = String "." suffix.
Proof.
  intros Hplain. induction k as [|k IH]; intros Hk.
  - replace (String.length stem + 1 + 0) with (S (String.length stem + 0)) by lia.
    cbn [extLoop]. rewrite get_append_r. simpl.
    rewrite Nat.add_0_r. by rewrite sdrop_append.
  - replace (String.length stem + 1 + S k) with (S (String.length stem + S k)) by lia.
    cbn [extLoop]. rewrite get_append_r. simpl.
    destruct (get_lt suffix k) as [c Hc]; [lia|]. rewrite Hc.
    destruct (Hplain k c Hc) as [Hdot Hsep].
    unfold IsPathSeparator. rewrite bool_decide_eq_false_2 by done.
    rewrite decide_False by done.
    replace (String.length stem + S k) with (String.length stem + 1 + k) by lia.
    apply IH. lia.
Qed.

Lemma Ext_dot (stem suffix : string) :
  (∀ j c, String.get j suffix = Some c → c ≠ "."%char ∧ c ≠ "/"%char) →
  Ext (stem +:+ String "." suffix) = String "." suffix.
Proof.
  intros Hplain. unfold Ext. rewrite length_append. simpl.
  replace (String.length stem + S (String.length suffix))
    with (String.length stem + 1 + String.length suffix) by lia.
  by apply extLoop_dot.
Qed.

Lemma isManifestName_suffix (name : string) :
  isManifestName name = true
  ↔ (∃ stem, name = stem +:+ ".yaml") ∨ (∃ stem, name = stem +:+ ".yml").
Proof.
  unfold isManifestName. rewrite orb_true_iff, !bool_decide_eq_true. split.
  - destruct (extLoop_suffix (String.length name) name) as [stem Hstem].
    fold (Ext name) in Hstem.
    intros [Hext|Hext]; rewrite Hext in Hstem; [left | right]; by exists stem.
  - intros [[stem ->]|[stem ->]]; [left | right]; apply Ext_dot.
    + intros [|[|[|[|j]]]] c; simpl; intros [= <-]; done.
    + intros [|[|[|j]]] c; simpl; intros [= <-]; done.
Qed.

(** X7: the entry test of [GetManifestFiles] is a test on the end of the
    name.  An entry is collected exactly when it is not a directory and its
    name ends, byte for byte, in [.yaml] or in [.yml]; a name that is only
    the extension counts, one in capitals does not.  An entry that is not
    collected is passed over without an error. *)
Theorem manifest_extension_is_suffix (gp : GitPoller) (manifestDir path : string)
    (d : DirEntry) (files : list string) :
  let yaml := (∃ stem, Name d = stem +:+ ".yaml") ∨ (∃ stem, Name d = stem +:+ ".yml") in
  (isManifestName (Name d) = true ↔ yaml)
  ∧ (visit gp manifestDir path (Some d) None files = (files ++ [path], None)
     ↔ IsDir d = false ∧ yaml)
  ∧ (visit gp manifestDir path (Some d) None files = (files ++ [path], None)
     ∨ visit gp manifestDir path (Some d) None files = (files, None))
  ∧ isManifestName ".yaml" = true ∧ isManifestName "a.YAML" = false
  ∧ isManifestName "a.yaml.bak" = false.
Proof.
  intros yaml. subst yaml. split; [apply isManifestName_suffix|].
  assert (Hvisit : visit gp manifestDir path (Some d) None files
                   = (if negb (IsDir d) && isManifestName (Name d)
                      then files ++ [path] else files, None)).
  { unfold visit, isManifestName. destruct (IsDir d); simpl; [done|].
    by destruct (bool_decide (Ext (Name d) = ".yaml") || bool_decide (Ext (Name d) = ".yml")). }
  rewrite Hvisit. split; [|split; [|done]].
  - rewrite <- (isManifestName_suffix (Name d)).
    destruct (IsDir d), (isManifestName (Name d)); simpl; split; try done;
      try (by intros [? ?]);
      intros [= Heq]; symmetry in Heq; by apply app_singleton_ne in Heq.
  - destruct (negb (IsDir d) && isManifestName (Name d)); auto.
Qed.
End extensions.

(** ** The requests of the applier *)
Section requests.
Import GoStrings Kubehandler Documents.
Context `{Manifests} `{ClusterAPI}.

(** [List.find] returns the first element that passes the test. *)
Lemma find_first {A : Type} (f : A → bool) (l : list A) (x : A) :
  List.find f l = Some x
  ↔ ∃ before after, l = before ++ x :: after ∧ f x = true
                    ∧ Forall (λ y, f y = false) before.
Proof.
  induction l as [|a l IH]; simpl.
  - split; [done|]. intros (before & after & Heq & _). by destruct before.
  - destruct (f a) eqn:Hfa.
    + split.
      * intros [= <-]. by exists [], l.
      * intros ([|b before] & after & Heq & Hfx & Hbefore); simpl in Heq.
        -- by injection Heq as <- _.
        -- injection Heq as <- _. apply Forall_cons in Hbefore as [Hfb _]. congruence.
    + rewrite IH. split.
      * intros (before & after & -> & Hfx & Hbefore). exists (a :: before), after.
        split; [done|]. split; [done|]. by constructor.
      * intros ([|b before] & after & Heq & Hfx & Hbefore); simpl in Heq.
        -- injection Heq as <- _. congruence.
        -- injection Heq as <- ->. apply Forall_cons in Hbefore as [_ Hbefore].
           by exists before, after.
Qed.

Lemma find_none_iff {A : Type} (f : A → bool) (l : list A) :
  List.find f l = None ↔ Forall (λ y, f y = false) l.
Proof.
  induction l as [|a l IH]; simpl; [split; [by constructor | done]|].
  destruct (f a) eqn:Hfa.
  - split; [done|]. intros [Hfa' _]%Forall_cons. congruence.
  - rewrite IH. split; [by constructor | by intros [_ ?]%Forall_cons].
Qed.

(** X8: discovery is asked for the group and version of the object,
    written [version] for the core group and [group/version] otherwise, and
    [findAPIResource] returns the first resource of the answer whose kind is
    the kind of the object.  It fails exactly when discovery fails or no
    resource of the answer has that kind. *)
Theorem find_api_resource_first_match (c : Cluster) (gvk : GroupVersionKind) :
  let gv := GroupVersionString gvk in
  (∀ res, findAPIResource c gvk = Ok res
          ↔ ∃ before after,
              ServerResourcesForGroupVersion c gv = Ok (before ++ res :: after)
              ∧ ResourceKind res = Kind gvk
              ∧ Forall (λ r, ResourceKind r ≠ Kind gvk) before)
  ∧ ((∃ e, findAPIResource c gvk = Fail e)
     ↔ (∃ e, ServerResourcesForGroupVersion c gv = Fail e)
       ∨ ∃ rs, ServerResourcesForGroupVersion c gv = Ok rs
               ∧ Forall (λ r, ResourceKind r ≠ Kind gvk) rs)
  ∧ (Group gvk = "" → gv = Version gvk)
  ∧ (Group gvk ≠ "" → gv = Group gvk +:+ "/" +:+ Version gvk).
Proof.
  intros gv. subst gv. unfold findAPIResource.
  split; [|split; [|split]].
  - intros res.
    destruct (ServerResourcesForGroupVersion c (GroupVersionString gvk)) as [rs|e].
    + destruct (List.find _ rs) as [res'|] eqn:Hfind.
      * split.
        -- intros [= <-]. apply find_first in Hfind as (before & after & -> & Hk & Hb).
           exists before, after. split; [done|].
           split; [by apply bool_decide_eq_true in Hk|].
           eapply Forall_impl; [exact Hb|]. intros r Hr. by apply bool_decide_eq_false in Hr.
        -- intros (before & after & [= ->] & Hk & Hb).
           assert (Hfind' : List.find (λ resource, bool_decide (ResourceKind resource = Kind gvk))
                              (before ++ res :: after) = Some res).
           { apply find_first. exists before, after. split; [done|].
             split; [by apply bool_decide_eq_true|].
             eapply Forall_impl; [exact Hb|]. intros r Hr. by apply bool_decide_eq_false. }
           congruence.
      * split; [done|]. intros (before & after & [= ->] & Hk & _).
        apply find_none_iff in Hfind. apply Forall_app in Hfind as [_ Hfind].
        apply Forall_cons in Hfind as [Hres _]. by apply bool_decide_eq_false in Hres.
    + split; [done|]. by intros (? & ? & ? & _).
  - destruct (ServerResourcesForGroupVersion c (GroupVersionString gvk)) as [rs|e].
    + destruct (List.find _ rs) as [res'|] eqn:Hfind.
      * split; [by intros [? ?]|]. intros [[? ?]|(rs' & [= <-] & Hnone)]; [done|].
        apply find_first in Hfind as (before & after & -> & Hk & _).
        apply Forall_app in Hnone as [_ Hnone]. apply Forall_cons in Hnone as [Hres _].
        by apply bool_decide_eq_true in Hk.
      * split; [|by eauto]. intros _. right. exists rs. split; [done|].
        apply find_none_iff in Hfind. eapply Forall_impl; [exact Hfind|].
        intros r Hr. by apply bool_decide_eq_false in Hr.
    + split; [|by eauto]. intros _. left. by exists e.
  - intros Hg. unfold GroupVersionString. by rewrite bool_decide_eq_true_2.
  - intros Hg. unfold GroupVersionString. by rewrite bool_decide_eq_false_2.
Qed.





Lemma send_snoc (c : Cluster) (calls : list PatchCall) (call : PatchCall) :
  send c (calls ++ [call]) = (Patch (send c calls) call).1.
Proof. unfold send. by rewrite foldl_app. Qed.

(** One document: the cluster moves by the request sent, if any, and the
    document leaves a message, a request, or both. *)
Lemma applyDocument_counts (c : Cluster) (i : nat) (doc : string) (st : ApplyState) :
  cluster st = send c (patches st) →
  cluster (applyDocument i doc st) = send c (patches (applyDocument i doc st))
  ∧ length (applyErrors (applyDocument i doc st)) ≤ S (length (applyErrors st))
  ∧ length (patches (applyDocument i doc st)) ≤ S (length (patches st))
  ∧ S (length (applyErrors st) + length (patches st))
    ≤ length (applyErrors (applyDocument i doc st)) + length (patches (applyDocument i doc st)).
Proof.
  intros Hc. unfold applyDocument.
  destruct (YAMLToJSON doc) as [jsonData|e];
    [|simpl; rewrite length_app; simpl; repeat split; [done | lia..]].
  destruct (UnmarshalJSON jsonData) as [obj|e];
    [|simpl; rewrite length_app; simpl; repeat split; [done | lia..]].
  destruct (bool_decide (GetKind obj = "") || bool_decide (GetAPIVersion obj = ""));
    [simpl; rewrite length_app; simpl; repeat split; [done | lia..]|].
  destruct (findAPIResource (cluster st) (ObjectGroupVersionKind obj)) as [res|e];
    [|simpl; rewrite length_app; simpl; repeat split; [done | lia..]].
  destruct (Patch (cluster st) (patchRequest obj jsonData res)) as [c' [e|]] eqn:Hp; simpl;
    rewrite send_snoc, <- Hc, Hp, ?length_app; simpl; repeat split; try done; lia.
Qed.

Lemma foldl_step_counts (c : Cluster) (docs : list (nat * string)) (st : ApplyState) :
  cluster st = send c (patches st) →
  cluster (foldl step st docs) = send c (patches (foldl step st docs))
  ∧ length (applyErrors (foldl step st docs)) ≤ length (applyErrors st) + length docs
  ∧ length (patches (foldl step st docs)) ≤ length (patches st) + length docs
  ∧ length (applyErrors st) + length (patches st) + length docs
    ≤ length (applyErrors (foldl step st docs)) + length (patches (foldl step st docs)).
Proof.
  revert st. induction docs as [|[i doc] docs IH]; intros st Hc; simpl.
  - repeat split; [done | lia..].
  - destruct (applyDocument_counts c i doc st Hc) as (Hc' & He & Hp & Hsum).
    destruct (IH (step st (i, doc)) Hc') as (Hc'' & He' & Hp' & Hsum').
    unfold step in *. simpl in *. repeat split; [done | lia..].
Qed.

(** X10: the applier changes the cluster through its requests only: the
    cluster after a file is the cluster before with the requests of the
    file sent in order, and is the cluster before when none was sent or the
    file could not be read. *)
Theorem cluster_moves_by_requests (filePath : string) (c : Cluster) :
  let st := (ApplyManifestFile filePath c).1 in
  cluster st = send c (patches st)
  ∧ (patches st = [] → cluster st = c)
  ∧ (∀ e, ReadFile filePath = Fail e → cluster st = c ∧ patches st = []).
Proof.
  intros st.
  assert (Hc : cluster st = send c (patches st)).
  { subst st. unfold ApplyManifestFile.
    destruct (ReadFile filePath) as [content|e]; [|done].
    rewrite applyLoop_candidates.
    destruct (foldl_step_counts c (candidateDocs 0 (Split content "---"))
                {| cluster := c; applyErrors := []; patches := [] |} eq_refl) as [Hc _].
    by case_bool_decide. }
  split; [done|]. split.
  - intros Hnone. by rewrite Hc, Hnone.
  - intros e Hread. subst st. unfold ApplyManifestFile. by rewrite Hread.
Qed.

(** X11: every candidate document of a file that was read leaves a trace,
    and at most one of each kind: there are at most as many messages as
    candidate documents and at most as many requests, and together at least
    as many.  A file without a candidate document, such as an empty file or
    one of separators and blank lines, returns no error and sends
    nothing. *)
Theorem apply_file_accounting (filePath content : string) (c : Cluster) :
  ReadFile filePath = Ok content →
  let docs := candidateDocs 0 (Split content "---") in
  let st := (ApplyManifestFile filePath c).1 in
  length (applyErrors st) ≤ length docs
  ∧ length (patches st) ≤ length docs
  ∧ length docs ≤ length (applyErrors st) + length (patches st)
  ∧ (docs = [] → ApplyManifestFile filePath c = (initialState c, None)).
Proof.
  intros Hread docs st.
  assert (Hst : st = foldl step (initialState c) docs).
  { subst st docs. unfold ApplyManifestFile. rewrite Hread, applyLoop_candidates.
    by case_bool_decide. }
  destruct (foldl_step_counts c docs (initialState c) eq_refl) as (_ & He & Hp & Hsum).
  rewrite <- Hst in He, Hp, Hsum. simpl in He, Hp, Hsum.
  split; [done|]. split; [done|]. split; [lia|].
  intros Hnone. unfold ApplyManifestFile. rewrite Hread, applyLoop_candidates.
  fold docs. by rewrite Hnone.
Qed.

(** A document leaves no message, or one that starts with its number. *)
Lemma applyDocument_message (i : nat) (doc : string) (st : ApplyState) :
  applyErrors (applyDocument i doc st) = applyErrors st
  ∨ ∃ rest, applyErrors (applyDocument i doc st) = applyErrors st ++ [docNo i +:+ rest].
Proof.
  unfold applyDocument.
  destruct (YAMLToJSON doc) as [jsonData|e]; [|right; by eexists].
  destruct (UnmarshalJSON jsonData) as [obj|e]; [|right; by eexists].
  destruct (bool_decide (GetKind obj = "") || bool_decide (GetAPIVersion obj = ""));
    [right; by eexists|].
  destruct (findAPIResource (cluster st) (ObjectGroupVersionKind obj)) as [res|e];
    [|right; by eexists].
  destruct (Patch (cluster st) (patchRequest obj jsonData res)) as [c' [e|]]; simpl;
    [right; by eexists | by left].
Qed.

Lemma foldl_step_messages (docs : list (nat * string)) (st : ApplyState) (msg : string) :
  msg ∈ applyErrors (foldl step st docs) →
  msg ∈ applyErrors st ∨ ∃ i doc rest, (i, doc) ∈ docs ∧ msg = docNo i +:+ rest.
Proof.
  revert st. induction docs as [|[i doc] docs IH]; intros st; simpl; [by left|].
  intros [Hin | (j & d & rest & Hd & ->)]%IH.
  - unfold step in Hin. simpl in Hin.
    destruct (applyDocument_message i doc st) as [Hsame | [rest Hmore]].
    + left. by rewrite <- Hsame.
    + rewrite Hmore in Hin. apply elem_of_app in Hin as [?|Heq%list_elem_of_singleton];
        [by left|]. right. exists i, doc, rest. split; [by left | done].
  - right. exists j, d, rest. split; [by right | done].
Qed.

(** X12: every message of the applier names its document.  A message
    recorded for a file starts with [doc #] and the number of a candidate
    document of the file, its position among the partitions counted from
    one; and the error returned for the file is made of the messages, each on
    a line of its own after a dash, under one heading. *)
Theorem messages_name_their_document (filePath content : string) (c : Cluster) :
  ReadFile filePath = Ok content →
  let st := (ApplyManifestFile filePath c).1 in
  (∀ msg, msg ∈ applyErrors st →
     ∃ i piece rest, Split content "---" !! i = Some piece ∧ TrimSpace piece ≠ ""
                     ∧ msg = "doc #" +:+ pretty (i + 1) +:+ rest)
  ∧ ∀ e, (ApplyManifestFile filePath c).2 = Some e →
         applyErrors st ≠ []
         ∧ Error e = "encountered errors during manifest application:" +:+ LF +:+ " - "
                     +:+ Join (applyErrors st) (LF +:+ " - ").
Proof.
  intros Hread st.
  assert (Hst : st = foldl step (initialState c) (candidateDocs 0 (Split content "---"))).
  { subst st. unfold ApplyManifestFile. rewrite Hread, applyLoop_candidates.
    by case_bool_decide. }
  split.
  - intros msg Hin. rewrite Hst in Hin.
    apply foldl_step_messages in Hin as [?%elem_of_nil | (i & doc & rest & Hd & ->)];
      [done|].
    apply candidateDocs_elem in Hd as (piece & _ & Hl & -> & Hne).
    rewrite Nat.sub_0_r in Hl. exists i, piece, rest. split; [done|]. split; [done|].
    unfold docNo. by rewrite append_assoc.
  - intros e. subst st. unfold ApplyManifestFile. rewrite Hread.
    case_bool_decide as Hlen; [|done]. simpl. intros [= <-]. split; [|done].
    intros Hnil. rewrite Hnil in Hlen. simpl in Hlen. lia.
Qed.
End requests.

Section requests_examples.
Import GoStrings Kubehandler Documents.

Lemma apply_file_accounting_witness :
  ReadFile (ClusterAPI := Double.clusterWith [("m.yaml", mixed)]) "m.yaml" = Ok mixed
  ∧ length (candidateDocs 0 (Split mixed "---")) = 4
  ∧ length (patches (ApplyManifestFile (H := Double.manifests)
                       (H0 := Double.clusterWith [("m.yaml", mixed)]) "m.yaml" []).1)
    ≤ length (candidateDocs 0 (Split mixed "---"))
  ∧ ApplyManifestFile (H := Double.manifests)
      (H0 := Double.clusterWith [("blank.yaml", "---" +:+ LF +:+ "  " +:+ LF +:+ "---")])
      "blank.yaml" []
    = (initialState (H0 := Double.clusterWith [("blank.yaml", "---" +:+ LF +:+ "  " +:+ LF +:+ "---")]) [],
       None).
Proof.
  split; [reflexivity|]. split; [vm_compute; reflexivity|]. split.
  - exact (proj1 (proj2
      (apply_file_accounting (H := Double.manifests)
         (H0 := Double.clusterWith [("m.yaml", mixed)]) "m.yaml" mixed [] eq_refl))).
  - apply (proj2 (proj2 (proj2
      (apply_file_accounting (H := Double.manifests)
         (H0 := Double.clusterWith [("blank.yaml", "---" +:+ LF +:+ "  " +:+ LF +:+ "---")])
         "blank.yaml" ("---" +:+ LF +:+ "  " +:+ LF +:+ "---") [] eq_refl)))).
    vm_compute. reflexivity.
Defined.

Lemma messages_name_their_document_witness :
  ReadFile (ClusterAPI := Double.clusterWith [("m.yaml", mixed)]) "m.yaml" = Ok mixed
  ∧ applyErrors (ApplyManifestFile (H := Double.manifests)
                   (H0 := Double.clusterWith [("m.yaml", mixed)]) "m.yaml" []).1
    = ["doc #2: JSON unmarshalling failed: Object 'Kind' is missing in 'null'";
       "doc #4 (ConfigMap denied): apply failed: forbidden"]
  ∧ ∃ i piece rest,
      Split mixed "---" !! i = Some piece ∧ TrimSpace piece ≠ ""
      ∧ "doc #4 (ConfigMap denied): apply failed: forbidden"
        = "doc #" +:+ pretty (i + 1) +:+ rest.
Proof.
  split; [reflexivity|].
  assert (Herrors : applyErrors (ApplyManifestFile (H := Double.manifests)
                                   (H0 := Double.clusterWith [("m.yaml", mixed)]) "m.yaml" []).1
                    = ["doc #2: JSON unmarshalling failed: Object 'Kind' is missing in 'null'";
                       "doc #4 (ConfigMap denied): apply failed: forbidden"])
    by (vm_compute; reflexivity).
  split; [exact Herrors|].
  apply (proj1 (messages_name_their_document (H := Double.manifests)
                  (H0 := Double.clusterWith [("m.yaml", mixed)]) "m.yaml" mixed [] eq_refl)).
  rewrite Herrors. apply elem_of_cons. right. apply list_elem_of_singleton. reflexivity.
Defined.
End requests_examples.

(** ** The catalog on disk *)
Section catalog_writes.
Import Interfaces Storage.
Context `{Codec}.

(** An error of [LoadSyncTargets] comes with the nil slice and is never the
    error of a missing file. *)
Lemma LoadSyncTargets_error (s : EncryptedFileStorage) (d : Disk) (e : error) :
  (LoadSyncTargets s d).2 = Some e → (LoadSyncTargets s d).1 = [] ∧ IsNotExist e = false.
Proof.
  unfold LoadSyncTargets. destruct (osReadFile (FilePath s) d) as [data|e0].
  - case_bool_decide; [done|].
    destruct (Decrypt data (EncryptionKey s)) as [plain|e1]; [|by intros [= <-]].
    destruct (Unmarshal plain) as [targets|e2]; [done | by intros [= <-]].
  - destruct (IsNotExist e0); [done | by intros [= <-]].
Qed.

(** The three ways the write of a list ends: the file holds the bytes; an
    error with the file as it was; an error after the file was opened, with
    the file cut to the bytes written so far. *)
Lemma written_cases (s : EncryptedFileStorage) (targets : list SyncTarget) (d : Disk) :
  (∃ encryptedData, written s targets d
                    = ({| file := Contents encryptedData; writeErr := None |}, None))
  ∨ (∃ msg e, written s targets d = (d, Some (Errorf msg e))
              ∧ msg ≠ "failed to load existing sync targets before saving"
              ∧ ((∃ e', MarshalIndent targets = Fail e')
                 ∨ (∃ jsonData e', MarshalIndent targets = Ok jsonData
                                   ∧ Encrypt jsonData (EncryptionKey s) = Fail e')
                 ∨ writeErr d = Some (OpenFails e)))
  ∨ ∃ n e jsonData encryptedData,
      writeErr d = Some (WriteFails n e)
      ∧ MarshalIndent targets = Ok jsonData
      ∧ Encrypt jsonData (EncryptionKey s) = Ok encryptedData
      ∧ written s targets d
        = ({| file := Contents (GoStrings.stake n encryptedData); writeErr := writeErr d |},
           Some (Errorf ("failed to write sync targets to file '" +:+ FilePath s +:+ "'") e)).
Proof.
  unfold written. destruct (MarshalIndent targets) as [jsonData|e] eqn:Hj.
  2: { right. left. eexists _, e. split; [done|]. split; [done|]. left. by eauto. }
  destruct (Encrypt jsonData (EncryptionKey s)) as [encryptedData|e] eqn:He.
  2: { right. left. eexists _, e. split; [done|]. split; [done|]. right. left. by eauto. }
  destruct (writeErr d) as [[e|n e]|] eqn:Hw.
  - right. left. eexists _, e. split; [done|]. split; [|by auto].
    intros Hmsg. cbv in Hmsg. discriminate Hmsg.
  - right. right. by exists n, e, jsonData, encryptedData.
  - left. by eauto.
Qed.

(** X13: [SaveSyncTarget] never refuses to save because of what the file
    holds, and its write is not atomic.  Whatever the load returns, it goes
    on with the upsert of the list loaded, which after any error of the load
    (a file that cannot be read, decrypted or decoded) is the list of the
    argument alone; the error for a failed load that the code provides for
    is never returned.  A save that returns no error leaves the file with the
    bytes written.  A save that returns an error leaves the file as it was
    when the list does not encode or encrypt or the file does not open for
    writing; when the write fails after the open, the file is left cut to
    the bytes written so far, and with none written the catalog that was
    there is gone: the file then loads as an empty catalog, without error. *)
Theorem save_never_refuses (s : EncryptedFileStorage) (target : SyncTarget) (d : Disk) :
  let saved := upsert (LoadSyncTargets s d).1 target in
  SaveSyncTarget s target d = written s saved d
  ∧ (is_Some (LoadSyncTargets s d).2 → SaveSyncTarget s target d = written s [target] d)
  ∧ (∀ e, (SaveSyncTarget s target d).2
          ≠ Some (Errorf "failed to load existing sync targets before saving" e))
  ∧ ((SaveSyncTarget s target d).2 = None →
     ∃ encryptedData, (SaveSyncTarget s target d).1
                      = {| file := Contents encryptedData; writeErr := None |})
  ∧ (is_Some (SaveSyncTarget s target d).2 →
     (SaveSyncTarget s target d).1 = d
     ∨ ∃ n e jsonData encryptedData,
         writeErr d = Some (WriteFails n e)
         ∧ MarshalIndent saved = Ok jsonData
         ∧ Encrypt jsonData (EncryptionKey s) = Ok encryptedData
         ∧ (SaveSyncTarget s target d).1
           = {| file := Contents (GoStrings.stake n encryptedData); writeErr := writeErr d |})
  ∧ ((∀ n e, writeErr d ≠ Some (WriteFails n e)) →
     is_Some (SaveSyncTarget s target d).2 → (SaveSyncTarget s target d).1 = d)
  ∧ (∀ n e jsonData encryptedData,
       writeErr d = Some (WriteFails n e) → MarshalIndent saved = Ok jsonData →
       Encrypt jsonData (EncryptionKey s) = Ok encryptedData →
       SaveSyncTarget s target d
       = ({| file := Contents (GoStrings.stake n encryptedData); writeErr := writeErr d |},
          Some (Errorf ("failed to write sync targets to file '" +:+ FilePath s +:+ "'") e))
       ∧ (n = 0 → LoadSyncTargets s (SaveSyncTarget s target d).1 = ([], None))).
Proof.
  intros saved.
  assert (Hsave : SaveSyncTarget s target d = written s saved d).
  { subst saved. destruct (LoadSyncTargets s d) as [targets [e|]] eqn:Hload.
    - destruct (LoadSyncTargets_error s d e) as [Hnil Hne]; [by rewrite Hload|].
      rewrite Hload in Hnil. simpl in Hnil. subst targets.
      unfold SaveSyncTarget, written, osWriteFile. rewrite Hload, Hne. simpl.
      destruct (MarshalIndent _); [|done]. destruct (Encrypt _ _); [|done].
      by destruct (writeErr d) as [[?|? ?]|].
    - by apply SaveSyncTarget_loaded. }
  split; [done|]. split.
  { intros [e He]. rewrite Hsave. subst saved.
    by destruct (LoadSyncTargets_error s d e He) as [-> _]. }
  rewrite Hsave.
  destruct (written_cases s saved d)
    as [[data Hw] | [(msg & e & Hw & Hmsg & Hwhy) | (n & e & jsonData & data & Hn & Hj & He & Hw)]];
    rewrite Hw; simpl.
  - split; [done|]. split; [intros _; by exists data|]. split; [by intros [? ?]|].
    split; [by intros _ [? ?]|].
    intros n e jsonData encryptedData Hn Hj He. exfalso.
    revert Hw. unfold written. rewrite Hj, He, Hn. done.
  - split; [intros e' [= ? _]; done|]. split; [done|]. split; [by left|].
    split; [done|].
    intros n e' jsonData encryptedData Hn Hj He. exfalso.
    destruct Hwhy as [[e0 Hf] | [(j0 & e0 & Hj0 & Hf) | Ho]]; congruence.
  - split.
    { intros e' Heq. cbv in Heq. discriminate Heq. }
    split; [done|]. split.
    { intros _. right. by exists n, e, jsonData, data. }
    split; [intros Hnone; by destruct (Hnone n e)|].
    intros n' e' jsonData' data' Hn' Hj' He'.
    assert (n' = n ∧ e' = e) as [-> ->] by (split; congruence).
    assert (jsonData' = jsonData) as -> by congruence.
    assert (data' = data) as -> by congruence.
    split; [done|]. intros ->. unfold LoadSyncTargets, osReadFile. by destruct data.
Qed.

Lemma indexOfID_ids (id : string) (targets targets' : list SyncTarget) (k : nat) :
  ID <$> targets = ID <$> targets' → indexOfID id targets k = indexOfID id targets' k.
Proof.
  revert targets' k. induction targets as [|t rest IH]; intros [|t' rest'] k; simpl;
    try done.
  intros [= Hid Hrest]. rewrite Hid. case_bool_decide; [done|]. by apply IH.
Qed.

Lemma indexOfID_app (id : string) (targets more : list SyncTarget) (k : nat) :
  indexOfID id targets k = None →
  indexOfID id (targets ++ more) k = indexOfID id more (k + length targets).
Proof.
  revert k. induction targets as [|t rest IH]; intros k; simpl.
  - by rewrite Nat.add_0_r.
  - case_bool_decide; [done|]. intros Hrest. rewrite (IH _ Hrest). f_equal. lia.
Qed.

(** Replacing the entry found keeps the identifiers of the list. *)
Lemma upsert_ids (targets : list SyncTarget) (target : SyncTarget) (i : nat) :
  indexOfID (ID target) targets 0 = Some i →
  ID <$> <[i := target]> targets = ID <$> targets.
Proof.
  intros (_ & (t & Hl & Ht) & _)%indexOfID_Some. rewrite Nat.sub_0_r in Hl.
  rewrite list_fmap_insert. apply list_insert_id.
  by rewrite list_lookup_fmap, Hl, <- Ht.
Qed.

Lemma upsert_elem (targets : list SyncTarget) (target : SyncTarget) :
  target ∈ upsert targets target.
Proof.
  unfold upsert. destruct (indexOfID (ID target) targets 0) as [i|] eqn:Hi.
  - apply indexOfID_Some in Hi as (_ & (t & Hl & _) & _). rewrite Nat.sub_0_r in Hl.
    apply list_elem_of_lookup. exists i. apply list_lookup_insert_eq.
    by eapply lookup_lt_Some.
  - apply elem_of_app. right. by apply list_elem_of_singleton.
Qed.

(** X14: saving keeps the identifiers of the catalog unique.  If no two
    entries of the list share an identifier, none do after the upsert, and
    the entry under the identifier of the argument is the argument: the
    catalog holds one entry per identifier, the last one saved. *)
Theorem upsert_keeps_ids_unique (targets : list SyncTarget) (target : SyncTarget) :
  NoDup (ID <$> targets) →
  NoDup (ID <$> upsert targets target)
  ∧ target ∈ upsert targets target
  ∧ ∀ t, t ∈ upsert targets target → ID t = ID target → t = target.
Proof.
  intros Hnodup.
  assert (Hnodup' : NoDup (ID <$> upsert targets target)).
  { unfold upsert. destruct (indexOfID (ID target) targets 0) as [i|] eqn:Hi.
    - by rewrite (upsert_ids _ _ _ Hi).
    - rewrite fmap_app. apply NoDup_app. split; [done|]. split; [|apply NoDup_singleton].
      intros id (t & -> & Hin)%list_elem_of_fmap ?%list_elem_of_singleton.
      by apply (indexOfID_None _ _ _ Hi t Hin). }
  split; [done|]. split; [apply upsert_elem|].
  intros t (i & Hi)%list_elem_of_lookup Hid.
  pose proof (upsert_elem targets target) as (j & Hj)%list_elem_of_lookup.
  assert (i = j) as ->.
  { apply (NoDup_lookup (ID <$> upsert targets target) i j (ID target) Hnodup').
    - by rewrite list_lookup_fmap, Hi, <- Hid.
    - by rewrite list_lookup_fmap, Hj. }
  congruence.
Qed.

(** X15: under one identifier the last save wins.  Saving a target and then
    another with the same identifier leaves the list that saving the second
    alone would; in particular saving the same target twice changes nothing
    the second time.  The upsert holds its argument, and is at most one
    entry longer than the list. *)
Theorem upsert_last_write_wins (targets : list SyncTarget) (target target' : SyncTarget) :
  (ID target' = ID target →
   upsert (upsert targets target) target' = upsert targets target')
  ∧ upsert (upsert targets target) target = upsert targets target
  ∧ target ∈ upsert targets target
  ∧ length targets ≤ length (upsert targets target) ≤ S (length targets).
Proof.
  assert (Hlast : ∀ t', ID t' = ID target →
            upsert (upsert targets target) t' = upsert targets t').
  { intros t' Hid. unfold upsert. rewrite Hid.
    destruct (indexOfID (ID target) targets 0) as [i|] eqn:Hi.
    - rewrite (indexOfID_ids _ _ targets 0 (upsert_ids _ _ _ Hi)), Hi.
      apply list_insert_insert_eq.
    - rewrite (indexOfID_app _ _ _ _ Hi). simpl.
      rewrite bool_decide_eq_true_2 by done.
      replace (length targets) with (length targets + 0) at 1 by lia.
      rewrite insert_app_r. done. }
  split; [apply Hlast|]. split; [by apply Hlast|]. split; [apply upsert_elem|].
  unfold upsert. destruct (indexOfID (ID target) targets 0) as [i|].
  - rewrite length_insert. lia.
  - rewrite length_app. simpl. lia.
Qed.
End catalog_writes.

Section catalog_write_examples.
Import Interfaces Storage DoubleCodec.

Lemma upsert_keeps_ids_unique_witness :
  NoDup (ID <$> upsert [target "a" "u1"; target "b" "u2"] (target "b" "moved"))
  ∧ upsert [target "a" "u1"; target "b" "u2"] (target "b" "moved")
    = [target "a" "u1"; target "b" "moved"].
Proof.
  split; [|reflexivity].
  apply (upsert_keeps_ids_unique [target "a" "u1"; target "b" "u2"] (target "b" "moved")).
  change (NoDup ["a"; "b"]). apply NoDup_cons. split.
  - by intros ?%list_elem_of_singleton.
  - apply NoDup_singleton.
Defined.

(** A catalog that cannot be read at all is written over like one that
    cannot be decrypted. *)
Example unreadable_catalog_overwritten :
  SaveSyncTarget (H := codec) catalog (target "t1" "u1")
    {| file := Unreadable (ErrorNew "read synctargets.json.enc: input/output error");
       writeErr := None |}
  = (holding "enc:t1=u1", None)
  ∧ SaveSyncTarget (H := codec) catalog (target "t1" "u1") (holding "enc:not a record")
    = (holding "enc:t1=u1", None).
Proof. split; reflexivity. Qed.
End catalog_write_examples.

(** ** The key and the path of the catalog *)
Section construction.
Import Interfaces Storage Synctarget Main.

Lemma key_length_cases (key : string) :
  bool_decide (String.length key ≠ 16) && bool_decide (String.length key ≠ 24)
  && bool_decide (String.length key ≠ 32) = false
  ↔ String.length key = 16 ∨ String.length key = 24 ∨ String.length key = 32.
Proof.
  rewrite !andb_false_iff, !bool_decide_eq_false. split.
  - intros [[Hn|Hn]|Hn]; destruct (decide (String.length key = 16));
      destruct (decide (String.length key = 24)); destruct (decide (String.length key = 32));
      tauto.
  - intros [?|[?|?]]; [left; left | left; right | right]; tauto.
Qed.

(** X16: a storage that [NewEncryptedFileStorage] returns has a path that
    is not empty and a key of 16, 24 or 32 bytes.  A key given to it is used
    whatever the environment holds; without one, and without the variable
    set, the constructor does not fail: it falls back on the key compiled
    into the program. *)
Theorem new_storage_is_usable (Getenv : string → string) (filePath encryptionKey : string) :
  (∀ s, NewEncryptedFileStorage Getenv filePath encryptionKey = Ok s →
     FilePath s ≠ ""
     ∧ (filePath ≠ "" → FilePath s = filePath)
     ∧ (String.length (EncryptionKey s) = 16 ∨ String.length (EncryptionKey s) = 24
        ∨ String.length (EncryptionKey s) = 32)
     ∧ (encryptionKey ≠ "" → EncryptionKey s = encryptionKey))
  ∧ (encryptionKey ≠ "" → ∀ Getenv',
       NewEncryptedFileStorage Getenv' filePath encryptionKey
       = NewEncryptedFileStorage Getenv filePath encryptionKey)
  ∧ (encryptionKey = "" → Getenv EnvEncryptionKey = "" →
     NewEncryptedFileStorage Getenv filePath encryptionKey
     = Ok {| FilePath := if bool_decide (filePath = "") then DefaultStorageFile else filePath;
             EncryptionKey := hardcodedKey |}).
Proof.
  split; [|split].
  - intros s. unfold NewEncryptedFileStorage.
    destruct (_ && _) eqn:Hlen; [done|]. intros [= <-]. simpl.
    apply key_length_cases in Hlen.
    split.
    { destruct (decide (filePath = "")) as [->|Hp]; [done|].
      by rewrite (bool_decide_eq_false_2 (filePath = "")). }
    split; [intros ?; by rewrite (bool_decide_eq_false_2 (filePath = ""))|].
    split; [done|]. intros Hkey. rewrite bool_decide_eq_true_2; [done|].
    destruct encryptionKey; [done | simpl; lia].
  - intros Hkey Getenv'. unfold NewEncryptedFileStorage.
    rewrite (bool_decide_eq_true_2 (0 < String.length encryptionKey)); [done|].
    destruct encryptionKey; [done | simpl; lia].
  - intros -> Henv. unfold NewEncryptedFileStorage. simpl. rewrite Henv. done.
Qed.

(** The two constructors agree.  For the same
    arguments and environment, [NewFileSyncTargetProvider] fails exactly when
    [NewEncryptedFileStorage] does, with the same error, and otherwise both
    settle on the same path and the same key. *)
Lemma constructors_agree (Getenv : string → string) (filePath encryptionKey : string) :
  match NewEncryptedFileStorage Getenv filePath encryptionKey,
        NewFileSyncTargetProvider Getenv filePath encryptionKey with
  | Ok s, Ok p => FilePath s = ProviderFilePath p ∧ EncryptionKey s = ProviderEncryptionKey p
  | Fail e, Fail e' => e = e'
  | _, _ => False
  end.
Proof.
  unfold NewEncryptedFileStorage, NewFileSyncTargetProvider.
  by destruct (_ && _).
Qed.

(** X17: [main] gets its storage exactly when the variable
    [GO_ARGO_LITE_ENCRYPTION_KEY] is unset, or empty, or holds 16, 24 or 32
    bytes.  The storage is at the default path under the key of the
    variable, or under the key compiled in when the variable is unset.  The
    length check of the constructor never fires in [main]: when [main]
    stops, it stops on its own check. *)
Theorem main_storage (Getenv : string → string) :
  let envKey := Getenv EnvEncryptionKey in
  ((∃ s, dataStorageOf Getenv = Ok s)
   ↔ envKey = "" ∨ String.length envKey = 16 ∨ String.length envKey = 24
     ∨ String.length envKey = 32)
  ∧ (∀ s, dataStorageOf Getenv = Ok s →
       FilePath s = DefaultStorageFile
       ∧ EncryptionKey s = if bool_decide (envKey = "") then hardcodedKey else envKey)
  ∧ (∀ e, dataStorageOf Getenv = Fail e → encryptionKeyBytes Getenv = Fail e).
Proof.
  intros envKey. subst envKey. unfold dataStorageOf, encryptionKeyBytes.
  destruct (decide (Getenv EnvEncryptionKey = "")) as [Henv|Henv].
  - rewrite Henv. simpl. split; [split; [by auto | by eauto]|]. split; [|done].
    by intros s [= <-].
  - rewrite (bool_decide_eq_true_2 (Getenv EnvEncryptionKey ≠ "")) by done.
    rewrite (bool_decide_eq_false_2 (Getenv EnvEncryptionKey = "")) by done.
    destruct (_ && _) eqn:Hlen.
    + split; [|split; [done | by intros e [= <-]]].
      split; [by intros [? ?]|]. intros [?|Hcase]; [done|].
      apply key_length_cases in Hcase. congruence.
    + unfold NewEncryptedFileStorage.
      assert (Hpos : 0 < String.length (Getenv EnvEncryptionKey)).
      { destruct (Getenv EnvEncryptionKey); [done | simpl; lia]. }
      rewrite (bool_decide_eq_true_2 _ Hpos), Hlen. simpl.
      split; [|split; [by intros s [= <-] | done]].
      split; [|by eauto]. intros _. right. by apply key_length_cases.
Qed.
End construction.

Section construction_examples.
Import Interfaces Storage Synctarget Main.

(** A key of the wrong length in the environment stops [main]; the key
    compiled in has 32 bytes. *)
Example main_storage_cases :
  dataStorageOf noEnvironment
  = Ok {| FilePath := "synctargets.json.enc";
          EncryptionKey := "0123456789abcdef0123456789abcdef" |}
  ∧ dataStorageOf (keyInEnvironment "0123456789abcdef")
    = Ok {| FilePath := "synctargets.json.enc"; EncryptionKey := "0123456789abcdef" |}
  ∧ dataStorageOf (keyInEnvironment "secret")
    = Fail (ErrorNew ("Encryption key must be 16, 24, or 32 bytes long, got 6 bytes from "
                      +:+ "GO_ARGO_LITE_ENCRYPTION_KEY or hardcoded default.")).
Proof. repeat split; vm_compute; reflexivity. Qed.
End construction_examples.

(** ** The provider *)
Section provider_files.
Import Interfaces Storage Synctarget.
Context `{Codec} `{Cipher}.

(** X18: what the provider saves it loads again, and its write is not
    atomic either.  When the codec and the cipher give back the list under
    the key of the provider, a call of [SaveSyncTargets] that returns no
    error leaves a file from which [LoadSyncTargets] returns the list saved,
    and no error.  A call that returns an error leaves the file as it was
    when the list does not encode or encrypt or the file does not open for
    writing; when the write fails after the open, the file is left cut to
    the bytes written so far, and with none written it loads as an empty
    list, without error. *)
Theorem provider_round_trip (p : FileSyncTargetProvider) (targets : list SyncTarget)
    (d : Disk) :
  readsBack (ProviderEncryptionKey p) targets →
  ((SaveSyncTargets p targets d).2 = None →
   LoadSyncTargets p (SaveSyncTargets p targets d).1 = (targets, None))
  ∧ (is_Some (SaveSyncTargets p targets d).2 →
     (SaveSyncTargets p targets d).1 = d
     ∨ ∃ n e jsonData encryptedData,
         writeErr d = Some (WriteFails n e)
         ∧ MarshalIndent targets = Ok jsonData
         ∧ encrypt jsonData (ProviderEncryptionKey p) = Ok encryptedData
         ∧ (SaveSyncTargets p targets d).1
           = {| file := Contents (GoStrings.stake n encryptedData); writeErr := writeErr d |})
  ∧ ((∀ n e, writeErr d ≠ Some (WriteFails n e)) →
     is_Some (SaveSyncTargets p targets d).2 → (SaveSyncTargets p targets d).1 = d)
  ∧ (∀ e jsonData encryptedData,
       writeErr d = Some (WriteFails 0 e) → MarshalIndent targets = Ok jsonData →
       encrypt jsonData (ProviderEncryptionKey p) = Ok encryptedData →
       (SaveSyncTargets p targets d).2
       = Some (Errorf ("failed to write sync targets file '" +:+ ProviderFilePath p +:+ "'") e)
       ∧ LoadSyncTargets p (SaveSyncTargets p targets d).1 = ([], None)).
Proof.
  intros Hback. unfold SaveSyncTargets, osWriteFile.
  destruct (MarshalIndent targets) as [jsonData|e] eqn:Hj.
  2: { simpl. split; [done|]. split; [by left|]. split; [done|]. intros; congruence. }
  destruct (encrypt jsonData (ProviderEncryptionKey p)) as [encryptedData|e] eqn:He.
  2: { simpl. split; [done|]. split; [by left|]. split; [done|]. intros; congruence. }
  destruct (Hback jsonData encryptedData Hj He) as (Hne & Hd & Hu).
  destruct (writeErr d) as [[e|n e]|] eqn:Hw; simpl.
  - split; [done|]. split; [by left|]. split; [done|]. done.
  - split; [done|]. split.
    { intros _. right. by exists n, e, jsonData, encryptedData. }
    split; [intros Hnone; by destruct (Hnone n e)|].
    intros e' jsonData' encryptedData' [= -> ->] [= <-] He'.
    assert (encryptedData' = encryptedData) as -> by congruence. split; [done|].
    unfold LoadSyncTargets, osReadFile. simpl. by destruct encryptedData.
  - split.
    { intros _. unfold LoadSyncTargets, osReadFile. simpl.
      rewrite bool_decide_eq_false_2 by by rewrite length_zero_iff.
      by rewrite Hd, Hu. }
    split; [by intros [? ?]|]. split; [by intros _ [? ?]|]. done.
Qed.
End provider_files.

Section provider_examples.
Import Interfaces Storage Synctarget DoubleCodec.

Lemma provider_round_trip_witness :
  SaveSyncTargets (H := codec) (H0 := prefixCipher) provider
    [target "a" "u1"; target "b" "u2"] {| file := NoFile; writeErr := None |}
  = (holding "enc:a=u1,b=u2", None)
  ∧ LoadSyncTargets (H := codec) (H0 := prefixCipher) provider
      (SaveSyncTargets (H := codec) (H0 := prefixCipher) provider
         [target "a" "u1"; target "b" "u2"] {| file := NoFile; writeErr := None |}).1
    = ([target "a" "u1"; target "b" "u2"], None).
Proof.
  split; [reflexivity|].
  apply (provider_round_trip (H := codec) (H0 := prefixCipher) provider
           [target "a" "u1"; target "b" "u2"] {| file := NoFile; writeErr := None |}).
  - intros jsonData encryptedData [= <-] [= <-]. split; [discriminate|].
    split; reflexivity.
  - reflexivity.
Defined.
End provider_examples.

(** ** The registry of the worker *)
Section registry.
Import Interfaces Worker Server Main.

Lemma AddSyncTarget_lookup (w : Worker) (target : SyncTarget) (id : string) :
  managedTargets (AddSyncTarget w target).1 !! id
  = match managedTargets w !! id with
    | Some t => Some t
    | None => if bool_decide (ID target = id) then Some target else None
    end.
Proof.
  unfold AddSyncTarget. destruct (managedTargets w !! ID target) as [t0|] eqn:Hid; simpl.
  - destruct (managedTargets w !! id) as [t|] eqn:Hl; [done|].
    case_bool_decide; [congruence | done].
  - destruct (decide (ID target = id)) as [<-|Hne].
    + by rewrite lookup_insert_eq, Hid, bool_decide_eq_true_2.
    + rewrite lookup_insert_ne by done. rewrite bool_decide_eq_false_2 by done.
      by destruct (managedTargets w !! id).
Qed.

Lemma AddSyncTarget_invariant (w : Worker) (target : SyncTarget) :
  oneGoroutineEach w → oneGoroutineEach (AddSyncTarget w target).1.
Proof.
  intros (Hnodup & Hdom & Hkey). unfold AddSyncTarget.
  destruct (managedTargets w !! ID target) as [t0|] eqn:Hid; simpl; [done|].
  split; [|split]; simpl.
  - apply NoDup_app. split; [done|]. split; [|apply NoDup_singleton].
    intros id Hin ->%list_elem_of_singleton. apply Hdom in Hin as [t Ht]. congruence.
  - intros id. rewrite elem_of_app, list_elem_of_singleton, Hdom.
    destruct (decide (id = ID target)) as [->|Hne].
    + rewrite lookup_insert_eq. split; [by eauto | by right].
    + rewrite lookup_insert_ne by done. split; [by intros [?|?] | by left].
  - intros id t. destruct (decide (id = ID target)) as [->|Hne].
    + rewrite lookup_insert_eq. by intros [= <-].
    + rewrite lookup_insert_ne by done. apply Hkey.
Qed.

Lemma deregisterAll_started (ids : list string) (w : Worker) :
  started (deregisterAll w ids) = started w.
Proof.
  unfold deregisterAll. revert w. induction ids as [|id ids IH]; intros w; simpl; [done|].
  by rewrite IH.
Qed.

Lemma deregisterAll_lookup_Some (ids : list string) (w : Worker) (id : string)
    (t : SyncTarget) :
  managedTargets (deregisterAll w ids) !! id = Some t → managedTargets w !! id = Some t.
Proof.
  unfold deregisterAll. revert w. induction ids as [|id' ids IH]; intros w; simpl; [done|].
  intros Hl%IH. unfold deregister in Hl. simpl in Hl.
  by apply lookup_delete_Some in Hl as [_ Hl].
Qed.

Lemma addAll_noFailure (targets : list SyncTarget) (failed : list (list string))
    (w : Worker) :
  noFailure failed → addAll targets failed w = addAll targets [] w.
Proof.
  revert failed w. induction targets as [|t rest IH]; intros failed w Hquiet; simpl; [done|].
  destruct Hquiet as [|ids failed Hids Hquiet]; simpl; [done|].
  subst ids. simpl. by apply IH.
Qed.

Lemma addAll_lookup (targets : list SyncTarget) (w : Worker) (id : string) :
  managedTargets (addAll targets [] w) !! id
  = match managedTargets w !! id with
    | Some t => Some t
    | None => firstWithID id targets
    end.
Proof.
  revert w. induction targets as [|t rest IH]; intros w; simpl.
  - by destruct (managedTargets w !! id).
  - rewrite IH, AddSyncTarget_lookup. unfold firstWithID. simpl.
    destruct (managedTargets w !! id); [done|]. by case_bool_decide.
Qed.

Lemma addAll_invariant (targets : list SyncTarget) (w : Worker) :
  oneGoroutineEach w → oneGoroutineEach (addAll targets [] w).
Proof.
  revert w. induction targets as [|t rest IH]; intros w Hw; simpl; [done|].
  by apply IH, AddSyncTarget_invariant.
Qed.

Lemma addAll_origin (targets : list SyncTarget) (failed : list (list string))
    (w : Worker) (id : string) (t : SyncTarget) :
  managedTargets (addAll targets failed w) !! id = Some t →
  managedTargets w !! id = Some t ∨ (t ∈ targets ∧ ID t = id).
Proof.
  revert failed w. induction targets as [|t0 rest IH]; intros failed w; simpl; [by left|].
  intros [Hl|[Hin Hid]]%IH.
  - apply deregisterAll_lookup_Some in Hl. rewrite AddSyncTarget_lookup in Hl.
    destruct (managedTargets w !! id) as [t1|]; [by left|].
    case_bool_decide as Heq; [|done]. injection Hl as <-. right.
    split; [apply list_elem_of_here | done].
  - right. split; [by apply list_elem_of_further | done].
Qed.

Lemma addAll_started (targets : list SyncTarget) (failed : list (list string))
    (w : Worker) :
  ∃ ids, started (addAll targets failed w) = started w ++ ids
         ∧ ids `sublist_of` (ID <$> targets).
Proof.
  revert failed w. induction targets as [|t0 rest IH]; intros failed w; simpl.
  - exists []. by rewrite app_nil_r.
  - destruct (IH (tail failed)
                (deregisterAll (AddSyncTarget w t0).1 (default [] (head failed))))
      as (ids & -> & Hsub).
    rewrite deregisterAll_started. unfold AddSyncTarget.
    destruct (managedTargets w !! ID t0); simpl.
    + exists ids. split; [done | by apply sublist_cons].
    + exists (ID t0 :: ids). split; [by rewrite <- app_assoc | by apply sublist_skip].
Qed.

Lemma AddSyncTarget_registeredWereStarted (w : Worker) (target : SyncTarget) :
  registeredWereStarted w → registeredWereStarted (AddSyncTarget w target).1.
Proof.
  intros [Hdom Hkey]. unfold AddSyncTarget.
  destruct (managedTargets w !! ID target) as [t0|] eqn:Hid; simpl; [done|].
  split; simpl.
  - intros id. rewrite elem_of_app, list_elem_of_singleton.
    destruct (decide (id = ID target)) as [->|Hne]; [by right|].
    rewrite lookup_insert_ne by done. intros ?%Hdom. by left.
  - intros id t. destruct (decide (id = ID target)) as [->|Hne].
    + rewrite lookup_insert_eq. by intros [= <-].
    + rewrite lookup_insert_ne by done. apply Hkey.
Qed.

Lemma deregisterAll_registeredWereStarted (ids : list string) (w : Worker) :
  registeredWereStarted w → registeredWereStarted (deregisterAll w ids).
Proof.
  intros [Hdom Hkey]. split.
  - intros id [t Hl%deregisterAll_lookup_Some]. rewrite deregisterAll_started.
    apply Hdom. by eauto.
  - intros id t Hl%deregisterAll_lookup_Some. by apply Hkey.
Qed.

Lemma addAll_registeredWereStarted (targets : list SyncTarget)
    (failed : list (list string)) (w : Worker) :
  registeredWereStarted w → registeredWereStarted (addAll targets failed w).
Proof.
  revert failed w. induction targets as [|t rest IH]; intros failed w Hw; simpl; [done|].
  by apply IH, deregisterAll_registeredWereStarted, AddSyncTarget_registeredWereStarted.
Qed.

Lemma addAll_after_a_failure (t1 t2 : SyncTarget) (w : Worker) :
  ID t2 = ID t1 → managedTargets w !! ID t1 = None →
  managedTargets (addAll [t1; t2] [] w) !! ID t1 = Some t1
  ∧ started (addAll [t1; t2] [] w) = started w ++ [ID t1]
  ∧ managedTargets (addAll [t1; t2] [[ID t1]] w) !! ID t1 = Some t2
  ∧ started (addAll [t1; t2] [[ID t1]] w) = started w ++ [ID t1; ID t1].
Proof.
  intros Hid Hnew.
  assert (H1 : (AddSyncTarget w t1).1
               = {| managedTargets := <[ID t1 := t1]> (managedTargets w);
                    started := started w ++ [ID t1] |}).
  { unfold AddSyncTarget. by rewrite Hnew. }
  simpl. unfold deregisterAll. simpl. rewrite H1.
  unfold AddSyncTarget, deregister. simpl. rewrite Hid.
  rewrite lookup_insert_eq, lookup_delete_eq. simpl.
  rewrite lookup_insert_eq.
  split; [done|]. split; [done|]. split; [apply lookup_insert_eq|].
  by rewrite <- app_assoc.
Qed.

(** X19: [Start] registers nothing when the load returns an error.
    Otherwise it calls [AddSyncTarget] on the loaded targets in the order of
    the list, and holds the lock during each call only: the goroutines it has
    started run beside the loop, and one whose setup fails deletes its
    identifier from the registry.  Whatever the goroutines do meanwhile, a
    target that is registered after [Start] was registered before or is an
    entry of the list filed under its own identifier, the goroutines started
    are for entries of the list in its order, and every registered target had
    a goroutine started for it.  When no goroutine fails during the loop, an
    identifier that is registered already keeps its target, of several
    entries with one identifier the first is registered and the others are
    passed over, and a worker that has one goroutine for each registered
    target, and no other, still has; the worker [NewWorker] returns is one.
    When the goroutine of the first of two entries with one identifier fails
    before the loop reaches the second, the second is registered and a second
    goroutine is started for the identifier. *)
Theorem start_registers_in_order `{DataStorage} (store : Store)
    (failed : list (list string)) (w : Worker) :
  let targets := (LoadSyncTargets store).1 in
  let w' := Start store failed w in
  (is_Some (LoadSyncTargets store).2 → w' = w)
  ∧ ((LoadSyncTargets store).2 = None →
     (∀ id t, managedTargets w' !! id = Some t →
              managedTargets w !! id = Some t ∨ (t ∈ targets ∧ ID t = id))
     ∧ (∃ ids, started w' = started w ++ ids ∧ ids `sublist_of` (ID <$> targets))
     ∧ (registeredWereStarted w → registeredWereStarted w')
     ∧ (noFailure failed →
        (∀ id, managedTargets w' !! id
               = match managedTargets w !! id with
                 | Some t => Some t
                 | None => firstWithID id targets
                 end)
        ∧ (oneGoroutineEach w → oneGoroutineEach w')))
  ∧ (∀ t1 t2 w0, ID t2 = ID t1 → managedTargets w0 !! ID t1 = None →
       managedTargets (addAll [t1; t2] [] w0) !! ID t1 = Some t1
       ∧ started (addAll [t1; t2] [] w0) = started w0 ++ [ID t1]
       ∧ managedTargets (addAll [t1; t2] [[ID t1]] w0) !! ID t1 = Some t2
       ∧ started (addAll [t1; t2] [[ID t1]] w0) = started w0 ++ [ID t1; ID t1])
  ∧ oneGoroutineEach NewWorker.
Proof.
  intros targets w'. subst targets w'. unfold Start.
  assert (Hnew : oneGoroutineEach NewWorker).
  { split; [apply NoDup_nil_2|]. split.
    - intros id. split; [by intros ?%elem_of_nil | by intros [? ?]].
    - by intros id t. }
  destruct (LoadSyncTargets store) as [targets [e|]]; simpl.
  - split; [done|]. split; [done|]. split; [apply addAll_after_a_failure | done].
  - split; [by intros [? ?]|]. split; [|split; [apply addAll_after_a_failure | done]].
    intros _. split; [apply addAll_origin|]. split; [apply addAll_started|].
    split; [apply addAll_registeredWereStarted|].
    intros Hquiet. rewrite (addAll_noFailure _ _ _ Hquiet).
    split; [intros id; apply addAll_lookup | apply addAll_invariant].
Qed.

(** X20: [AddSyncTarget] refuses exactly the identifiers that are
    registered, and a refusal changes nothing.  When it accepts, the target is
    registered under its identifier, one goroutine is started for it, and the
    other entries of the registry are as before; a second call with the same
    identifier is refused. *)
Theorem add_sync_target_once (w : Worker) (target : SyncTarget) :
  let w' := (AddSyncTarget w target).1 in
  ((AddSyncTarget w target).2 = None ↔ managedTargets w !! ID target = None)
  ∧ (is_Some (AddSyncTarget w target).2 → w' = w)
  ∧ ((AddSyncTarget w target).2 = None →
     managedTargets w' !! ID target = Some target
     ∧ started w' = started w ++ [ID target]
     ∧ ∀ id, id ≠ ID target → managedTargets w' !! id = managedTargets w !! id)
  ∧ (∀ target', ID target' = ID target → is_Some (AddSyncTarget w' target').2)
  ∧ (oneGoroutineEach w → oneGoroutineEach w').
Proof.
  intros w'. subst w'.
  split; [|split; [|split; [|split; [|apply AddSyncTarget_invariant]]]].
  - unfold AddSyncTarget. by destruct (managedTargets w !! ID target).
  - unfold AddSyncTarget. destruct (managedTargets w !! ID target); simpl;
      [done | by intros [? ?]].
  - unfold AddSyncTarget. destruct (managedTargets w !! ID target); [done|]. simpl.
    intros _. split; [by rewrite lookup_insert_eq|]. split; [done|].
    intros id Hne. by rewrite lookup_insert_ne.
  - intros target' Hid.
    assert (Hl : is_Some (managedTargets (AddSyncTarget w target).1 !! ID target')).
    { rewrite AddSyncTarget_lookup, Hid. destruct (managedTargets w !! ID target); [by eauto|].
      rewrite bool_decide_eq_true_2 by done. by eauto. }
    destruct Hl as [t Hl]. unfold AddSyncTarget at 1. rewrite Hl. by eauto.
Qed.
End registry.

Section registry_examples.
Import Interfaces Worker Server Main DoubleCodec.

(** A catalog that lists the identifier [a] twice starts one goroutine for
    it, for the first entry, when no goroutine fails meanwhile; when the
    goroutine of the first entry has failed before the loop reaches the
    third, a second goroutine is started for [a], on the third entry. *)
Example start_on_duplicates :
  let w := Start (H := fileStorage) (holding "enc:a=u1,b=u2,a=u3") [] NewWorker in
  let w' := Start (H := fileStorage) (holding "enc:a=u1,b=u2,a=u3") [["a"]] NewWorker in
  started w = ["a"; "b"]
  ∧ managedTargets w !! "a" = Some (target "a" "u1")
  ∧ started w' = ["a"; "b"; "a"]
  ∧ managedTargets w' !! "a" = Some (target "a" "u3")
  ∧ Start (H := fileStorage) (holding "garbage") [["a"]] NewWorker = NewWorker.
Proof. repeat split; reflexivity. Qed.
End registry_examples.

(** ** The period of the ticker *)
Section intervals.
Import Interfaces Worker.

Lemma wrap64_range (z : Z) : (minInt64 ≤ wrap64 z ≤ maxInt64)%Z.
Proof.
  unfold wrap64, minInt64, maxInt64.
  pose proof (Z.mod_pos_bound (z + 2 ^ 63) (2 ^ 64)) as Hmod. lia.
Qed.

Lemma wrap64_small (z : Z) : (minInt64 ≤ z ≤ maxInt64)%Z → wrap64 z = z.
Proof.
  unfold wrap64, minInt64, maxInt64. intros Hz.
  rewrite Z.mod_small by lia. lia.
Qed.

(** X21: the period given to the ticker is always positive, so the ticker
    can be made.  For a number of seconds from 1 to 9223372036 it is that
    number of seconds; for a number that is zero or negative, down to
    -9223372036, it is sixty seconds.  Beyond, the product in nanoseconds
    does not fit 64 bits and wraps around: 9223372037 seconds wrap to a
    negative duration and give sixty seconds, and 18446744074 seconds wrap to
    290448384 nanoseconds. *)
Theorem poll_interval_positive (target : SyncTarget) :
  let n := PollIntervalSeconds target in
  (0 < pollInterval target ≤ maxInt64)%Z
  ∧ ((0 < n ≤ 9223372036)%Z → pollInterval target = (n * Second)%Z)
  ∧ ((-9223372036 ≤ n ≤ 0)%Z → pollInterval target = (60 * Second)%Z)
  ∧ (n = 9223372037%Z → pollInterval target = (60 * Second)%Z)
  ∧ (n = 18446744074%Z → pollInterval target = 290448384%Z).
Proof.
  intros n. subst n. unfold pollInterval.
  split; [|split; [|split; [|split]]].
  - pose proof (wrap64_range (PollIntervalSeconds target * Second)) as Hr.
    case_bool_decide; unfold Second, maxInt64 in *; lia.
  - intros Hn. rewrite wrap64_small by (unfold Second, minInt64, maxInt64; lia).
    rewrite bool_decide_eq_false_2; [done|]. unfold Second. lia.
  - intros Hn. rewrite wrap64_small by (unfold Second, minInt64, maxInt64; lia).
    rewrite bool_decide_eq_true_2; [done|]. unfold Second. lia.
  - intros ->. vm_compute. reflexivity.
  - intros ->. vm_compute. reflexivity.
Qed.
End intervals.

(** ** The goroutine of a target *)
Section goroutines.
Import Interfaces Filepath Gitpoller Worker.
Context `{KubeHandler}.

(** What a tick and the initial poll hand to the applier are the files the
    poll returns: none with an error, none without a change. *)
Lemma Poll_files (fs : FileSystem) (gp : GitPoller) (git : GitCalls) :
  (is_Some (err (Poll (H := fs) gp git).2) → manifestFiles (Poll (H := fs) gp git).2 = [])
  ∧ (changed (Poll (H := fs) gp git).2 = false → manifestFiles (Poll (H := fs) gp git).2 = []).
Proof.
  unfold Poll. destruct (repository gp); [|done].
  destruct (FetchLatest gp git); [done|].
  destruct (GetCurrentCommitHash gp git); [|done].
  repeat case_bool_decide; try destruct (GetManifestFiles _); simpl; split; try done;
    by intros [? ?].
Qed.

Lemma tick_applied (m : Managed) (git : GitCalls) (fs : FileSystem) :
  applied (tick m git fs) = applied m ++ manifestFiles (Poll (H := fs) (poller m) git).2
  ∧ poller (tick m git fs) = (Poll (H := fs) (poller m) git).1.
Proof.
  unfold tick. destruct (Poll_files fs (poller m) git) as [Herr Hsame].
  destruct (Poll (H := fs) (poller m) git) as [gp r]. simpl in *.
  destruct (err r) as [e|]; simpl.
  - rewrite Herr by by eexists. by rewrite app_nil_r.
  - destruct (changed r).
    + pose proof (applyAll_log (manifestFiles r) (kubeClient m) (applied m)) as Hlog.
      by destruct (applyAll (manifestFiles r) (kubeClient m) (applied m)).
    + rewrite Hsame by done. by rewrite app_nil_r.
Qed.

Lemma initialPoll_applied (m : Managed) (git : GitCalls) (fs : FileSystem) :
  applied (initialPoll m git fs)
  = applied m ++ manifestFiles (Poll (H := fs) (poller m) git).2
  ∧ poller (initialPoll m git fs) = (Poll (H := fs) (poller m) git).1.
Proof.
  unfold initialPoll. destruct (Poll_files fs (poller m) git) as [_ Hsame].
  destruct (Poll (H := fs) (poller m) git) as [gp r]. simpl in *.
  destruct (changed r).
  - pose proof (applyAll_log (manifestFiles r) (kubeClient m) (applied m)) as Hlog.
    by destruct (applyAll (manifestFiles r) (kubeClient m) (applied m)).
  - rewrite Hsame by done. by rewrite app_nil_r.
Qed.

(** X22: the loop applies what its polls return, and nothing else.  The
    files handed to the applier during a run are, in order, the files
    returned by the polls of the run up to the stop signal, each once; a
    poll that returns an error or reports no change returns none.  The
    initial poll does the same, although its error is only logged.  Events
    after the stop signal change nothing. *)
Theorem loop_applies_what_polls_return (events : list Event) (m : Managed) :
  applied (loop events m)
  = applied m ++ concat (manifestFiles <$> pollResults events (poller m))
  ∧ Forall (λ r, is_Some (err r) ∨ changed r = false → manifestFiles r = [])
      (pollResults events (poller m))
  ∧ (∀ git fs, applied (initialPoll m git fs)
               = applied m ++ manifestFiles (Poll (H := fs) (poller m) git).2)
  ∧ (∀ rest, loop (events ++ Stop :: rest) m = loop events m).
Proof.
  split; [|split; [|split]].
  - revert m. induction events as [|[git fs|] events IH]; intros m; simpl.
    + by rewrite app_nil_r.
    + rewrite IH. destruct (tick_applied m git fs) as [-> ->].
      destruct (Poll (H := fs) (poller m) git) as [gp r]. simpl.
      by rewrite app_assoc.
    + by rewrite app_nil_r.
  - revert m. induction events as [|[git fs|] events IH]; intros m; simpl; [done| |done].
    destruct (Poll_files fs (poller m) git) as [Herr Hsame].
    destruct (Poll (H := fs) (poller m) git) as [gp r] eqn:Hpoll. simpl in *.
    constructor; [by intros [?|?]; auto|].
    specialize (IH {| poller := gp; kubeClient := kubeClient m; applied := applied m |}).
    exact IH.
  - intros git fs. apply initialPoll_applied.
  - intros rest. revert m. induction events as [|[git fs|] events IH]; intros m; simpl;
      [done | apply IH | done].
Qed.

Lemma deregister_lookup (w : Worker) (id id' : string) :
  managedTargets (deregister w id) !! id'
  = if bool_decide (id' = id) then None else managedTargets w !! id'.
Proof.
  unfold deregister. simpl. case_bool_decide as Hid.
  - subst. apply lookup_delete_eq.
  - by apply lookup_delete_ne.
Qed.

Lemma serve_loop (events : list Event) (m : Managed) :
  serve events m = Stopped (loop events m) ∨ serve events m = Waiting (loop events m).
Proof.
  revert m. induction events as [|[git fs|] events IH]; intros m; simpl; auto.
Qed.

(** How [manageSyncTarget] ends, by cases. *)
Lemma manageSyncTarget_cases (w : Worker) (target : SyncTarget) (env : Setup)
    (events : list Event) :
  (∃ e, manageSyncTarget w target env events
        = (deregister w (ID target), NotStarted e, []))
  ∨ (∃ m, manageSyncTarget w target env events
          = (w, Stopped m,
             [Join (FileSystem := InitialTree env) baseRepoPath (ID target)])
          ∧ ∃ before rest, events = before ++ Stop :: rest ∧ Stop ∉ before)
  ∨ (∃ m, manageSyncTarget w target env events = (w, Waiting m, []) ∧ Stop ∉ events).
Proof.
  unfold manageSyncTarget.
  destruct (NewKubeHandler env) as [k|e]; [|left; by eauto].
  destruct (NewGitPoller _ _ _ _) as [gp|e]; [|left; by eauto].
  destruct (InitializeRepo gp (InitializeCalls env)) as [gp' [e|]]; [left; by eauto|].
  right. generalize (initialPoll {| poller := gp'; kubeClient := k; applied := [] |}
                       (InitialGit env) (InitialTree env)).
  induction events as [|[git fs|] events IH]; intros m; simpl.
  - right. exists m. split; [done|]. by intros ?%elem_of_nil.
  - destruct (IH (tick m git fs)) as [(m' & Hm & before & rest & -> & Hb) | (m' & Hm & Hs)].
    + left. exists m'. split; [done|]. exists (Tick git fs :: before), rest.
      split; [done|]. by intros [?|?]%elem_of_cons.
    + right. exists m'. split; [done|]. by intros [?|?]%elem_of_cons.
  - left. exists m. split; [done|]. exists [], events. split; [done|].
    by intros ?%elem_of_nil.
Qed.

(** X23: a goroutine that ends before its loop frees the identifier.  When
    the cluster client cannot be made, a field the poller needs is empty, or
    the repository cannot be cloned, opened or checked out, the goroutine
    returns before its first poll and removes nothing from the disk; it
    takes the target out of the registry and leaves the other entries, so
    that the target can be added again.  A goroutine that reaches its loop
    leaves the registry as it is, also when it returns on the stop signal,
    after which it removes the clone, and only the clone. *)
Theorem failed_setup_frees_the_id (w : Worker) (target : SyncTarget) (env : Setup)
    (events : list Event) :
  let '(w', exit, removed) := manageSyncTarget w target env events in
  match exit with
  | NotStarted _ =>
      removed = [] ∧ managedTargets w' !! ID target = None
      ∧ (∀ id, id ≠ ID target → managedTargets w' !! id = managedTargets w !! id)
      ∧ (AddSyncTarget w' target).2 = None
  | Stopped _ =>
      w' = w ∧ removed = [Join (FileSystem := InitialTree env) baseRepoPath (ID target)]
      ∧ Stop ∈ events
  | Waiting _ => w' = w ∧ removed = [] ∧ Stop ∉ events
  end.
Proof.
  destruct (manageSyncTarget_cases w target env events)
    as [[e ->] | [(m & -> & before & rest & -> & _) | (m & -> & Hs)]].
  - split; [done|].
    assert (Hl : managedTargets (deregister w (ID target)) !! ID target = None).
    { rewrite deregister_lookup. by rewrite bool_decide_eq_true_2. }
    split; [done|]. split.
    + intros id Hne. rewrite deregister_lookup. by rewrite bool_decide_eq_false_2.
    + unfold AddSyncTarget. by rewrite Hl.
  - split; [done|]. split; [done|]. apply elem_of_app. right. by left.
  - done.
Qed.

(** X24: the goroutine reaches its loop exactly when the cluster client is
    made, the poller is made and the repository is initialized.  A target
    whose URL, branch or manifest path is empty, which [Start] takes from the
    catalog as it finds it, never polls: its goroutine ends before the loop
    and the target leaves the registry. *)
Theorem incomplete_target_never_polls (w : Worker) (target : SyncTarget) (env : Setup)
    (events : list Event) :
  let repoPath := Join (FileSystem := InitialTree env) baseRepoPath (ID target) in
  ((∃ e, (manageSyncTarget w target env events).1.2 = NotStarted e)
   ↔ (∃ e, NewKubeHandler env = Fail e)
     ∨ (∃ e, NewGitPoller (RepoURL target) (RepoBranch target) repoPath (ManifestPath target)
             = Fail e)
     ∨ ∃ gp, NewGitPoller (RepoURL target) (RepoBranch target) repoPath (ManifestPath target)
             = Ok gp
             ∧ is_Some (InitializeRepo gp (InitializeCalls env)).2)
  ∧ (RepoURL target = "" ∨ RepoBranch target = "" ∨ ManifestPath target = "" →
     (∃ e, NewKubeHandler env = Fail e
           ∧ manageSyncTarget w target env events
             = (deregister w (ID target), NotStarted e, []))
     ∨ ∃ e, NewGitPoller (RepoURL target) (RepoBranch target) repoPath (ManifestPath target)
            = Fail e
            ∧ manageSyncTarget w target env events
              = (deregister w (ID target), NotStarted e, [])).
Proof.
  intros repoPath. subst repoPath. split.
  - unfold manageSyncTarget.
    destruct (NewKubeHandler env) as [k|e]; [|split; [by eauto | by eauto]].
    destruct (NewGitPoller _ _ _ _) as [gp|e]; [|split; [by eauto | by eauto]].
    destruct (InitializeRepo gp (InitializeCalls env)) as [gp' [e|]] eqn:Hinit; simpl.
    + split; [|by eauto]. intros _. right. right. exists gp. split; [done|].
      rewrite Hinit. by eauto.
    + split.
      * destruct (serve_loop events
                    (initialPoll {| poller := gp'; kubeClient := k; applied := [] |}
                       (InitialGit env) (InitialTree env))) as [-> | ->]; by intros [? ?].
      * intros [[? ?] | [[? ?] | (gp0 & [= <-] & Herr)]]; [done | done |].
        rewrite Hinit in Herr. by destruct Herr.
  - intros Hempty. unfold manageSyncTarget.
    destruct (NewKubeHandler env) as [k|e]; [|left; by eauto].
    right. unfold NewGitPoller.
    destruct (bool_decide (RepoURL target = "") || bool_decide (RepoBranch target = "")
              || bool_decide (Join baseRepoPath (ID target) = "")) eqn:Hthree;
      [by eauto|].
    apply orb_false_elim in Hthree as [Htwo _].
    apply orb_false_elim in Htwo as [Hu%bool_decide_eq_false Hb%bool_decide_eq_false].
    destruct Hempty as [?|[?|Hm]]; [done | done |].
    rewrite (bool_decide_eq_true_2 (ManifestPath target = "")) by done. by eauto.
Qed.
End goroutines.

Section goroutine_examples.
Import Interfaces Filepath Gitpoller Worker DoubleCodec.

(** A first start that clones, polls once and is stopped after one more
    tick that finds nothing new; and one that cannot clone. *)
Example goroutine_runs :
  (manageSyncTarget (H := recorder) NewWorker (target "t1" "u1") firstStart
     [Tick (remoteAt "c0ffee") cloneTree; Stop]).1.2
  = Stopped
      (@Build_Managed recorder
         {| repoURL := "u1"; repoBranch := "main";
            localPath := "/tmp/go-argo-lite-repos/t1"; manifestPathInRepo := "k8s";
            lastCommitHash := "c0ffee"; repository := Some OpenRepository |}
         [] ["/tmp/go-argo-lite-repos/t1/k8s/a.yaml"])
  ∧ (manageSyncTarget (H := recorder) NewWorker (target "t1" "u1") firstStart
       [Tick (remoteAt "c0ffee") cloneTree; Stop]).2
    = ["/tmp/go-argo-lite-repos/t1"]
  ∧ (manageSyncTarget (H := recorder) NewWorker (target "t1" "u1") failedStart
       [Tick (remoteAt "c0ffee") cloneTree; Stop]).1.2
    = NotStarted (Errorf "failed to clone repository" (ErrorNew "authentication required")).
Proof. split; [|split]; reflexivity. Qed.

Lemma incomplete_target_never_polls_witness :
  manageSyncTarget (H := recorder) NewWorker (target "t1" "") firstStart
    [Tick (remoteAt "c0ffee") cloneTree]
  = (deregister NewWorker "t1",
     NotStarted (ErrorNew "repoURL, repoBranch, and localPath must be provided"), []).
Proof.
  pose proof (proj2 (incomplete_target_never_polls (H := recorder) NewWorker
                       (target "t1" "") firstStart [Tick (remoteAt "c0ffee") cloneTree])
                (or_introl eq_refl)) as Hcases.
  destruct Hcases as [(e & Hk & _) | (e & Hp & Hrun)].
  - vm_compute in Hk. discriminate Hk.
  - vm_compute in Hp. injection Hp as <-. exact Hrun.
Defined.
End goroutine_examples.

(** ** Creating a target *)
Section created.
Import Interfaces Worker Server.
Context `{DataStorage} (Decode : string → result SyncTarget).

Lemma normalized_fields (target : SyncTarget) (newID : string) :
  ID (normalized target newID) = newID
  ∧ RepoURL (normalized target newID) = RepoURL target
  ∧ RepoBranch (normalized target newID) = RepoBranch target
  ∧ KubeConfigContent (normalized target newID) = KubeConfigContent target
  ∧ GitCredentials (normalized target newID) = GitCredentials target
  ∧ ManifestPath (normalized target newID) = ManifestPath target
  ∧ (0 < PollIntervalSeconds (normalized target newID))%Z
  ∧ ((0 < PollIntervalSeconds target)%Z →
     PollIntervalSeconds (normalized target newID) = PollIntervalSeconds target)
  ∧ ((PollIntervalSeconds target ≤ 0)%Z →
     PollIntervalSeconds (normalized target newID) = 60%Z).
Proof.
  unfold normalized.
  destruct (decide (PollIntervalSeconds target ≤ 0)%Z) as [Hle|Hgt].
  - rewrite (bool_decide_eq_true_2 _ Hle). unfold withID, withPollInterval. cbn.
    split; [reflexivity|]. split; [reflexivity|]. split; [reflexivity|].
    split; [reflexivity|]. split; [reflexivity|]. split; [reflexivity|].
    split; [lia|]. split; [lia|]. reflexivity.
  - rewrite (bool_decide_eq_false_2 _ Hgt). unfold withID. cbn.
    split; [reflexivity|]. split; [reflexivity|]. split; [reflexivity|].
    split; [reflexivity|]. split; [reflexivity|]. split; [reflexivity|].
    split; [lia|]. split; [reflexivity|]. lia.
Qed.

(** The handler on a complete target, by the outcome of the save and of the
    registration. *)
Lemma handleCreateSyncTarget_complete (newID : string) (r : Request) (s : ServerState)
    (target : SyncTarget) :
  Method r = "POST" → Decode (RequestBody r) = Ok target → complete target →
  let saved := normalized target newID in
  let store' := (SaveSyncTarget saved (dataStorage s)).1 in
  let s' := {| dataStorage := store'; worker := worker s;
               saveCalls := saveCalls s ++ [saved] |} in
  handleCreateSyncTarget Decode newID r s
  = match (SaveSyncTarget saved (dataStorage s)).2 with
    | Some err =>
        (s', httpError ("Failed to save sync target: " +:+ Error err)
               StatusInternalServerError)
    | None =>
        match (AddSyncTarget (worker s) saved).2 with
        | Some err =>
            (s', httpError ("Sync target saved, but failed to start processing: "
                            +:+ Error err) StatusInternalServerError)
        | None =>
            ({| dataStorage := store'; worker := (AddSyncTarget (worker s) saved).1;
                saveCalls := saveCalls s ++ [saved] |},
             {| StatusCode := StatusCreated; ContentType := "application/json";
                ResponseBody := JSONObject [("id", newID);
                                            ("message", "SyncTarget created successfully")] |})
        end
    end.
Proof.
  intros Hm Hdec (Hu & Hb & Hk & Hp) saved store' s'. subst saved store' s'.
  unfold handleCreateSyncTarget.
  rewrite (bool_decide_eq_false_2 (Method r ≠ "POST")) by (intros Hne; by apply Hne).
  rewrite Hdec.
  rewrite (bool_decide_eq_false_2 (RepoURL target = "")) by done.
  rewrite (bool_decide_eq_false_2 (RepoBranch target = "")) by done.
  rewrite (bool_decide_eq_false_2 (KubeConfigContent target = "")) by done.
  rewrite (bool_decide_eq_false_2 (ManifestPath target = "")) by done.
  fold (normalized target newID).
  destruct (SaveSyncTarget (normalized target newID) (dataStorage s)) as [store [e|]];
    simpl; [done|].
  destruct (AddSyncTarget (worker s) (normalized target newID)) as [w [e|]] eqn:Hadd;
    simpl; [|done].
  revert Hadd. unfold AddSyncTarget.
  destruct (managedTargets (worker s) !! ID (normalized target newID)); [|done].
  intros [= <- <-]. by destruct s.
Qed.

(** X25: a complete request is saved, then registered.  For a POST whose
    body decodes to a target with the four fields set, when the save returns
    no error and the new identifier is not registered, the handler answers
    201 with the identifier in a JSON body, the storage is the one the save
    left, and the worker has the target registered under the new identifier
    with one goroutine started.  The target saved and registered is the one
    decoded, under the new identifier whatever identifier the body carried,
    and with a poll interval that is positive: the one decoded, or sixty
    seconds when that was zero or negative. *)
Theorem create_saves_then_registers (newID : string) (r : Request) (s : ServerState)
    (target : SyncTarget) (store' : Store) :
  Method r = "POST" → Decode (RequestBody r) = Ok target → complete target →
  SaveSyncTarget (normalized target newID) (dataStorage s) = (store', None) →
  managedTargets (worker s) !! newID = None →
  let saved := normalized target newID in
  handleCreateSyncTarget Decode newID r s
  = ({| dataStorage := store';
        worker := {| managedTargets := <[newID := saved]> (managedTargets (worker s));
                     started := started (worker s) ++ [newID] |};
        saveCalls := saveCalls s ++ [saved] |},
     {| StatusCode := 201; ContentType := "application/json";
        ResponseBody := JSONObject [("id", newID);
                                    ("message", "SyncTarget created successfully")] |})
  ∧ ID saved = newID
  ∧ RepoURL saved = RepoURL target ∧ RepoBranch saved = RepoBranch target
  ∧ KubeConfigContent saved = KubeConfigContent target
  ∧ ManifestPath saved = ManifestPath target
  ∧ (0 < PollIntervalSeconds saved)%Z
  ∧ ((0 < PollIntervalSeconds target)%Z →
     PollIntervalSeconds saved = PollIntervalSeconds target)
  ∧ ((PollIntervalSeconds target ≤ 0)%Z → PollIntervalSeconds saved = 60%Z).
Proof.
  intros Hm Hdec Hc Hsave Hfree saved. subst saved.
  destruct (normalized_fields target newID)
    as (Hid & Hu & Hb & Hk & _ & Hp & Hpos & Hkeep & Hdefault).
  split; [|by repeat split].
  rewrite (handleCreateSyncTarget_complete newID r s target Hm Hdec Hc). cbv zeta.
  rewrite Hsave. cbn [fst snd]. unfold AddSyncTarget. rewrite Hid, Hfree. reflexivity.
Qed.

(** X26: the four answers of the handler.  It answers 405 exactly to a
    method other than POST.  It answers 201 exactly to a POST whose body
    decodes to a complete target that the storage saves and whose new
    identifier is not registered.  The worker changes only with a 201; with a
    400 or a 405 nothing changes at all.  A 500 is given after a call of the
    save: either the save failed, or it succeeded and the registration was
    refused, in which case the target stays in the catalog without a
    goroutine. *)
Theorem create_outcomes (newID : string) (r : Request) (s : ServerState) :
  let s' := (handleCreateSyncTarget Decode newID r s).1 in
  let resp := (handleCreateSyncTarget Decode newID r s).2 in
  (StatusCode resp = 201 ∨ StatusCode resp = 400 ∨ StatusCode resp = 405
   ∨ StatusCode resp = 500)
  ∧ (StatusCode resp = 405 ↔ Method r ≠ "POST")
  ∧ (StatusCode resp = 201
     ↔ Method r = "POST"
       ∧ ∃ target, Decode (RequestBody r) = Ok target ∧ complete target
                   ∧ (SaveSyncTarget (normalized target newID) (dataStorage s)).2 = None
                   ∧ managedTargets (worker s) !! newID = None)
  ∧ (StatusCode resp ≠ 201 → worker s' = worker s)
  ∧ (StatusCode resp = 400 ∨ StatusCode resp = 405 → s' = s)
  ∧ (StatusCode resp = 500 →
     ∃ target, Decode (RequestBody r) = Ok target
               ∧ saveCalls s' = saveCalls s ++ [normalized target newID]
               ∧ dataStorage s' = (SaveSyncTarget (normalized target newID) (dataStorage s)).1
               ∧ (is_Some (SaveSyncTarget (normalized target newID) (dataStorage s)).2
                  ∨ is_Some (managedTargets (worker s) !! newID))).
Proof.
  intros s' resp. subst s' resp.
  destruct (decide (Method r = "POST")) as [Hm|Hm].
  2: { unfold handleCreateSyncTarget. rewrite (bool_decide_eq_true_2 (Method r ≠ "POST")) by done.
       simpl. unfold StatusMethodNotAllowed.
       split; [by auto|]. split; [done|]. split; [split; [done | by intros [? _]]|].
       split; [done|]. split; [done|]. done. }
  destruct (Decode (RequestBody r)) as [target|e] eqn:Hdec.
  2: { rewrite (handleCreateSyncTarget_undecodable Decode newID r s e Hm Hdec). simpl.
       unfold StatusBadRequest.
       split; [by auto|]. split; [split; [done | intros Hne; by destruct Hne]|].
       split; [split; [done | by intros (_ & ? & ? & _)]|].
       split; [done|]. split; [done|]. done. }
  destruct (missingField target) as [reason|] eqn:Hmiss.
  { rewrite (handleCreateSyncTarget_rejects Decode newID r s target reason Hm Hdec Hmiss).
    simpl. unfold StatusBadRequest.
    split; [by auto|]. split; [split; [done | intros Hne; by destruct Hne]|].
    split; [|split; [done|]; split; [done|]; done].
    split; [done|]. intros (_ & t & [= <-] & (Hu & Hb & Hk & Hp) & _).
    revert Hmiss. unfold missingField.
    rewrite (bool_decide_eq_false_2 (RepoURL target = "")) by done.
    rewrite (bool_decide_eq_false_2 (RepoBranch target = "")) by done.
    rewrite (bool_decide_eq_false_2 (KubeConfigContent target = "")) by done.
    by rewrite (bool_decide_eq_false_2 (ManifestPath target = "")) by done. }
  assert (Hc : complete target).
  { revert Hmiss. unfold missingField, complete. by repeat case_bool_decide. }
  rewrite (handleCreateSyncTarget_complete newID r s target Hm Hdec Hc).
  destruct (normalized_fields target newID) as (Hid & _).
  destruct (SaveSyncTarget (normalized target newID) (dataStorage s)) as [store [e|]] eqn:Hsave;
    simpl.
  { unfold StatusInternalServerError.
    split; [by auto|]. split; [split; [done | intros Hne; by destruct Hne]|].
    split; [split; [done | intros (_ & t & [= <-] & _ & Hs & _); by rewrite Hsave in Hs]|].
    split; [done|]. split; [by intros [?|?]|]. intros _. exists target.
    rewrite Hsave. simpl. split; [done|]. split; [done|]. split; [done|]. left. by eauto. }
  unfold AddSyncTarget. rewrite Hid.
  destruct (managedTargets (worker s) !! newID) as [t0|] eqn:Hl; simpl.
  - unfold StatusInternalServerError.
    split; [by auto|]. split; [split; [done | intros Hne; by destruct Hne]|].
    split; [split; [done | by intros (_ & t & _ & _ & _ & ?)]|].
    split; [done|]. split; [by intros [?|?]|]. intros _. exists target.
    rewrite Hsave. simpl. split; [done|]. split; [done|]. split; [done|]. right. by eauto.
  - unfold StatusCreated.
    split; [by auto|]. split; [split; [done | intros Hne; by destruct Hne]|].
    split; [|split; [done|]; split; [by intros [?|?] | done]].
    split; [|done]. intros _. split; [done|]. exists target. by rewrite Hsave.
Qed.
End created.

Section created_examples.
Import Interfaces Worker Server DoubleCodec.

Lemma create_saves_then_registers_witness :
  (handleCreateSyncTarget (H := fileStorage) decodeBody "id-1"
     {| Method := "POST"; RequestBody := "https://git.example/x.git|main|kubeconfig|k8s" |}
     serving).2
  = {| StatusCode := 201; ContentType := "application/json";
       ResponseBody := JSONObject [("id", "id-1");
                                   ("message", "SyncTarget created successfully")] |}
  ∧ dataStorage
      (handleCreateSyncTarget (H := fileStorage) decodeBody "id-1"
         {| Method := "POST"; RequestBody := "https://git.example/x.git|main|kubeconfig|k8s" |}
         serving).1
    = holding "enc:a=u1,id-1=https://git.example/x.git".
Proof.
  assert (Hdec : decodeBody "https://git.example/x.git|main|kubeconfig|k8s"
                 = Ok {| ID := ""; RepoURL := "https://git.example/x.git"; RepoBranch := "main";
                         KubeConfigContent := "kubeconfig"; PollIntervalSeconds := 30;
                         GitCredentials := ""; ManifestPath := "k8s" |})
    by (vm_compute; reflexivity).
  assert (Hsave : SaveSyncTarget (DataStorage := fileStorage)
                    (normalized
                       {| ID := ""; RepoURL := "https://git.example/x.git"; RepoBranch := "main";
                          KubeConfigContent := "kubeconfig"; PollIntervalSeconds := 30;
                          GitCredentials := ""; ManifestPath := "k8s" |} "id-1")
                    (holding "enc:a=u1")
                  = (holding "enc:a=u1,id-1=https://git.example/x.git", None))
    by (vm_compute; reflexivity).
  assert (Hcomplete : complete
                        {| ID := ""; RepoURL := "https://git.example/x.git";
                           RepoBranch := "main"; KubeConfigContent := "kubeconfig";
                           PollIntervalSeconds := 30; GitCredentials := "";
                           ManifestPath := "k8s" |})
    by (repeat split; discriminate).
  pose proof (create_saves_then_registers (H := fileStorage) decodeBody "id-1"
                {| Method := "POST";
                   RequestBody := "https://git.example/x.git|main|kubeconfig|k8s" |}
                serving _ _ eq_refl Hdec Hcomplete Hsave (lookup_empty _)) as [Hcreate _].
  rewrite Hcreate. split; reflexivity.
Defined.

(** A save that fails is answered 500 and registers nothing; a write that
    fails after the file is opened leaves the catalog truncated. *)
Example create_when_the_disk_is_full :
  let '(s, resp) :=
    handleCreateSyncTarget (H := fileStorage) decodeBody "id-1"
      {| Method := "POST"; RequestBody := "https://git.example/x.git|main|kubeconfig|k8s" |}
      (@Build_ServerState fileStorage
         {| Storage.file := Storage.Contents "enc:a=u1";
            Storage.writeErr :=
              Some (Storage.WriteFails 0 (ErrorNew "no space left on device")) |}
         NewWorker []) in
  StatusCode resp = 500 ∧ worker s = NewWorker
  ∧ dataStorage s = {| Storage.file := Storage.Contents "";
                       Storage.writeErr :=
                         Some (Storage.WriteFails 0 (ErrorNew "no space left on device")) |}.
Proof. vm_compute. done. Qed.

(** When the file cannot be opened for writing the catalog is as before. *)
Example create_when_the_file_is_read_only :
  let '(s, resp) :=
    handleCreateSyncTarget (H := fileStorage) decodeBody "id-1"
      {| Method := "POST"; RequestBody := "https://git.example/x.git|main|kubeconfig|k8s" |}
      (@Build_ServerState fileStorage
         {| Storage.file := Storage.Contents "enc:a=u1";
            Storage.writeErr := Some (Storage.OpenFails (ErrorNew "permission denied")) |}
         NewWorker []) in
  StatusCode resp = 500 ∧ worker s = NewWorker
  ∧ dataStorage s = {| Storage.file := Storage.Contents "enc:a=u1";
                       Storage.writeErr :=
                         Some (Storage.OpenFails (ErrorNew "permission denied")) |}.
Proof. vm_compute. done. Qed.
End created_examples.

(** ** The configuration of the agent *)
Section configuration.
Import Config.

Lemma digit_char (d : N) :
  (d < 10)%N →
  isDigit (pretty_N_char d) = true
  ∧ (Z.of_nat (nat_of_ascii (pretty_N_char d)) - 48)%Z = Z.of_N d.
Proof.
  intros Hd.
  assert (d = 0 ∨ d = 1 ∨ d = 2 ∨ d = 3 ∨ d = 4 ∨ d = 5 ∨ d = 6 ∨ d = 7 ∨ d = 8 ∨ d = 9)%N
    as Hcases by lia.
  destruct Hcases as [->|[->|[->|[->|[->|[->|[->|[->|[->| ->]]]]]]]]]; by vm_compute.
Qed.

(** The digits [pretty] writes in front of [s], read back. *)
Lemma pretty_N_go_digits (x : N) (s : string) :
  ∃ t, pretty_N_go x s = t +:+ s
       ∧ (∀ acc rest, digitsValue acc (t +:+ rest)
                      = digitsValue (acc * 10 ^ Z.of_nat (String.length t) + Z.of_N x) rest)
       ∧ ((0 < x)%N → t ≠ "").
Proof.
  revert s. induction (N.lt_wf_0 x) as [x _ IH]; intros s.
  assert (x = 0 ∨ 0 < x)%N as [->|Hpos] by lia.
  - exists "". rewrite pretty_N_go_0. split; [done|]. split; [|lia].
    intros acc rest. rewrite append_nil_l. f_equal. simpl. lia.
  - rewrite pretty_N_go_step by done.
    destruct (IH (x `div` 10)%N (N.div_lt x 10 Hpos eq_refl)
                (String (pretty_N_char (x `mod` 10)) s)) as (t & Ht & Hvalue & _).
    exists (t +:+ String (pretty_N_char (x `mod` 10)) "").
    split; [by rewrite Ht, append_assoc, append_cons, append_nil_l|].
    split; [|by destruct t].
    intros acc rest.
    rewrite append_assoc, append_cons, append_nil_l, Hvalue.
    destruct (digit_char (x `mod` 10)%N) as [Hdigit Hval]; [by apply N.mod_lt|].
    cbn [digitsValue]. rewrite Hdigit, Hval. f_equal.
    rewrite length_append. simpl.
    rewrite Nat2Z.inj_add, Z.pow_add_r by lia.
    pose proof (N.div_mod x 10 ltac:(done)) as Hx.
    apply (f_equal Z.of_N) in Hx. rewrite N2Z.inj_add, N2Z.inj_mul in Hx.
    change (Z.of_N 10) with 10%Z in Hx. change (Z.of_nat 1) with 1%Z.
    rewrite Z.pow_1_r. lia.
Qed.

Lemma Atoi_digit_head (c : ascii) (s : string) :
  isDigit c = true →
  Atoi (String c s)
  = match digitsValue 0 (String c s) with
    | None => Fail (ErrorNew "invalid syntax")
    | Some n =>
        if bool_decide (- 2 ^ 63 ≤ n)%Z && bool_decide (n ≤ 2 ^ 63 - 1)%Z then Ok n
        else Fail (ErrorNew "value out of range")
    end.
Proof.
  destruct c as [[] [] [] [] [] [] [] []]; try discriminate; intros _; reflexivity.
Qed.

Lemma pretty_positive_digits (p : positive) :
  ∃ c t, pretty p = String c t ∧ isDigit c = true
         ∧ digitsValue 0 (String c t) = Some (Z.pos p).
Proof.
  unfold pretty, pretty_positive, pretty, pretty_N. rewrite decide_False by done.
  destruct (pretty_N_go_digits (N.pos p) "") as (t & Ht & Hvalue & Hne).
  rewrite Ht, append_nil_r. specialize (Hvalue 0%Z "").
  rewrite append_nil_r in Hvalue. simpl in Hvalue.
  destruct t as [|c t]; [by destruct Hne|]. exists c, t. split; [done|].
  split; [|done]. revert Hvalue. cbn [digitsValue]. by destruct (isDigit c).
Qed.

(** [strconv.Atoi] reads back the decimal writing of every [int]. *)
Lemma Atoi_pretty (n : Z) : (minInt64 ≤ n ≤ maxInt64)%Z → Atoi (pretty n) = Ok n.
Proof.
  unfold minInt64, maxInt64. intros Hn. destruct n as [|p|p].
  - reflexivity.
  - change (pretty (Z.pos p)) with (pretty p).
    destruct (pretty_positive_digits p) as (c & t & -> & Hc & Hv).
    rewrite (Atoi_digit_head c t Hc), Hv.
    by rewrite !bool_decide_eq_true_2 by lia.
  - change (pretty (Z.neg p)) with ("-" +:+ pretty p).
    destruct (pretty_positive_digits p) as (c & t & -> & Hc & Hv).
    rewrite append_cons, append_nil_l. unfold Atoi. rewrite Hv.
    change (- Z.pos p)%Z with (Z.neg p).
    by rewrite !bool_decide_eq_true_2 by lia.
Qed.

(** The interval of a configuration that loaded is the number the variable
    writes. *)
Lemma LoadConfig_interval (Getenv : string → string) (cfg : Config) (n : Z) :
  LoadConfig Getenv = Ok cfg → (minInt64 ≤ n ≤ maxInt64)%Z →
  Getenv "POLL_INTERVAL_SECONDS" = pretty n → PollIntervalSeconds cfg = n.
Proof.
  intros Hload Hn Hpretty. revert Hload. unfold LoadConfig.
  case_bool_decide; [done|]. case_bool_decide; [done|].
  assert (Hne : Getenv "POLL_INTERVAL_SECONDS" ≠ "").
  { rewrite Hpretty. destruct n as [|p|p]; [done| |done].
    destruct (pretty_positive_digits p) as (c & t & Hp & _).
    change (pretty (Z.pos p)) with (pretty p). by rewrite Hp. }
  rewrite (bool_decide_eq_true_2 (Getenv "POLL_INTERVAL_SECONDS" ≠ "")) by done.
  rewrite Hpretty, (Atoi_pretty n Hn). by intros [= <-].
Qed.

(** X27: [LoadConfig] returns a configuration exactly when [REPO_URL] and
    [REPO_BRANCH] are set and [POLL_INTERVAL_SECONDS] is unset or an
    integer; a missing URL is reported before a missing branch, and that
    before an interval that is no integer.  The configuration holds the URL,
    the branch and the path of the cluster credentials as the environment has
    them, a manifest path that is not empty ([manifests] when the variable is
    unset) and sixty seconds when the interval is unset.  Any integer is
    accepted as the interval: the decimal writing of an [int] loads as that
    number, zero and the negative ones included. *)
Theorem load_config_requirements (Getenv : string → string) :
  let interval := Getenv "POLL_INTERVAL_SECONDS" in
  ((∃ cfg, LoadConfig Getenv = Ok cfg)
   ↔ Getenv "REPO_URL" ≠ "" ∧ Getenv "REPO_BRANCH" ≠ ""
     ∧ (interval = "" ∨ ∃ n, Atoi interval = Ok n))
  ∧ (Getenv "REPO_URL" = "" →
     LoadConfig Getenv = Fail (ErrorNew "REPO_URL environment variable is required"))
  ∧ (Getenv "REPO_URL" ≠ "" → Getenv "REPO_BRANCH" = "" →
     LoadConfig Getenv = Fail (ErrorNew "REPO_BRANCH environment variable is required"))
  ∧ (∀ cfg, LoadConfig Getenv = Ok cfg →
       RepoURL cfg = Getenv "REPO_URL" ∧ RepoBranch cfg = Getenv "REPO_BRANCH"
       ∧ KubeconfigPath cfg = Getenv "KUBECONFIG_PATH"
       ∧ ManifestPath cfg ≠ ""
       ∧ (Getenv "MANIFEST_PATH" = "" → ManifestPath cfg = "manifests")
       ∧ (Getenv "MANIFEST_PATH" ≠ "" → ManifestPath cfg = Getenv "MANIFEST_PATH")
       ∧ (interval = "" → PollIntervalSeconds cfg = 60%Z)
       ∧ ∀ n, (minInt64 ≤ n ≤ maxInt64)%Z → interval = pretty n →
              PollIntervalSeconds cfg = n).
Proof.
  intros interval. subst interval. unfold LoadConfig.
  destruct (decide (Getenv "REPO_URL" = "")) as [Hu|Hu].
  { rewrite (bool_decide_eq_true_2 _ Hu).
    split; [split; [by intros [? ?] | by intros [? _]]|]. split; [done|].
    split; [done|]. done. }
  rewrite (bool_decide_eq_false_2 _ Hu).
  destruct (decide (Getenv "REPO_BRANCH" = "")) as [Hb|Hb].
  { rewrite (bool_decide_eq_true_2 _ Hb).
    split; [split; [by intros [? ?] | by intros (_ & ? & _)]|]. split; [done|].
    split; [done|]. done. }
  rewrite (bool_decide_eq_false_2 _ Hb).
  assert (Hpath : (if bool_decide (Getenv "MANIFEST_PATH" = "") then "manifests"
                   else Getenv "MANIFEST_PATH") ≠ "").
  { by case_bool_decide. }
  destruct (decide (Getenv "POLL_INTERVAL_SECONDS" = "")) as [Hi|Hi].
  { rewrite (bool_decide_eq_false_2 (Getenv "POLL_INTERVAL_SECONDS" ≠ ""))
      by (intros Hne; by apply Hne).
    split; [split; [by auto | by eauto]|]. split; [done|]. split; [done|].
    intros cfg [= <-]. simpl. repeat (split; [done|]).
    split; [intros ?; by rewrite bool_decide_eq_true_2|].
    split; [intros ?; by rewrite bool_decide_eq_false_2|]. split; [done|].
    intros n Hn Hpretty. rewrite Hi in Hpretty.
    destruct n as [|p|p]; [done| |done].
    destruct (pretty_positive_digits p) as (c & t & Hp & _).
    change (pretty (Z.pos p)) with (pretty p) in Hpretty. congruence. }
  rewrite (bool_decide_eq_true_2 (Getenv "POLL_INTERVAL_SECONDS" ≠ "")) by done.
  destruct (Atoi (Getenv "POLL_INTERVAL_SECONDS")) as [n|e] eqn:Hatoi.
  - split; [split; [by eauto 10 | by eauto]|]. split; [done|]. split; [done|].
    intros cfg [= <-]. simpl. repeat (split; [done|]).
    split; [intros ?; by rewrite bool_decide_eq_true_2|].
    split; [intros ?; by rewrite bool_decide_eq_false_2|]. split; [done|].
    intros n' Hn' Hpretty. rewrite Hpretty, (Atoi_pretty n' Hn') in Hatoi. congruence.
  - split; [|done].
    split; [by intros [? ?]|]. intros (_ & _ & [?|[n Hn]]); done.
Qed.
End configuration.

Section configuration_examples.
Import Config.

Example load_config_cases :
  LoadConfig (testEnvironment "")
  = Ok {| RepoURL := "https://git.example.com/repo.git"; RepoBranch := "main";
          KubeconfigPath := ""; PollIntervalSeconds := 60; ManifestPath := "manifests" |}
  ∧ LoadConfig (testEnvironment "not-an-integer")
    = Fail (ErrorNew "POLL_INTERVAL_SECONDS must be a valid integer")
  ∧ PollIntervalSeconds <$> (match LoadConfig (testEnvironment "-5") with
                             | Ok cfg => Some cfg | Fail _ => None end) = Some (-5)%Z
  ∧ LoadConfig (testEnvironment "9223372036854775808")
    = Fail (ErrorNew "POLL_INTERVAL_SECONDS must be a valid integer")
  ∧ LoadConfig (testEnvironment "1_000")
    = Fail (ErrorNew "POLL_INTERVAL_SECONDS must be a valid integer")
  ∧ LoadConfig (λ _, "") = Fail (ErrorNew "REPO_URL environment variable is required").
Proof. repeat split; vm_compute; reflexivity. Qed.
End configuration_examples.

(** ** The agent of a single repository *)
Section agent.
Import Filepath Gitpoller App.
Context `{Worker.KubeHandler}.

Lemma applyFiles_applyAll (manifestFiles : list string) (k : Worker.Kube)
    (log applyErrors : list string) :
  (applyFiles manifestFiles k log applyErrors).1 = Worker.applyAll manifestFiles k log.
Proof.
  revert k log applyErrors.
  induction manifestFiles as [|filePath rest IH]; intros k log applyErrors; simpl; [done|].
  destruct (Worker.ApplyManifestFile filePath k) as [k' [e|]]; simpl; apply IH.
Qed.

(** One tick of the agent is one tick of the goroutine. *)
Lemma tick_managed (a : App) (applied : list string) (git : GitCalls) (fs : FileSystem) :
  Worker.tick (managed a applied) git fs
  = managed (tick a applied git fs).1 (tick a applied git fs).2
  ∧ cfg (tick a applied git fs).1 = cfg a.
Proof.
  unfold Worker.tick, tick, managed. simpl.
  destruct (Poll (H := fs) (poller a) git) as [gp r].
  destruct (err r) as [e|]; [done|].
  destruct (changed r); [|done].
  case_bool_decide as Hnone.
  - destruct (manifestFiles r); [done | simpl in Hnone; lia].
  - pose proof (applyFiles_applyAll (manifestFiles r) (kubeHandler a) applied []) as Hall.
    destruct (applyFiles (manifestFiles r) (kubeHandler a) applied []) as [[k log] errs].
    simpl in *. by rewrite <- Hall.
Qed.

(** X28: the loop of the agent and the loop of the goroutine of a target
    are one loop.  On the same events (a signal for the agent being the stop
    signal for the goroutine) and from the same poller, cluster client and
    log, they end alike, returned or waiting, with the same poller, the same
    state of the cluster client and the same files handed to the applier;
    the configuration of the agent is as before. *)
Theorem agent_loop_is_worker_loop (events : list Event) (a : App) (applied : list string) :
  match loop events a applied with
  | Returned a' applied' =>
      Worker.serve (workerEvent <$> events) (managed a applied)
      = Worker.Stopped (managed a' applied')
      ∧ cfg a' = cfg a
  | Polling a' applied' =>
      Worker.serve (workerEvent <$> events) (managed a applied)
      = Worker.Waiting (managed a' applied')
      ∧ cfg a' = cfg a
  | Failed _ | Panicked _ => False
  end.
Proof.
  revert a applied. induction events as [|[git fs|] events IH]; intros a applied; simpl;
    [done| |done].
  destruct (tick_managed a applied git fs) as [Htick Hcfg].
  destruct (tick a applied git fs) as [a' applied']. simpl in *.
  rewrite Htick. specialize (IH a' applied').
  destruct (loop events a' applied'); try done; by rewrite <- Hcfg.
Qed.

Lemma NewApp_cfg (c : Config.Config) (NewKubeHandler : string → result Worker.Kube)
    (a : App) :
  NewApp (Some c) NewKubeHandler = Ok a → cfg a = c.
Proof.
  unfold NewApp. destruct (NewGitPoller _ _ _ _); [|done].
  destruct (NewKubeHandler _); [|done]. by intros [= <-].
Qed.

(** X29: the agent does not run on an interval that is not positive, and
    its configuration accepts one.  When [POLL_INTERVAL_SECONDS] writes zero
    or a negative number (down to -9223372036), [LoadConfig] returns the
    configuration with that number, [NewApp] takes it, and [Run], once the
    repository is initialized, asks for a ticker of a duration that is not
    positive, on which [time.NewTicker] panics: no poll is made.  The
    goroutine of the worker replaces such an interval by sixty seconds. *)
Theorem nonpositive_interval_panics (Getenv : string → string)
    (NewKubeHandler : string → result Worker.Kube) (c : Config.Config) (a : App)
    (calls : InitCalls) (events : list Event) (n : Z) :
  Getenv "POLL_INTERVAL_SECONDS" = pretty n → (-9223372036 ≤ n ≤ 0)%Z →
  Config.LoadConfig Getenv = Ok c → NewApp (Some c) NewKubeHandler = Ok a →
  (InitializeRepo (poller a) calls).2 = None →
  Config.PollIntervalSeconds (cfg a) = n
  ∧ Run a calls events = Panicked "non-positive interval for NewTicker"
  ∧ ∀ target, Interfaces.PollIntervalSeconds target = n →
              Worker.pollInterval target = (60 * Worker.Second)%Z.
Proof.
  intros Hpretty Hn Hload Hnew Hinit.
  assert (Hcfg : Config.PollIntervalSeconds (cfg a) = n).
  { rewrite (NewApp_cfg c NewKubeHandler a Hnew).
    apply (LoadConfig_interval Getenv); [done | | done].
    unfold minInt64, maxInt64. lia. }
  assert (Hwrap : Worker.wrap64 (n * Worker.Second) = (n * Worker.Second)%Z).
  { apply wrap64_small. unfold Worker.Second, minInt64, maxInt64. lia. }
  split; [done|]. split.
  - unfold Run. destruct (InitializeRepo (poller a) calls) as [gp [e|]]; [done|].
    simpl. rewrite Hcfg, Hwrap. rewrite bool_decide_eq_true_2; [done|].
    unfold Worker.Second. lia.
  - intros target Htarget. unfold Worker.pollInterval. rewrite Htarget, Hwrap.
    rewrite bool_decide_eq_true_2; [done|]. unfold Worker.Second. lia.
Qed.
End agent.

Section agent_examples.
Import Filepath Gitpoller App.

Lemma nonpositive_interval_panics_witness :
  Config.LoadConfig (testEnvironment "0") = Ok zeroInterval
  ∧ Run (H := recorder) agent cloning [Tick (remoteAt "c0ffee") cloneTree]
    = Panicked "non-positive interval for NewTicker".
Proof.
  assert (Hload : Config.LoadConfig (testEnvironment "0") = Ok zeroInterval)
    by (vm_compute; reflexivity).
  split; [exact Hload|].
  assert (Hnew : NewApp (H := recorder) (Some zeroInterval) (λ _, Ok []) = Ok agent)
    by reflexivity.
  assert (Hinit : (InitializeRepo (poller agent) cloning).2 = None) by reflexivity.
  assert (Hzero : (-9223372036 ≤ 0 ≤ 0)%Z) by lia.
  exact (proj1 (proj2 (nonpositive_interval_panics (H := recorder) (testEnvironment "0")
                         (λ _, Ok []) zeroInterval agent cloning
                         [Tick (remoteAt "c0ffee") cloneTree] 0 eq_refl Hzero
                         Hload Hnew Hinit))).
Defined.

(** With an interval of sixty seconds the agent polls, and applies what the
    first tick lists. *)
Example agent_polls :
  match Run (H := recorder)
          (@Build_App recorder
             {| Config.RepoURL := "https://git.example/x.git"; Config.RepoBranch := "main";
                Config.KubeconfigPath := ""; Config.PollIntervalSeconds := 60;
                Config.ManifestPath := "k8s" |}
             clonePoller [])
          cloning [Tick (remoteAt "c0ffee") cloneTree; Signal] with
  | Returned _ applied => applied = ["/tmp/go-argo-lite-repos/t1/k8s/a.yaml"]
  | _ => False
  end.
Proof. vm_compute. reflexivity. Qed.
End agent_examples.
